(** * Persona-driven document analysis: segmentation, scoring and ranking

    A shallow embedding of [Challenge_1b/process_documents.py]
    (class [PersonaDocumentAnalyzer]) and the properties of its section
    segmenter, relevance scorer, ranker, sub-passage extractor and
    collection orchestrator.

    Conventions of the embedding.
    - A Python [str] is a [string]; the character predicates agree with
      CPython on ASCII text ([str.isspace], [\w], [\d], [\s], [str.lower]).
    - A Python [float] is an IEEE 754 binary64 value ([F64], on the
      operations of [SpecFloat]).  [Double.calculate_relevance_score] is
      the score as the interpreter computes it, rounding after each
      operation; the ranker and the extractor compare these doubles.
      [calculate_relevance_score] is the same formula evaluated in exact
      rational arithmetic ([Q]), without rounding.
    - A [set] of strings is iterated in an order fixed by the hashes of
      its elements, and the hash of a string changes from one run of the
      interpreter to the next.  A run is given by its hash function, the
      field [hash_of] of the [World].
    - A Python [dict] with a fixed set of keys is a record.  The list
      that [rank_sections] ranks holds references to section dicts:
      [InPlace.rank_sections] is the ranker on a store of objects, as the
      program runs it; [rank_sections] is the ranker on values, and
      [rank_sections_in_place] shows that it computes the same sections
      when the references are distinct.
    - [list.sort(key=..., reverse=True)] is stable; its result is the one
      of any stable sort by descending key, written here as an insertion
      sort.
    - An exception is a value of [exn]; code that can raise lives in the
      error monad [result].  An [except Exception] clause catches the
      exceptions whose class derives from [Exception] and lets the
      others pass. *)

From Stdlib Require Import List String Ascii Arith Bool Lia ZArith.
From Stdlib Require Import QArith Qminmax Permutation Sorted.
From Stdlib Require Import Decimal DecimalString SpecFloat.
Import ListNotations.

Local Open Scope string_scope.
Local Open Scope list_scope.
Local Open Scope nat_scope.

Set Implicit Arguments.

(* ================================================================== *)
(** * Python strings *)
(* ================================================================== *)

Module Py.

Definition code (c : ascii) : nat := nat_of_ascii c.

Definition between (lo hi : nat) (c : ascii) : bool :=
  (lo <=? code c) && (code c <=? hi).

(** [str.isspace] on ASCII: TAB, LF, VT, FF, CR, FS, GS, RS, US, SPACE. *)
Definition isspace (c : ascii) : bool :=
  between 9 13 c || between 28 31 c || (code c =? 32).

Definition isdigit (c : ascii) : bool := between 48 57 c.
Definition isupper (c : ascii) : bool := between 65 90 c.
Definition islower (c : ascii) : bool := between 97 122 c.
Definition isalpha (c : ascii) : bool := isupper c || islower c.

(** The class [\w]: letters, digits and the underscore. *)
Definition isword (c : ascii) : bool :=
  isalpha c || isdigit c || (code c =? 95).

Definition lower_char (c : ascii) : ascii :=
  if isupper c then ascii_of_nat (code c + 32) else c.

Definition upper_char (c : ascii) : ascii :=
  if islower c then ascii_of_nat (code c - 32) else c.

(** [s.lower()] *)
Fixpoint lower (s : string) : string :=
  match s with
  | EmptyString => EmptyString
  | String c s' => String (lower_char c) (lower s')
  end.

(** [s.isascii()] *)
Fixpoint isascii (s : string) : bool :=
  match s with
  | EmptyString => true
  | String c s' => (code c <? 128) && isascii s'
  end.

Definition is_empty (s : string) : bool :=
  match s with EmptyString => true | _ => false end.

(** [s.lstrip()] *)
Fixpoint lstrip (s : string) : string :=
  match s with
  | EmptyString => EmptyString
  | String c s' => if isspace c then lstrip s' else s
  end.

(** [s.rstrip()] *)
Fixpoint rstrip (s : string) : string :=
  match s with
  | EmptyString => EmptyString
  | String c s' =>
      let r := rstrip s' in
      if isspace c && is_empty r then EmptyString else String c r
  end.

(** [s.strip()] *)
Definition strip (s : string) : string := rstrip (lstrip s).

(** [len(s)] *)
Definition len (s : string) : nat := String.length s.

(** [s[:n]] *)
Fixpoint take (n : nat) (s : string) : string :=
  match n, s with
  | S n', String c s' => String c (take n' s')
  | _, _ => EmptyString
  end.

Definition snoc (s : string) (c : ascii) : string :=
  String.append s (String c EmptyString).

(** [needle in hay] *)
Fixpoint contains (needle hay : string) : bool :=
  String.prefix needle hay ||
  match hay with
  | EmptyString => false
  | String _ hay' => contains needle hay'
  end.

(** Maximal runs of the characters satisfying [keep]; [cur] is the run
    being read. *)
Fixpoint runs (keep : ascii -> bool) (cur s : string) : list string :=
  match s with
  | EmptyString => if is_empty cur then [] else [cur]
  | String c s' =>
      if keep c then runs keep (snoc cur c) s'
      else if is_empty cur then runs keep EmptyString s'
      else cur :: runs keep EmptyString s'
  end.

(** [s.split()]: the maximal runs of non-blank characters. *)
Definition split (s : string) : list string :=
  runs (fun c => negb (isspace c)) EmptyString s.

(** [sep.join(parts)] *)
Fixpoint join (sep : string) (parts : list string) : string :=
  match parts with
  | [] => EmptyString
  | [p] => p
  | p :: rest => String.append p (String.append sep (join sep rest))
  end.

(** [s.split('\n\n')]: cut at each blank line, left to right. *)
Fixpoint split_blank_lines (cur s : string) : list string :=
  match s with
  | EmptyString => [cur]
  | String c s' =>
      match s' with
      | String c' s'' =>
          if (code c =? 10) && (code c' =? 10)
          then cur :: split_blank_lines EmptyString s''
          else split_blank_lines (snoc cur c) s'
      | EmptyString => split_blank_lines (snoc cur c) s'
      end
  end.

(** [str(n)] for a non-negative integer. *)
Definition str_of_nat (n : nat) : string :=
  NilEmpty.string_of_uint (Nat.to_uint n).

(** [range(0, stop, step)] *)
Definition range0 (stop step : nat) : list nat :=
  map (fun k => k * step) (seq 0 ((stop + step - 1) / step)).

(** [l[i:i+n]] *)
Definition slice {A} (i n : nat) (l : list A) : list A :=
  firstn n (skipn i l).

(** [set(words)] as a duplicate-free list, and [len] of an
    intersection of two such sets. *)
Definition set_of (words : list string) : list string :=
  nodup string_dec words.

Definition mem (w : string) (ws : list string) : bool :=
  existsb (String.eqb w) ws.

Definition intersection (a b : list string) : list string :=
  filter (fun w => mem w b) a.

(** ** Sets as a run of the interpreter holds them

    The elements of a [set] of strings are met in the order of their
    places in the hash table, and the place of a string follows from
    its hash, which is drawn anew at each start of the interpreter.
    [hash] is the hash function of the run; elements of equal hash
    stay in the order in which they were added. *)
Fixpoint place (hash : string -> nat) (w : string) (ws : list string)
  : list string :=
  match ws with
  | [] => [w]
  | x :: ws' => if hash w <? hash x then w :: ws else x :: place hash w ws'
  end.

(** The set that holds [ws] and [w]. *)
Definition add (hash : string -> nat) (ws : list string) (w : string)
  : list string :=
  if mem w ws then ws else place hash w ws.

(** [set(words)] *)
Definition hashed_set (hash : string -> nat) (words : list string)
  : list string :=
  fold_left (add hash) words [].

(** [a.intersection(b)] *)
Definition hashed_intersection (hash : string -> nat) (a b : list string)
  : list string :=
  hashed_set hash (filter (fun w => mem w b) a).

End Py.

(* ================================================================== *)
(** * Regular expressions of the [re] module *)
(* ================================================================== *)

Module Re.

(** The fragment of the pattern language the program uses.  [Eos] is
    the assertion [$] (end of the text, or just before a final
    newline). *)
Inductive regex : Type :=
| Eps
| Sym (p : ascii -> bool)
| Cat (r1 r2 : regex)
| Alt (r1 r2 : regex)
| Star (r : regex)
| Rep (lo hi : nat) (r : regex)
| Eos.

Definition Plus (r : regex) : regex := Cat r (Star r).
Definition Opt (r : regex) : regex := Alt r Eps.

(** Under [re.IGNORECASE] a character matches a class when either of
    its cases is in the class. *)
Definition icase (p : ascii -> bool) (c : ascii) : bool :=
  p (Py.lower_char c) || p (Py.upper_char c).

Definition chr (a : ascii) : ascii -> bool := fun c => Ascii.eqb a c.

(** A literal word, case-insensitively. *)
Fixpoint lit (s : string) : regex :=
  match s with
  | EmptyString => Eps
  | String a s' => Cat (Sym (icase (chr a))) (lit s')
  end.

(** [(r|r1|...|rn)] *)
Definition alts (r : regex) (rs : list regex) : regex :=
  fold_left Alt rs r.

Definition shorter (s t : string) : bool := Py.len s <? Py.len t.

(** Zero or more rounds of [step], each round consuming at least one
    character. *)
Fixpoint star_from (step : string -> list string) (fuel : nat) (s : string)
  : list string :=
  s :: match fuel with
       | 0 => []
       | S fuel' =>
           flat_map (star_from step fuel')
                    (filter (fun t => shorter t s) (step s))
       end.

(** Between [lo] and [hi] rounds of [step]. *)
Fixpoint rep_from (step : string -> list string) (lo hi : nat) (s : string)
  : list string :=
  (if lo =? 0 then [s] else []) ++
  match hi with
  | 0 => []
  | S hi' => flat_map (rep_from step (pred lo) hi') (step s)
  end.

(** [rests r s]: what is left of [s] after each way of matching [r]
    at its start. *)
Fixpoint rests (r : regex) (s : string) : list string :=
  match r with
  | Eps => [s]
  | Sym p =>
      match s with
      | String c s' => if p c then [s'] else []
      | EmptyString => []
      end
  | Cat r1 r2 => flat_map (rests r2) (rests r1 s)
  | Alt r1 r2 => rests r1 s ++ rests r2 s
  | Star r' => star_from (rests r') (Py.len s) s
  | Rep lo hi r' => rep_from (rests r') lo hi s
  | Eos =>
      match s with
      | EmptyString => [s]
      | String c EmptyString => if Py.code c =? 10 then [s] else []
      | _ => []
      end
  end.

(** [re.match(pattern, text, re.IGNORECASE)] as a truth value. *)
Definition match_ (r : regex) (s : string) : bool :=
  negb (Nat.eqb (List.length (rests r s)) 0).

End Re.

(* ================================================================== *)
(** * Python floats *)
(* ================================================================== *)

(** A [float] is a binary64 value: 53 bits of precision, exponents up
    to 1024, every operation rounded to nearest, ties to even. *)
Module F64.

Definition t : Type := spec_float.

Definition prec : Z := 53.
Definition emax : Z := 1024.

(** [0.0] *)
Definition zero : t := S754_zero false.

(** [float(n)] for a non-negative integer. *)
Definition of_nat (n : nat) : t :=
  binary_normalize prec emax (Z.of_nat n) 0 false.

(** [x + y] and [x * y] *)
Definition add : t -> t -> t := SFadd prec emax.
Definition mul : t -> t -> t := SFmul prec emax.

(** [a / b] on two non-negative integers: the quotient rounded once.
    The program divides by a length it has found positive. *)
Definition true_div (a b : nat) : t :=
  match a, b with
  | 0, _ => zero
  | _, 0 => S754_nan
  | _, _ =>
      SFdiv prec emax (S754_finite false (Pos.of_nat a) 0)
                      (S754_finite false (Pos.of_nat b) 0)
  end.

(** [x < y], [x <= y] and [x == y] *)
Definition ltb : t -> t -> bool := SFltb.
Definition leb : t -> t -> bool := SFleb.
Definition eqb : t -> t -> bool := SFeqb.

(** [min(a, b)]: the first argument unless the second is less. *)
Definition min (a b : t) : t := if ltb b a then b else a.

(** A number that is not negative: not NaN, sign bit clear. *)
Definition good (x : t) : Prop :=
  match x with
  | S754_nan => False
  | S754_zero s | S754_infinity s | S754_finite s _ _ => s = false
  end.

(** A positive finite number. *)
Definition finite_positive (x : t) : Prop :=
  match x with
  | S754_finite false _ _ => True
  | _ => False
  end.

End F64.

(* ================================================================== *)
(** * Data model *)
(* ================================================================== *)

(** An item of [document_data], as built by [extract_document_text]. *)
Module TextBlock.
Record t : Type := mk {
  document : string;
  page : nat;
  section_id : string;
  text : string;
  word_count : nat
}.
End TextBlock.

(** A section dict.  The key ['relevance_score'] is absent until
    [rank_sections] sets it. *)
Module Sec.
Record t : Type := mk {
  document : string;
  page : nat;
  section_title : string;
  content : list TextBlock.t;
  importance_rank : nat;
  relevance_score : option F64.t
}.

Definition set_relevance_score (x : F64.t) (s : t) : t :=
  mk (document s) (page s) (section_title s) (content s)
     (importance_rank s) (Some x).

Definition set_importance_rank (r : nat) (s : t) : t :=
  mk (document s) (page s) (section_title s) (content s)
     r (relevance_score s).

(** The sort key [x['relevance_score']], read once the ranker has set
    it. *)
Definition score (s : t) : F64.t :=
  match relevance_score s with Some x => x | None => F64.zero end.
End Sec.

(** An entry of a subsection list. *)
Module Passage.
Record t : Type := mk {
  document : string;
  page_number : nat;
  refined_text : string;
  relevance_score : F64.t
}.
End Passage.

(* ================================================================== *)
(** * Section segmenter *)
(* ================================================================== *)

Definition AZ : ascii -> bool := Re.icase Py.isupper.
Definition az : ascii -> bool := Re.icase Py.islower.
Definition AZ_or_space (c : ascii) : bool := Re.icase Py.isupper c || Py.isspace c.
Definition dot : ascii -> bool := Re.chr "."%char.

(** The list [header_patterns] of [is_section_header]. *)
Definition header_patterns : list Re.regex :=
  [ (* ^\d+\.?\s+[A-Z] *)
    Re.Cat (Re.Plus (Re.Sym Py.isdigit))
      (Re.Cat (Re.Opt (Re.Sym dot))
         (Re.Cat (Re.Plus (Re.Sym Py.isspace)) (Re.Sym AZ)));
    (* ^[A-Z\s]{5,50}$ *)
    Re.Cat (Re.Rep 5 50 (Re.Sym AZ_or_space)) Re.Eos;
    (* ^(Abstract|Introduction|Methodology|Results|Discussion|Conclusion|References) *)
    Re.alts (Re.lit "Abstract")
      [Re.lit "Introduction"; Re.lit "Methodology"; Re.lit "Results";
       Re.lit "Discussion"; Re.lit "Conclusion"; Re.lit "References"];
    (* ^(Chapter|Section|Part)\s+\d+ *)
    Re.Cat (Re.alts (Re.lit "Chapter") [Re.lit "Section"; Re.lit "Part"])
      (Re.Cat (Re.Plus (Re.Sym Py.isspace)) (Re.Plus (Re.Sym Py.isdigit)));
    (* ^[A-Z][a-z]+(?:\s+[A-Z][a-z]+)*\s*$ *)
    Re.Cat (Re.Sym AZ)
      (Re.Cat (Re.Plus (Re.Sym az))
         (Re.Cat
            (Re.Star (Re.Cat (Re.Plus (Re.Sym Py.isspace))
                        (Re.Cat (Re.Sym AZ) (Re.Plus (Re.Sym az)))))
            (Re.Cat (Re.Star (Re.Sym Py.isspace)) Re.Eos))) ].

Definition is_section_header (text : string) : bool :=
  let text := Py.strip text in
  if (Py.len text <? 200) && (5 <? Py.len text)
  then existsb (fun pattern => Re.match_ pattern text) header_patterns
  else false.

(** [text[:100] + "..." if len(text) > 100 else text] *)
Definition header_title (text : string) : string :=
  if 100 <? Py.len text
  then String.append (Py.take 100 text) "..."
  else text.

Definition orphan_title (item : TextBlock.t) : string :=
  String.append "Section starting at page " (Py.str_of_nat (TextBlock.page item)).

Definition new_section (title : string) (item : TextBlock.t) : Sec.t :=
  Sec.mk (TextBlock.document item) (TextBlock.page item) title [item] 0 None.

(** [current_section['content'].append(item)] *)
Definition append_content (item : TextBlock.t) (s : Sec.t) : Sec.t :=
  Sec.mk (Sec.document s) (Sec.page s) (Sec.section_title s)
         (Sec.content s ++ [item]) (Sec.importance_rank s)
         (Sec.relevance_score s).

(** The loop state of [identify_sections]: the list [sections] and
    [current_section] ([None] before the first block). *)
Definition seg_state : Type := (list Sec.t * option Sec.t)%type.

Definition seg_step (st : seg_state) (item : TextBlock.t) : seg_state :=
  let '(sections, current_section) := st in
  let text := TextBlock.text item in
  if is_section_header text then
    let sections :=
      match current_section with
      | Some cur => sections ++ [cur]
      | None => sections
      end in
    (sections, Some (new_section (header_title text) item))
  else
    match current_section with
    | Some cur => (sections, Some (append_content item cur))
    | None => (sections, Some (new_section (orphan_title item) item))
    end.

Definition seg_finish (st : seg_state) : list Sec.t :=
  let '(sections, current_section) := st in
  match current_section with
  | Some cur => sections ++ [cur]
  | None => sections
  end.

Definition identify_sections (document_data : list TextBlock.t) : list Sec.t :=
  seg_finish (fold_left seg_step document_data ([], None)).

(* ================================================================== *)
(** * Relevance scorer *)
(* ================================================================== *)

Definition persona_keywords : list (string * list string) :=
  [ ("researcher", ["methodology"; "results"; "analysis"; "experiment"; "data";
                    "study"; "research"; "findings"; "hypothesis"; "literature"]);
    ("student", ["definition"; "example"; "concept"; "theory"; "principle";
                 "basics"; "fundamentals"; "explanation"; "overview"; "summary"]);
    ("analyst", ["trend"; "performance"; "metric"; "revenue"; "growth"; "market";
                 "financial"; "investment"; "risk"; "return"]);
    ("manager", ["strategy"; "implementation"; "team"; "project"; "planning";
                 "execution"; "leadership"; "management"; "objectives"; "goals"]);
    ("developer", ["code"; "implementation"; "algorithm"; "technical"; "system";
                   "architecture"; "framework"; "api"; "database"; "optimization"]);
    ("consultant", ["recommendation"; "solution"; "best practice"; "assessment";
                    "evaluation"; "improvement"; "process"; "efficiency";
                    "optimization"]) ].

Definition academic_keywords : list string :=
  ["abstract"; "introduction"; "methodology"; "results"; "discussion";
   "conclusion"; "references"; "literature review"].

Definition business_keywords : list string :=
  ["executive summary"; "financial"; "revenue"; "profit"; "market";
   "strategy"; "competitive"; "analysis"].

Definition persona_mappings : list (string * list string) :=
  [ ("researcher", ["researcher"; "scientist"; "phd"; "academic"]);
    ("student", ["student"; "undergraduate"; "graduate"; "learner"]);
    ("analyst", ["analyst"; "investment"; "financial"; "business analyst"]);
    ("manager", ["manager"; "director"; "executive"; "leader"]);
    ("developer", ["developer"; "engineer"; "programmer"; "technical"]);
    ("consultant", ["consultant"; "advisor"; "specialist"]) ].

(** [any(keyword in hay for keyword in keywords)] *)
Definition any_in (keywords : list string) (hay : string) : bool :=
  existsb (fun keyword => Py.contains keyword hay) keywords.

(** [sum(1 for keyword in keywords if keyword in hay)] *)
Definition count_in (keywords : list string) (hay : string) : nat :=
  List.length (filter (fun keyword => Py.contains keyword hay) keywords).

Definition identify_persona_type (persona : string) : string :=
  match find (fun entry => any_in (snd entry) persona) persona_mappings with
  | Some (persona_type, _) => persona_type
  | None => "general"
  end.

(** [d.get(key)] on a dict written as an association list. *)
Fixpoint lookup {V} (key : string) (d : list (string * V)) : option V :=
  match d with
  | [] => None
  | (k, v) :: d' => if String.eqb key k then Some v else lookup key d'
  end.

(** [re.findall(r'\b\w+\b', s)] *)
Definition findall_words (s : string) : list string :=
  Py.runs Py.isword EmptyString s.

(** ** The score as the program computes it

    [calculate_relevance_score] as the interpreter runs it: [score] is a
    double from its first value [0.0] on, each [score += ...] is one
    rounded addition made only when its guard holds, and the sets of
    words are those of the run.  An integer added to or compared with
    a double is converted first, so the result [min(score, 100)] is
    given as a double also when it is the integer 100. *)
Module Double.

Definition add_keyword_score (hash : string -> nat) (text_lower job_lower : string)
  (score : F64.t) : F64.t :=
  let job_words := Py.hashed_set hash (findall_words job_lower) in
  let text_words := Py.hashed_set hash (findall_words text_lower) in
  let common_words := Py.hashed_intersection hash job_words text_words in
  match job_words with
  | [] => score
  | _ =>
      let keyword_score :=
        F64.true_div (List.length common_words) (List.length job_words) in
      F64.add score (F64.mul keyword_score (F64.of_nat 40))
  end.

Definition add_persona_score (text_lower persona_lower : string) (score : F64.t)
  : F64.t :=
  let persona_type := identify_persona_type persona_lower in
  match lookup persona_type persona_keywords with
  | Some persona_words =>
      let persona_matches := count_in persona_words text_lower in
      match persona_words with
      | [] => score
      | _ =>
          let persona_score :=
            F64.true_div persona_matches (List.length persona_words) in
          F64.add score (F64.mul persona_score (F64.of_nat 30))
      end
  | None => score
  end.

(** [if any(keyword in job_lower for keyword in triggers):
       score += sum(1 for keyword in keywords if keyword in text_lower) * 5] *)
Definition add_context_score (triggers keywords : list string)
  (text_lower job_lower : string) (score : F64.t) : F64.t :=
  if any_in triggers job_lower
  then F64.add score (F64.of_nat (count_in keywords text_lower * 5))
  else score.

Definition add_length_bonus (text : string) (score : F64.t) : F64.t :=
  let word_count := List.length (Py.split text) in
  if 100 <? word_count
  then F64.add score (F64.min (F64.true_div word_count 100) (F64.of_nat 10))
  else score.

Definition calculate_relevance_score (hash : string -> nat)
  (text persona job_description : string) : F64.t :=
  let text_lower := Py.lower text in
  let persona_lower := Py.lower persona in
  let job_lower := Py.lower job_description in
  let score := F64.zero in
  let score := add_keyword_score hash text_lower job_lower score in
  let score := add_persona_score text_lower persona_lower score in
  let score :=
    add_context_score ["research"; "study"; "academic"; "paper"]
      academic_keywords text_lower job_lower score in
  let score :=
    add_context_score ["business"; "financial"; "market"; "revenue"]
      business_keywords text_lower job_lower score in
  let score := add_length_bonus text score in
  F64.min score (F64.of_nat 100).

End Double.

(** ** The score in exact arithmetic

    The formula of [calculate_relevance_score] evaluated over the
    rationals, without rounding.  The terms that the successive
    [score += ...] add are named one by one; a term whose guard fails
    is 0. *)

(** [a / b] on two lengths, [b] positive. *)
Definition ratio (a b : nat) : Q := Z.of_nat a # Pos.of_nat b.

Definition of_nat (n : nat) : Q := inject_Z (Z.of_nat n).

Definition keyword_part (text_lower job_lower : string) : Q :=
  let job_words := Py.set_of (findall_words job_lower) in
  let text_words := Py.set_of (findall_words text_lower) in
  let common_words := Py.intersection job_words text_words in
  match job_words with
  | [] => 0%Q
  | _ => (ratio (List.length common_words) (List.length job_words) * 40)%Q
  end.

Definition persona_part (text_lower persona_lower : string) : Q :=
  let persona_type := identify_persona_type persona_lower in
  match lookup persona_type persona_keywords with
  | Some persona_words =>
      let persona_matches := count_in persona_words text_lower in
      match persona_words with
      | [] => 0%Q
      | _ => (ratio persona_matches (List.length persona_words) * 30)%Q
      end
  | None => 0%Q
  end.

Definition academic_part (text_lower job_lower : string) : Q :=
  if any_in ["research"; "study"; "academic"; "paper"] job_lower
  then (of_nat (count_in academic_keywords text_lower) * 5)%Q
  else 0%Q.

Definition business_part (text_lower job_lower : string) : Q :=
  if any_in ["business"; "financial"; "market"; "revenue"] job_lower
  then (of_nat (count_in business_keywords text_lower) * 5)%Q
  else 0%Q.

Definition length_part (text : string) : Q :=
  let word_count := List.length (Py.split text) in
  if 100 <? word_count
  then Qmin (Z.of_nat word_count # 100)%Q 10%Q
  else 0%Q.

Definition calculate_relevance_score (text persona job_description : string) : Q :=
  let text_lower := Py.lower text in
  let persona_lower := Py.lower persona in
  let job_lower := Py.lower job_description in
  let score := 0%Q in
  let score := (score + keyword_part text_lower job_lower)%Q in
  let score := (score + persona_part text_lower persona_lower)%Q in
  let score := (score + academic_part text_lower job_lower)%Q in
  let score := (score + business_part text_lower job_lower)%Q in
  let score := (score + length_part text)%Q in
  Qmin score 100%Q.

(* ================================================================== *)
(** * Stable sort by descending key *)
(* ================================================================== *)

Section StableSort.

Variable A : Type.
Variable key : A -> F64.t.

(** [x] stood before every element of [l] in the list being sorted:
    it goes past the elements of greater key and in front of the first
    element whose key is not greater. *)
Fixpoint insert_desc (x : A) (l : list A) : list A :=
  match l with
  | [] => [x]
  | y :: l' =>
      if F64.ltb (key x) (key y) then y :: insert_desc x l' else x :: l
  end.

(** [l.sort(key=key, reverse=True)] *)
Fixpoint sort_desc (l : list A) : list A :=
  match l with
  | [] => []
  | x :: l' => insert_desc x (sort_desc l')
  end.

End StableSort.

(** [enumerate(l, start)] and [enumerate(l)] *)
Definition enumerate_from {A} (start : nat) (l : list A) : list (nat * A) :=
  combine (seq start (List.length l)) l.

Definition enumerate {A} (l : list A) : list (nat * A) := enumerate_from 0 l.

(* ================================================================== *)
(** * Section ranker *)
(* ================================================================== *)

(** [' '.join([item['text'] for item in section['content']])] *)
Definition section_text (section : Sec.t) : string :=
  Py.join " " (map TextBlock.text (Sec.content section)).

(** The score computed for a section. *)
Definition section_score (hash : string -> nat) (persona job_description : string)
  (section : Sec.t) : F64.t :=
  Double.calculate_relevance_score hash (section_text section)
    persona job_description.

Definition score_section (hash : string -> nat) (persona job_description : string)
  (section : Sec.t) : Sec.t :=
  Sec.set_relevance_score (section_score hash persona job_description section)
    section.

Definition assign_ranks (sections : list Sec.t) : list Sec.t :=
  map (fun '(i, section) => Sec.set_importance_rank (i + 1) section)
      (enumerate sections).

Definition rank_sections (hash : string -> nat) (sections : list Sec.t)
  (persona job_description : string) : list Sec.t :=
  let sections := map (score_section hash persona job_description) sections in
  let sections := sort_desc Sec.score sections in
  assign_ranks sections.

(** ** The ranker on a store of section objects

    [rank_sections] as the program runs it: the list holds references
    to the section dicts, the two loops write through the references
    and the sort reorders the references. *)
Module InPlace.

(** The section objects, addressed by position. *)
Definition store : Type := list Sec.t.

Definition blank : Sec.t := Sec.mk EmptyString 0 EmptyString [] 0 None.

Definition deref (h : store) (r : nat) : Sec.t := nth r h blank.

(** One write through the reference [r]. *)
Fixpoint update (r : nat) (f : Sec.t -> Sec.t) (h : store) : store :=
  match h, r with
  | [], _ => []
  | s :: h', 0 => f s :: h'
  | s :: h', S r' => s :: update r' f h'
  end.

(** A loop of writes, one per element of [writes], in order. *)
Definition apply_writes (writes : list (nat * (Sec.t -> Sec.t))) (h : store)
  : store :=
  fold_left (fun h w => update (fst w) (snd w) h) writes h.

Definition rank_sections (hash : string -> nat) (h : store) (sections : list nat)
  (persona job_description : string) : store * list nat :=
  let h :=
    apply_writes
      (map (fun r => (r, score_section hash persona job_description)) sections)
      h in
  let sections := sort_desc (fun r => Sec.score (deref h r)) sections in
  let h :=
    apply_writes
      (map (fun '(i, r) => (r, Sec.set_importance_rank (i + 1)))
           (enumerate sections)) h in
  (h, sections).

End InPlace.

(* ================================================================== *)
(** * Sub-passage extractor *)
(* ================================================================== *)

Definition is_sentence_end (c : ascii) : bool :=
  Ascii.eqb c "."%char || Ascii.eqb c "!"%char || Ascii.eqb c "?"%char.

(** [re.split(r'[.!?]+', text)]: [cur] is the piece being read and
    [in_delim] tells that the previous character was a delimiter. *)
Fixpoint split_sentences (cur : string) (in_delim : bool) (s : string)
  : list string :=
  match s with
  | EmptyString => [cur]
  | String c s' =>
      if is_sentence_end c then
        if in_delim then split_sentences EmptyString true s'
        else cur :: split_sentences EmptyString true s'
      else split_sentences (Py.snoc cur c) false s'
  end.

Definition subsection_size : nat := 4.

(** The text of one chunk:
    ['. '.join(s.strip() for s in subsection_sentences if s.strip())] *)
Definition subsection_text (subsection_sentences : list string) : string :=
  Py.join ". "
    (map Py.strip
       (filter (fun s => negb (Py.is_empty (Py.strip s))) subsection_sentences)).

(** The chunk texts of one block, in order. *)
Definition chunk_texts (text : string) : list string :=
  let sentences := split_sentences EmptyString false text in
  map (fun i => subsection_text (Py.slice i subsection_size sentences))
      (Py.range0 (List.length sentences) subsection_size).

Definition passage_of (hash : string -> nat) (persona job_description : string)
  (item : TextBlock.t) (subsection_text : string) : Passage.t :=
  Passage.mk (TextBlock.document item) (TextBlock.page item) subsection_text
    (Double.calculate_relevance_score hash subsection_text
       persona job_description).

(** The list [subsections] before it is sorted. *)
Definition collect_subsections (hash : string -> nat) (section : Sec.t)
  (persona job_description : string) : list Passage.t :=
  flat_map
    (fun item =>
       map (passage_of hash persona job_description item)
           (filter (fun t => 50 <? Py.len t) (chunk_texts (TextBlock.text item))))
    (Sec.content section).

Definition extract_subsections (hash : string -> nat) (section : Sec.t)
  (persona job_description : string) : list Passage.t :=
  firstn 10
    (sort_desc Passage.relevance_score
       (collect_subsections hash section persona job_description)).

(* ================================================================== *)
(** * Exceptions, JSON values and the outside world *)
(* ================================================================== *)

(** A raised exception: its class and [str(e)]. *)
Record exn : Type := Exn { exn_class : string; exn_str : string }.

(** The built-in classes that derive from [BaseException] and not from
    [Exception]. *)
Definition outside_Exception : list string :=
  ["BaseException"; "BaseExceptionGroup"; "GeneratorExit";
   "KeyboardInterrupt"; "SystemExit"; "CancelledError"].

(** [isinstance(e, Exception)] *)
Definition is_Exception (e : exn) : bool :=
  negb (Py.mem (exn_class e) outside_Exception).

Inductive result (A : Type) : Type :=
| Ok (a : A)
| Raise (e : exn).

Arguments Ok {A} a.
Arguments Raise {A} e.

Definition bind {A B} (m : result A) (k : A -> result B) : result B :=
  match m with
  | Ok a => k a
  | Raise e => Raise e
  end.

Notation "x <- m ;; k" := (bind m (fun x => k))
  (at level 61, m at next level, right associativity).

(** [try: body  except Exception as e: return handler(e)] around a body
    that returns its value. *)
Definition try_except_Exception {A} (body : result A) (handler : exn -> A)
  : result A :=
  match body with
  | Ok a => Ok a
  | Raise e => if is_Exception e then Ok (handler e) else Raise e
  end.

(** What [json.load] returns. *)
#[local] Set Warnings "-register-all".
Inductive json : Type :=
| JNull
| JBool (b : bool)
| JInt (z : Z)
| JFloat (literal : string)
| JString (s : string)
| JArray (items : list json)
| JObject (fields : list (string * json)).

Definition type_name (v : json) : string :=
  match v with
  | JNull => "NoneType"
  | JBool _ => "bool"
  | JInt _ => "int"
  | JFloat _ => "float"
  | JString _ => "str"
  | JArray _ => "list"
  | JObject _ => "dict"
  end.

Definition quoted (s : string) : string :=
  String.append "'" (String.append s "'").

(** [config[key]].  The wording of the messages is CPython's; no
    theorem depends on it. *)
Definition getitem (config : json) (key : string) : result json :=
  match config with
  | JObject fields =>
      match lookup key fields with
      | Some v => Ok v
      | None => Raise (Exn "KeyError" (quoted key))
      end
  | JArray _ =>
      Raise (Exn "TypeError" "list indices must be integers or slices, not str")
  | JString _ =>
      Raise (Exn "TypeError" "string indices must be integers, not 'str'")
  | v =>
      Raise (Exn "TypeError"
               (String.append (quoted (type_name v)) " object is not subscriptable"))
  end.

(** [for doc_name in documents]: the values the loop variable takes. *)
Definition iterate (documents : json) : result (list json) :=
  match documents with
  | JArray items => Ok items
  | JObject fields => Ok (map (fun kv => JString (fst kv)) fields)
  | JString s =>
      Ok (map (fun c => JString (String c EmptyString)) (list_ascii_of_string s))
  | v =>
      Raise (Exn "TypeError"
               (String.append (quoted (type_name v)) " object is not iterable"))
  end.

(** [v.lower()] can be called: [v] is a [str]. *)
Definition as_str (v : json) : result string :=
  match v with
  | JString s => Ok s
  | v =>
      Raise (Exn "AttributeError"
               (String.append (quoted (type_name v))
                  " object has no attribute 'lower'"))
  end.

(** Everything [process_document_collection] reads from outside, for one
    [input_file]. *)
Record World : Type := {
  (** [open(input_file)] followed by [json.load] *)
  load_config : result json;
  (** [(collection_path / 'PDFs' / doc_name).exists()]: [True], [False],
      or the [OSError] of a path the system refuses (a name too long, a
      directory that may not be searched) *)
  path_exists : string -> result bool;
  (** [Path(pdf_path).name] for the path of [doc_name] *)
  path_name : string -> string;
  (** [fitz.open] and [page.get_text()] of every page of [doc_name] *)
  page_texts : string -> result (list string);
  (** [datetime.now().isoformat()] *)
  now : string;
  (** [hash(s)] for the strings of this run *)
  hash_of : string -> nat
}.

(* ================================================================== *)
(** * Text block extraction *)
(* ================================================================== *)

(** [[p.strip() for p in text.split('\n\n') if p.strip()]] *)
Definition paragraphs_of (text : string) : list string :=
  map Py.strip
      (filter (fun p => negb (Py.is_empty (Py.strip p)))
              (Py.split_blank_lines EmptyString text)).

Definition section_id_of (page_num para_idx : nat) : string :=
  String.append "p"
    (String.append (Py.str_of_nat (page_num + 1))
       (String.append "_" (Py.str_of_nat para_idx))).

Definition blocks_of_page (name : string) (page_num : nat) (text : string)
  : list TextBlock.t :=
  flat_map
    (fun '(para_idx, paragraph) =>
       if 50 <? Py.len paragraph
       then [TextBlock.mk name (page_num + 1) (section_id_of page_num para_idx)
               paragraph (List.length (Py.split paragraph))]
       else [])
    (enumerate (paragraphs_of text)).

Definition extract_document_text (w : World) (doc_name : string)
  : result (list TextBlock.t) :=
  pages <- page_texts w doc_name ;;
  Ok (flat_map (fun '(page_num, text) =>
                  blocks_of_page (path_name w doc_name) page_num text)
               (enumerate pages)).

(* ================================================================== *)
(** * Collection orchestrator *)
(* ================================================================== *)

Module ExtractedSection.
Record t : Type := mk {
  document : string;
  page_number : nat;
  section_title : string;
  importance_rank : nat
}.
End ExtractedSection.

Module Metadata.
Record t : Type := mk {
  input_documents : json;
  persona : json;
  job_to_be_done : json;
  processing_timestamp : string;
  error : option string
}.
End Metadata.

Module Output.
Record t : Type := mk {
  metadata : Metadata.t;
  extracted_sections : list ExtractedSection.t;
  sub_section_analysis : list Passage.t
}.
End Output.

(** The loop over [documents] that fills [all_document_data]. *)
Fixpoint collect_documents (w : World) (doc_names : list json)
  (all_document_data : list TextBlock.t) : result (list TextBlock.t) :=
  match doc_names with
  | [] => Ok all_document_data
  | doc_name :: rest =>
      match doc_name with
      | JString name =>
          found <- path_exists w name ;;
          if found : bool then
            doc_data <- extract_document_text w name ;;
            collect_documents w rest (all_document_data ++ doc_data)
          else collect_documents w rest all_document_data
      | v =>
          Raise (Exn "TypeError"
                   (String.append
                      "unsupported operand type(s) for /: 'PosixPath' and "
                      (quoted (type_name v))))
      end
  end.

(** [rank_sections] called with the values read from the configuration:
    the first section scored calls [persona.lower()] and
    [job_description.lower()]. *)
Definition rank_sections_checked (hash : string -> nat)
  (all_sections : list Sec.t) (persona job_description : json)
  : result (list Sec.t * string * string) :=
  match all_sections with
  | [] => Ok ([], EmptyString, EmptyString)
  | _ =>
      p <- as_str persona ;;
      j <- as_str job_description ;;
      Ok (rank_sections hash all_sections p j, p, j)
  end.

Definition project_section (section : Sec.t) : ExtractedSection.t :=
  ExtractedSection.mk (Sec.document section) (Sec.page section)
    (Sec.section_title section) (Sec.importance_rank section).

(** The passages one top section adds to [sub_section_analysis]. *)
Definition top_subsections (hash : string -> nat)
  (persona job_description : string) (section : Sec.t) : list Passage.t :=
  if Sec.importance_rank section <=? 10
  then firstn 3 (extract_subsections hash section persona job_description)
  else [].

(** The body of the [try] block. *)
Definition process_body (w : World) : result Output.t :=
  config <- load_config w ;;
  persona <- getitem config "persona" ;;
  job_description <- getitem config "job_to_be_done" ;;
  documents <- getitem config "documents" ;;
  doc_names <- iterate documents ;;
  all_document_data <- collect_documents w doc_names [] ;;
  let all_sections := identify_sections all_document_data in
  ranked <- rank_sections_checked (hash_of w) all_sections
              persona job_description ;;
  let '(ranked_sections, p, j) := ranked in
  let top_sections := firstn 20 ranked_sections in
  let extracted_sections := map project_section top_sections in
  let sub_section_analysis :=
    flat_map (top_subsections (hash_of w) p j) top_sections in
  Ok (Output.mk
        (Metadata.mk documents persona job_description (now w) None)
        extracted_sections sub_section_analysis).

(** The metadata and the record built by the [except] clause. *)
Definition error_metadata (w : World) (e : exn) : Metadata.t :=
  Metadata.mk (JArray []) (JString EmptyString) (JString EmptyString)
    (now w) (Some (exn_str e)).

Definition error_output (w : World) (e : exn) : Output.t :=
  Output.mk (error_metadata w e) [] [].

(** The record that the call returns: the output of the body, or the
    record of the [except] clause for the exception the body raised. *)
Definition process_document_collection (w : World) : Output.t :=
  match process_body w with
  | Ok output => output
  | Raise e => error_output w e
  end.

(** The call with its [try] statement: the record above, unless the
    body raises an exception that the clause [except Exception] does
    not catch. *)
Definition process_document_collection_call (w : World) : result Output.t :=
  try_except_Exception (process_body w) (error_output w).

(* ================================================================== *)
(** * Positions in a list of lists, and sample inputs *)
(* ================================================================== *)

(** The number of elements held by the first [k] lists of [parts]. *)
Definition offset {A} (parts : list (list A)) (k : nat) : nat :=
  List.length (List.concat (firstn k parts)).

(** The element at place [j] of the list number [k] of [parts]. *)
Definition slot {A} (parts : list (list A)) (k j : nat) : option A :=
  match nth_error parts k with
  | Some part => nth_error part j
  | None => None
  end.

(** The blocks gathered so far, open section included. *)
Definition seg_blocks (st : seg_state) : list TextBlock.t :=
  List.concat (map Sec.content (seg_finish st)).

Definition nonempty_section (s : Sec.t) : Prop := Sec.content s <> [].

(** The keys of the list are numbers that are not negative. *)
Definition good_keys {A} (key : A -> F64.t) (l : list A) : Prop :=
  Forall (fun x => F64.good (key x)) l.

(** Order of a list sorted by descending key. *)
Definition by_desc {A} (key : A -> F64.t) (a b : A) : Prop :=
  F64.leb (key b) (key a) = true.

(** The sort key of an element tagged with its input position. *)
Definition tagged_key {A} (key : A -> F64.t) (t : nat * A) : F64.t :=
  key (snd t).

(** Order of a list of (input position, element) pairs sorted by
    descending key, earlier position first among equal keys. *)
Definition ranked_before {A} (key : A -> F64.t) (a b : nat * A) : Prop :=
  F64.ltb (key (snd b)) (key (snd a)) = true \/
  (F64.eqb (key (snd a)) (key (snd b)) = true /\ fst a < fst b).

(** All the chunk texts of a section, block after block. *)
Definition section_chunk_texts (section : Sec.t) : list string :=
  flat_map (fun item => chunk_texts (TextBlock.text item)) (Sec.content section).

(** A block of 51 characters: one sentence of fifty letters and its
    full stop. *)
Definition fifty_letters : string := string_of_list_ascii (repeat "a"%char 50).

Definition fifty_block : TextBlock.t :=
  TextBlock.mk "a.pdf" 1 "p1_0" (String.append fifty_letters ".") 1.

Definition fifty_section : Sec.t :=
  new_section (orphan_title fifty_block) fifty_block.

(** The output with its processing timestamp blanked. *)
Definition erase_timestamp (output : Output.t) : Output.t :=
  let md := Output.metadata output in
  Output.mk
    (Metadata.mk (Metadata.input_documents md) (Metadata.persona md)
       (Metadata.job_to_be_done md) EmptyString (Metadata.error md))
    (Output.extracted_sections output) (Output.sub_section_analysis output).

(** Two worlds that differ at most in what the clock shows and in the
    hashes of the strings. *)
Definition same_input (w1 w2 : World) : Prop :=
  load_config w1 = load_config w2 /\
  (forall doc_name, path_exists w1 doc_name = path_exists w2 doc_name) /\
  (forall doc_name, path_name w1 doc_name = path_name w2 doc_name) /\
  (forall doc_name, page_texts w1 doc_name = page_texts w2 doc_name).

Definition blank_line : string :=
  String (ascii_of_nat 10) (String (ascii_of_nat 10) EmptyString).

(** One page: a header paragraph and two paragraphs of prose. *)
Definition sample_page : string :=
  String.append
    "Introduction to the methodology of the study and its main results"
    (String.append blank_line
       (String.append
          "The methodology section describes our experimental results and findings. The data were collected over two years! Was the hypothesis confirmed? The analysis says so. A fifth sentence follows here to open a second chunk of the paragraph."
          (String.append blank_line
             "This paragraph is deliberately about gardening and cooking, which are unrelated topics of similar length."))).

Definition sample_config : json :=
  JObject [("persona", JString "PhD Researcher in Computational Biology");
           ("job_to_be_done", JString "Prepare a literature review on methodology");
           ("documents", JArray [JString "a.pdf"; JString "missing.pdf"])].

Definition sample_world (clock : string) : World :=
  {| load_config := Ok sample_config;
     path_exists := fun doc_name => Ok (String.eqb doc_name "a.pdf");
     path_name := fun doc_name => doc_name;
     page_texts := fun _ => Ok [sample_page; sample_page];
     now := clock;
     hash_of := fun _ => 0 |}.

(** The world [w] in a run with another hash function. *)
Definition rehashed (hash : string -> nat) (w : World) : World :=
  {| load_config := load_config w;
     path_exists := path_exists w;
     path_name := path_name w;
     page_texts := page_texts w;
     now := now w;
     hash_of := hash |}.

(** The same configuration when no document is on disk. *)
Definition empty_world : World :=
  {| load_config := Ok sample_config;
     path_exists := fun _ => Ok false;
     path_name := fun doc_name => doc_name;
     page_texts := fun _ => Raise (Exn "FileNotFoundError" "no such file");
     now := "2024-01-01T00:00:00";
     hash_of := fun _ => 0 |}.

(** A configuration that lists documents and lacks ['job_to_be_done']. *)
Definition missing_key_world : World :=
  {| load_config :=
       Ok (JObject [("persona", JString "Student");
                    ("documents", JArray [JString "a.pdf"])]);
     path_exists := fun _ => Ok true;
     path_name := fun doc_name => doc_name;
     page_texts := fun _ => Ok [sample_page];
     now := "2024-01-01T00:00:00";
     hash_of := fun _ => 0 |}.

(** A configuration file that cannot be parsed. *)
Definition unreadable_world : World :=
  {| load_config :=
       Raise (Exn "JSONDecodeError" "Expecting value: line 1 column 1 (char 0)");
     path_exists := fun _ => Ok true;
     path_name := fun doc_name => doc_name;
     page_texts := fun _ => Ok [sample_page];
     now := "2024-01-01T00:00:00";
     hash_of := fun _ => 0 |}.

(** Two sections whose scores are both 50/3 in exact arithmetic: five
    of the twelve words of the job for the one, two of them and three
    of the nine keywords of a consultant for the other. *)
Definition tie_job : string :=
  "alpha beta gamma delta epsilon zeta eta theta iota kappa lambda omicron".

Definition tie_words : TextBlock.t :=
  TextBlock.mk "a.pdf" 1 "p1_0"
    "Alpha beta gamma delta epsilon are the first five letters we use." 12.

Definition tie_keywords : TextBlock.t :=
  TextBlock.mk "a.pdf" 2 "p2_0"
    "Alpha beta: our recommendation, our solution and our assessment." 9.






(** A header followed by two hundred blanks. *)
Definition padded_header : string :=
  String.append "Abstract" (string_of_list_ascii (repeat " "%char 200)).

(* ================================================================== *)
(** * Notions used to state further properties *)
(* ================================================================== *)

(** A text that does not begin with a blank. *)
Definition starts_clean (s : string) : Prop :=
  match s with
  | EmptyString => True
  | String c _ => Py.isspace c = false
  end.

(** The block opens a section of its own. *)
Definition is_header_block (item : TextBlock.t) : bool :=
  is_section_header (TextBlock.text item).

(** What [identify_sections] leaves in a section built around its
    first block: the fields copied from the block, the rank and score
    not yet set, the title derived from the block, and no header among
    the blocks that follow. *)
Definition section_shape (s : Sec.t) : Prop :=
  exists first rest,
    Sec.content s = first :: rest /\
    Sec.document s = TextBlock.document first /\
    Sec.page s = TextBlock.page first /\
    Sec.importance_rank s = 0 /\
    Sec.relevance_score s = None /\
    Forall (fun item => is_header_block item = false) rest /\
    Sec.section_title s
    = (if is_header_block first
       then header_title (TextBlock.text first)
       else orphan_title first).

(** The section begins with a header block. *)
Definition header_start (s : Sec.t) : Prop :=
  exists first rest,
    Sec.content s = first :: rest /\ is_header_block first = true.

(** The state of the segmenter loop: every section it holds, open one
    included, has the shape given by its first block; every section but
    the first begins with a header; and sections are emitted only once
    one is open. *)
Definition seg_invariant_holds (st : seg_state) : Prop :=
  Forall section_shape (seg_finish st) /\
  Forall header_start (tl (seg_finish st)) /\
  (snd st = None -> fst st = []).

(** [section] after the blocks [items] were appended to its content. *)
Definition absorb (items : list TextBlock.t) (section : Sec.t) : Sec.t :=
  fold_left (fun s item => append_content item s) items section.

(** A world whose only document has the given pages. *)
Definition pages_world (pages : list string) : World :=
  {| load_config := Ok sample_config;
     path_exists := fun doc_name => Ok (String.eqb doc_name "a.pdf");
     path_name := fun doc_name => doc_name;
     page_texts := fun _ => Ok pages;
     now := "2024-01-01T00:00:00";
     hash_of := fun _ => 0 |}.

(** A header block and a block of prose. *)
Definition header_block : TextBlock.t :=
  TextBlock.mk "a.pdf" 1 "p1_0"
    "Introduction to the methodology of the study and its main results" 11.

Definition prose_block : TextBlock.t :=
  TextBlock.mk "b.pdf" 1 "p1_0"
    "This paragraph is deliberately about gardening and cooking, which are unrelated topics of similar length."
    16.

(** A character test that does not tell the two cases of a letter
    apart, and a pattern made of such tests. *)
Definition sym_blind (p : ascii -> bool) : Prop :=
  forall c, p (Py.lower_char c) = p c.

Fixpoint case_blind (r : Re.regex) : Prop :=
  match r with
  | Re.Eps | Re.Eos => True
  | Re.Sym p => sym_blind p
  | Re.Cat r1 r2 | Re.Alt r1 r2 => case_blind r1 /\ case_blind r2
  | Re.Star r' | Re.Rep _ _ r' => case_blind r'
  end.

(** A text made of blanks only. *)
Fixpoint blank (s : string) : bool :=
  match s with
  | EmptyString => true
  | String c s' => Py.isspace c && blank s'
  end.

(** The second of the [header_patterns]: [^[A-Z\s]{5,50}$]. *)
Definition all_caps_pattern : Re.regex :=
  Re.Cat (Re.Rep 5 50 (Re.Sym AZ_or_space)) Re.Eos.

(** The values [identify_persona_type] can return. *)
Definition persona_types : list string :=
  ["researcher"; "student"; "analyst"; "manager"; "developer"; "consultant";
   "general"].

(** What the ranker leaves untouched in a section. *)
Definition section_body (s : Sec.t)
  : string * nat * string * list TextBlock.t :=
  (Sec.document s, Sec.page s, Sec.section_title s, Sec.content s).

(** Two section objects and a list that refers to each once. *)
Definition sample_store : InPlace.store :=
  [new_section (orphan_title prose_block) prose_block;
   new_section (header_title (TextBlock.text header_block)) header_block].

(** No character of the text satisfies [p]. *)
Fixpoint free_of (p : ascii -> bool) (s : string) : bool :=
  match s with
  | EmptyString => true
  | String c s' => negb (p c) && free_of p s'
  end.

(** An exclamation or a question mark. *)
Definition is_mark (c : ascii) : bool :=
  Ascii.eqb c "!"%char || Ascii.eqb c "?"%char.

(** The groups of sentences [extract_subsections] joins into chunks. *)
Definition sentence_groups (sentences : list string) : list (list string) :=
  map (fun i => Py.slice i subsection_size sentences)
      (Py.range0 (List.length sentences) subsection_size).

(** The test [exists()] answers yes for the document. *)
Definition is_found (w : World) (doc_name : string) : bool :=
  match path_exists w doc_name with
  | Ok found => found
  | Raise _ => false
  end.

(** The blocks of a document, none when it cannot be read. *)
Definition blocks_or_nil (w : World) (doc_name : string) : list TextBlock.t :=
  match extract_document_text w doc_name with
  | Ok blocks => blocks
  | Raise _ => []
  end.


(** A configuration whose persona is a number. *)
Definition number_persona_world : World :=
  {| load_config :=
       Ok (JObject [("persona", JInt 7);
                    ("job_to_be_done", JString "Learn the basics");
                    ("documents", JArray [JString "a.pdf"])]);
     path_exists := fun _ => Ok true;
     path_name := fun doc_name => doc_name;
     page_texts := fun _ => Ok [sample_page];
     now := "2024-01-01T00:00:00";
     hash_of := fun _ => 0 |}.

(** [doc_name] is one of the names the loop over the documents of the
    configuration goes through. *)
Definition listed (w : World) (doc_name : string) : Prop :=
  exists config documents doc_names,
    load_config w = Ok config /\
    getitem config "documents" = Ok documents /\
    iterate documents = Ok doc_names /\
    In (JString doc_name) doc_names.

(** The document and page recorded come from a listed document that
    exists. *)
Definition from_listed_document (w : World) (document : string) (page : nat)
  : Prop :=
  exists doc_name,
    listed w doc_name /\ path_exists w doc_name = Ok true /\
    document = path_name w doc_name /\ 1 <= page.

(* ================================================================== *)
(** * The driver [process_collections] *)
(* ================================================================== *)

(** One [challenge1b_input.json] found under the input directory: the
    name of the directory that holds it ([input_file.parent.name]) and
    what processing it reads. *)
Record Collection : Type := {
  parent_name : string;
  world : World
}.

(** How [open(output_path, 'w')] followed by [json.dump] ends. *)
Inductive write_end : Type :=
| Written
    (** the record is dumped and the file closed *)
| NotOpened (e : exn)
    (** [open] raises: the file is as it was *)
| Torn (e : exn).
    (** [json.dump] raises once [open] has emptied the file: the
        beginning of the text is left *)

(** The file system as the driver meets it. *)
Record Disk : Type := {
  (** [output_dir.mkdir(parents=True, exist_ok=True)] *)
  mkdir_output : result unit;
  (** [list(input_dir.glob("**/challenge1b_input.json"))] *)
  glob_inputs : result (list Collection);
  (** the end of the write of a record in the file of this name *)
  write_end_of : string -> Output.t -> write_end
}.

(** [f"{collection_name}_output.json"] *)
Definition output_filename (collection_name : string) : string :=
  String.append collection_name "_output.json".

(** What a file of the output directory holds: the dump of a record, or
    the beginning of one. *)
Inductive content : Type :=
| Whole (record : Output.t)
| Beginning (record : Output.t).

(** The files of the output directory, the latest write first, and the
    directory itself, which may not exist yet. *)
Definition files : Type := list (string * content).

Definition directory : Type := option files.

Definition write_file (name : string) (c : content) (fs : files) : files :=
  (name, c) :: fs.

(** The files of the directory once [mkdir] has succeeded. *)
Definition made (dir : directory) : files :=
  match dir with
  | Some fs => fs
  | None => []
  end.

(** An exception met under [try: ... except Exception]: the clause logs
    it, unless its class is outside [Exception] and it passes. *)
Definition passing (e : exn) : option exn :=
  if is_Exception e then None else Some e.

(** The body of the loop, with its [try] and [except]: the files after
    it, and the exception that passes, if any. *)
Definition process_one (d : Disk) (fs : files) (input_file : Collection)
  : files * option exn :=
  match process_document_collection_call (world input_file) with
  | Raise e => (fs, passing e)
  | Ok result =>
      let collection_name := parent_name input_file in
      let output_filename := output_filename collection_name in
      match write_end_of d output_filename result with
      | Written => (write_file output_filename (Whole result) fs, None)
      | NotOpened e => (fs, passing e)
      | Torn e => (write_file output_filename (Beginning result) fs, passing e)
      end
  end.

(** The loop over [input_files]: an exception that passes ends it. *)
Fixpoint process_all (d : Disk) (fs : files) (input_files : list Collection)
  : files * option exn :=
  match input_files with
  | [] => (fs, None)
  | input_file :: rest =>
      match process_one d fs input_file with
      | (fs', None) => process_all d fs' rest
      | (fs', Some e) => (fs', Some e)
      end
  end.

(** The driver: the output directory as it leaves it, and the exception
    that passes, if any.  The directory is made first; the search for
    the input files comes next, outside any [try]. *)
Definition process_collections (d : Disk) (dir : directory)
  : directory * option exn :=
  match mkdir_output d with
  | Raise e => (dir, Some e)
  | Ok _ =>
      let fs := made dir in
      match glob_inputs d with
      | Raise e => (Some fs, Some e)
      | Ok input_files =>
          let '(fs', e) := process_all d fs input_files in
          (Some fs', e)
      end
  end.

(** Two collections in directories of the same name. *)
Definition twin_disk : Disk :=
  {| mkdir_output := Ok tt;
     glob_inputs :=
       Ok [ {| parent_name := "Collection 1"; world := empty_world |};
            {| parent_name := "Collection 1"; world := missing_key_world |} ];
     write_end_of := fun _ _ => Written |}.

(** Case analysis on the outcome of one step of a [bind] chain. *)
Ltac step_ok H :=
  match type of H with
  | bind ?m _ = Ok _ =>
      let a := fresh "a" in
      let E := fresh "E" in
      destruct m as [a|?] eqn:E; simpl in H; [|discriminate H]
  end.

(* ================================================================== *)
(** * Sample runs of the embedding *)
(* ================================================================== *)

Example header_keyword : is_section_header "Abstract" = true.
Proof. vm_compute. reflexivity. Qed.

Example header_numbered : is_section_header "1. Introduction to things" = true.
Proof. vm_compute. reflexivity. Qed.

Example header_lower_case_words : is_section_header "the quick brown fox" = true.
Proof. vm_compute. reflexivity. Qed.

Example header_needs_pattern : is_section_header "the quick brown fox, jumped" = false.
Proof. vm_compute. reflexivity. Qed.

Example see_fig_is_no_header : is_section_header "See Fig. 2" = false.
Proof. vm_compute. reflexivity. Qed.

Example header_length_edges : is_section_header "  Part 1  " = true /\
                                 is_section_header "Intro" = false.
Proof. vm_compute. split; reflexivity. Qed.

Example findall_words_run :
  findall_words "a_b c-d  e1." = ["a_b"; "c"; "d"; "e1"].
Proof. reflexivity. Qed.

Example split_sentences_run :
  split_sentences "" false "Hi there! How are you?? fine... ok"
  = ["Hi there"; " How are you"; " fine"; " ok"] /\
  split_sentences "" false "a.b." = ["a"; "b"; ""] /\
  split_sentences "" false "..a" = [""; "a"].
Proof. repeat split. Qed.

Example chunk_texts_run :
  chunk_texts "Hi there! How are you?? fine... ok. and more. x . . y"
  = ["Hi there. How are you. fine. ok"; "and more. x. y"].
Proof. reflexivity. Qed.

(** The scenario of the design: job overlap 1/6 of 40 and persona
    coverage 4/10 of 30 against nothing for an unrelated text. *)
Example methodology_scores_higher :
  (calculate_relevance_score
     "The weather was mild and the garden was full of flowers and of bees"
     "PhD Researcher in Computational Biology"
     "Prepare a literature review on methodology"
   < calculate_relevance_score
       "The methodology section describes our experimental results and findings"
       "PhD Researcher in Computational Biology"
       "Prepare a literature review on methodology")%Q.
Proof. vm_compute. reflexivity. Qed.

Example empty_strings_score : (calculate_relevance_score "" "" "" == 0)%Q.
Proof. vm_compute. reflexivity. Qed.

(** One third, as a double. *)
Example one_third :
  F64.true_div 1 3 = S754_finite false 6004799503160661 (-54).
Proof. vm_compute. reflexivity. Qed.

(** The same score under two hash functions that list a set of words
    in different orders. *)
Example hashed_set_order :
  Py.hashed_set (fun _ => 0) ["review"; "a"; "on"] = ["review"; "a"; "on"] /\
  Py.hashed_set Py.len ["review"; "a"; "on"] = ["a"; "on"; "review"] /\
  Double.calculate_relevance_score (fun _ => 0)
    "A review on methods" "Student" "review a paper on methods"
  = Double.calculate_relevance_score Py.len
      "A review on methods" "Student" "review a paper on methods".
Proof. vm_compute. repeat split. Qed.

(** Two sections that tie at 50/3 in exact arithmetic and not as
    doubles (16.666666666666668 against 16.666666666666664): the
    ranker, which compares the doubles, puts first the one that came
    second. *)
Example tie_broken_by_rounding :
  let a := new_section (orphan_title tie_words) tie_words in
  let b := new_section (orphan_title tie_keywords) tie_keywords in
  (calculate_relevance_score (section_text a) "Consultant" tie_job
   == calculate_relevance_score (section_text b) "Consultant" tie_job)%Q /\
  section_score (fun _ => 0) "Consultant" tie_job a
  = S754_finite false 4691249611844267 (-48) /\
  section_score (fun _ => 0) "Consultant" tie_job b
  = S754_finite false 4691249611844266 (-48) /\
  map Sec.page (rank_sections (fun _ => 0) [b; a] "Consultant" tie_job) = [1; 2].
Proof. vm_compute. repeat split. Qed.

Example sample_world_ranks :
  map ExtractedSection.importance_rank
      (Output.extracted_sections (process_document_collection (sample_world "t")))
  = [1; 2] /\
  map Passage.page_number
      (Output.sub_section_analysis (process_document_collection (sample_world "t")))
  = [1; 1; 1; 2; 2; 2].
Proof. vm_compute. split; reflexivity. Qed.

(* ================================================================== *)
(** * Properties of the floating-point operations *)
(* ================================================================== *)

(** ** Rounding keeps a non-negative number non-negative *)

Lemma shr_1_nonneg (mrs : shr_record) :
  (0 <= shr_m mrs)%Z -> (0 <= shr_m (shr_1 mrs))%Z.
Proof.
  destruct mrs as [m r s]. simpl. destruct m as [|p|p]; simpl; try lia.
  destruct p; simpl; lia.
Qed.

Lemma iter_pos_invariant {A} (P : A -> Prop) (f : A -> A) :
  (forall x, P x -> P (f x)) -> forall n x, P x -> P (iter_pos f n x).
Proof.
  intros Hf. induction n as [n IH|n IH|]; intros x Hx; simpl; auto.
Qed.

Lemma shr_nonneg (mrs : shr_record) (e n : Z) :
  (0 <= shr_m mrs)%Z -> (0 <= shr_m (fst (shr mrs e n)))%Z.
Proof.
  intros H. unfold shr. destruct n; simpl; try exact H.
  apply (iter_pos_invariant (fun x => (0 <= shr_m x)%Z));
    [apply shr_1_nonneg | exact H].
Qed.

Lemma shr_record_of_loc_m (m : Z) (l : location) :
  shr_m (shr_record_of_loc m l) = m.
Proof. destruct l as [|[]]; reflexivity. Qed.

Lemma shr_fexp_nonneg (m e : Z) (l : location) :
  (0 <= m)%Z -> (0 <= shr_m (fst (shr_fexp F64.prec F64.emax m e l)))%Z.
Proof.
  intros H. unfold shr_fexp. apply shr_nonneg. now rewrite shr_record_of_loc_m.
Qed.

Lemma round_nearest_even_nonneg (m : Z) (l : location) :
  (0 <= m)%Z -> (0 <= round_nearest_even m l)%Z.
Proof.
  intros H. unfold round_nearest_even. destruct l as [|[]]; try lia.
  destruct (Z.even m); lia.
Qed.

Lemma binary_round_aux_good (m e : Z) (l : location) :
  (0 <= m)%Z -> F64.good (binary_round_aux F64.prec F64.emax false m e l).
Proof.
  intros H. unfold binary_round_aux.
  pose proof (@shr_fexp_nonneg m e l H) as H1.
  destruct (shr_fexp F64.prec F64.emax m e l) as [mrs' e'] eqn:E1.
  simpl in H1.
  pose proof (@shr_fexp_nonneg _ e' loc_Exact
                (@round_nearest_even_nonneg _ (loc_of_shr_record mrs') H1)) as H2.
  destruct (shr_fexp F64.prec F64.emax
              (round_nearest_even (shr_m mrs') (loc_of_shr_record mrs'))
              e' loc_Exact) as [mrs'' e''] eqn:E2.
  simpl in H2.
  destruct (shr_m mrs'') as [|p|p]; try lia; [reflexivity|].
  cbv beta iota. destruct (Z.leb e'' (F64.emax - F64.prec)); reflexivity.
Qed.

Lemma binary_round_good (m : positive) (e : Z) :
  F64.good (binary_round F64.prec F64.emax false m e).
Proof.
  unfold binary_round. destruct (shl_align m e _) as [mz ez].
  apply binary_round_aux_good. lia.
Qed.

Lemma binary_normalize_good (z e : Z) :
  (0 <= z)%Z -> F64.good (binary_normalize F64.prec F64.emax z e false).
Proof.
  intros H. destruct z as [|p|p]; simpl;
    [reflexivity | apply binary_round_good | lia].
Qed.

Lemma of_nat_good (n : nat) : F64.good (F64.of_nat n).
Proof. apply binary_normalize_good. lia. Qed.

Lemma add_good (x y : F64.t) :
  F64.good x -> F64.good y -> F64.good (F64.add x y).
Proof.
  unfold F64.add.
  destruct x as [sx|sx| |sx mx ex], y as [sy|sy| |sy my ey]; simpl;
    try contradiction; intros -> ->; simpl; try reflexivity.
  apply binary_round_good.
Qed.

Lemma mul_good (x c : F64.t) :
  F64.good x -> F64.finite_positive c -> F64.good (F64.mul x c).
Proof.
  unfold F64.mul.
  destruct x as [sx|sx| |sx mx ex], c as [sy|sy| |[] my ey]; simpl;
    try contradiction; intros -> _; simpl; try reflexivity.
  apply binary_round_aux_good. lia.
Qed.

Lemma true_div_good (a b : nat) : 0 < b -> F64.good (F64.true_div a b).
Proof.
  intros Hb. unfold F64.true_div. destruct a as [|a]; [reflexivity|].
  destruct b as [|b]; [lia|]. simpl.
  unfold SFdiv_core_binary.
  match goal with |- context [Z.div_eucl ?m' ?m2] =>
    assert (Hm : (0 <= m')%Z);
    [| assert (Hq : (0 <= m' / m2)%Z) by (apply Z.div_pos; lia);
       unfold Z.div in Hq; destruct (Z.div_eucl m' m2) as [q r] ]
  end.
  - match goal with |- (0 <= match ?s with _ => _ end)%Z => destruct s end;
      try lia. apply Z.shiftl_nonneg. lia.
  - apply binary_round_aux_good. simpl in Hq. exact Hq.
Qed.

Lemma min_good (a b : F64.t) :
  F64.good a -> F64.good b -> F64.good (F64.min a b).
Proof. unfold F64.min. now destruct (F64.ltb b a). Qed.

(** ** The order of the non-negative numbers *)

Lemma fin_compare_lt (e1 e2 : Z) (m1 m2 : positive) :
  match (e1 ?= e2)%Z with
  | Lt => Lt
  | Gt => Gt
  | Eq => Pos.compare_cont Eq m1 m2
  end = Lt
  <-> (e1 < e2 \/ (e1 = e2 /\ (m1 < m2)%positive))%Z.
Proof.
  change (Pos.compare_cont Eq m1 m2) with (m1 ?= m2)%positive.
  rewrite <- Pos.compare_lt_iff.
  destruct (Z.compare_spec e1 e2) as [E|E|E].
  - split; [intros K; right; now split | intros [K|[_ K]]; [lia | exact K]].
  - split; [intros _; now left | reflexivity].
  - split; [discriminate | lia].
Qed.

Lemma fin_compare_eq (e1 e2 : Z) (m1 m2 : positive) :
  match (e1 ?= e2)%Z with
  | Lt => Lt
  | Gt => Gt
  | Eq => Pos.compare_cont Eq m1 m2
  end = Eq
  <-> e1 = e2 /\ m1 = m2.
Proof.
  change (Pos.compare_cont Eq m1 m2) with (m1 ?= m2)%positive.
  rewrite <- Pos.compare_eq_iff.
  destruct (Z.compare_spec e1 e2) as [E|E|E].
  - split; [intros K; now split | now intros [_ K]].
  - split; [discriminate | lia].
  - split; [discriminate | lia].
Qed.

Lemma ltb_fin (m1 : positive) (e1 : Z) (m2 : positive) (e2 : Z) :
  F64.ltb (S754_finite false m1 e1) (S754_finite false m2 e2) = true
  <-> (e1 < e2 \/ (e1 = e2 /\ (m1 < m2)%positive))%Z.
Proof.
  unfold F64.ltb, SFltb. simpl. rewrite <- fin_compare_lt.
  destruct (match (e1 ?= e2)%Z with
            | Lt => Lt | Gt => Gt | Eq => Pos.compare_cont Eq m1 m2 end);
    split; congruence.
Qed.

Lemma eqb_fin (m1 : positive) (e1 : Z) (m2 : positive) (e2 : Z) :
  F64.eqb (S754_finite false m1 e1) (S754_finite false m2 e2) = true
  <-> e1 = e2 /\ m1 = m2.
Proof.
  unfold F64.eqb, SFeqb. simpl. rewrite <- fin_compare_eq.
  destruct (match (e1 ?= e2)%Z with
            | Lt => Lt | Gt => Gt | Eq => Pos.compare_cont Eq m1 m2 end);
    split; congruence.
Qed.

Lemma leb_fin (m1 : positive) (e1 : Z) (m2 : positive) (e2 : Z) :
  F64.leb (S754_finite false m1 e1) (S754_finite false m2 e2) = true
  <-> (e1 < e2 \/ (e1 = e2 /\ (m1 <= m2)%positive))%Z.
Proof.
  pose proof (fin_compare_lt e1 e2 m1 m2) as L.
  pose proof (fin_compare_eq e1 e2 m1 m2) as E.
  unfold F64.leb, SFleb. simpl.
  destruct (match (e1 ?= e2)%Z with
            | Lt => Lt | Gt => Gt | Eq => Pos.compare_cont Eq m1 m2 end).
  - split; [intros _|reflexivity]. destruct E as [E _].
    destruct (E eq_refl) as [-> ->]. right. split; [reflexivity | lia].
  - split; [intros _|reflexivity]. destruct L as [L _].
    destruct (L eq_refl) as [K|[K1 K2]]; [now left | right; split; [exact K1 | lia]].
  - split; [discriminate|]. intros K. exfalso.
    assert (N1 : ~ (e1 < e2 \/ e1 = e2 /\ (m1 < m2)%positive)%Z)
      by (intros C; apply L in C; discriminate).
    assert (N2 : ~ (e1 = e2 /\ m1 = m2))
      by (intros C; apply E in C; discriminate).
    destruct K as [K|[K1 K2]]; [tauto|].
    destruct (Pos.lt_total m1 m2) as [T|[T|T]]; [tauto | tauto | lia].
Qed.

Lemma ltb_irrefl (x : F64.t) : F64.good x -> F64.ltb x x = false.
Proof.
  destruct x as [s|s| |s m e]; simpl; try contradiction; intros ->;
    try reflexivity.
  destruct (F64.ltb _ _) eqn:E; [|reflexivity].
  apply ltb_fin in E. lia.
Qed.

Lemma ltb_asym (x y : F64.t) :
  F64.good x -> F64.good y -> F64.ltb x y = true -> F64.ltb y x = false.
Proof.
  intros Hx Hy H. destruct (F64.ltb y x) eqn:E; [|reflexivity]. exfalso.
  revert Hx Hy H E.
  destruct x as [s|s| |s m e], y as [s'|s'| |s' m' e']; simpl;
    try contradiction; intros -> ->; try discriminate.
  rewrite !ltb_fin. lia.
Qed.

Lemma ltb_negtrans (x y z : F64.t) :
  F64.good x -> F64.good y -> F64.good z ->
  F64.ltb x y = false -> F64.ltb y z = false -> F64.ltb x z = false.
Proof.
  intros Hx Hy Hz H1 H2. destruct (F64.ltb x z) eqn:E; [|reflexivity]. exfalso.
  revert Hx Hy Hz H1 H2 E.
  destruct x as [s|s| |s m e], y as [s'|s'| |s' m' e'], z as [s''|s''| |s'' m'' e''];
    simpl; try contradiction; intros -> -> ->; try discriminate.
  intros H1 H2. rewrite ltb_fin.
  assert (N1 : ~ (e < e' \/ e = e' /\ (m < m')%positive)%Z)
    by (rewrite <- ltb_fin; congruence).
  assert (N2 : ~ (e' < e'' \/ e' = e'' /\ (m' < m'')%positive)%Z)
    by (rewrite <- ltb_fin; congruence).
  lia.
Qed.

Lemma ltb_trans (x y z : F64.t) :
  F64.good x -> F64.good y -> F64.good z ->
  F64.ltb x y = true -> F64.ltb y z = true -> F64.ltb x z = true.
Proof.
  destruct x as [s|s| |s m e], y as [s'|s'| |s' m' e'], z as [s''|s''| |s'' m'' e''];
    simpl; try contradiction; intros -> -> ->; try discriminate;
    try reflexivity.
  rewrite !ltb_fin. lia.
Qed.

(** [x <= y] is [not (y < x)]. *)
Lemma leb_ltb (x y : F64.t) :
  F64.good x -> F64.good y -> F64.leb x y = negb (F64.ltb y x).
Proof.
  destruct x as [s|s| |s m e], y as [s'|s'| |s' m' e']; simpl;
    try contradiction; intros -> ->; try reflexivity.
  destruct (F64.leb _ _) eqn:L, (F64.ltb _ _) eqn:T; try reflexivity; exfalso.
  - apply leb_fin in L. apply ltb_fin in T. lia.
  - assert (N1 : ~ (e < e' \/ e = e' /\ (m <= m')%positive)%Z)
      by (rewrite <- leb_fin; congruence).
    assert (N2 : ~ (e' < e \/ e' = e /\ (m' < m)%positive)%Z)
      by (rewrite <- ltb_fin; congruence).
    lia.
Qed.

(** [x == y] is [not (x < y) and not (y < x)]. *)
Lemma eqb_ltb (x y : F64.t) :
  F64.good x -> F64.good y ->
  F64.eqb x y = negb (F64.ltb x y) && negb (F64.ltb y x).
Proof.
  destruct x as [s|s| |s m e], y as [s'|s'| |s' m' e']; simpl;
    try contradiction; intros -> ->; try reflexivity.
  destruct (F64.eqb _ _) eqn:L, (F64.ltb _ _) eqn:T1,
           (F64.ltb (S754_finite false m' e') _) eqn:T2;
    try reflexivity; exfalso;
    try (apply eqb_fin in L); try (apply ltb_fin in T1);
    try (apply ltb_fin in T2); try lia.
  assert (N0 : ~ (e = e' /\ m = m')) by (rewrite <- eqb_fin; congruence).
  assert (N1 : ~ (e < e' \/ e = e' /\ (m < m')%positive)%Z)
    by (rewrite <- ltb_fin; congruence).
  assert (N2 : ~ (e' < e \/ e' = e /\ (m' < m)%positive)%Z)
    by (rewrite <- ltb_fin; congruence).
  destruct (Pos.lt_total m m') as [T|[T|T]]; lia.
Qed.

Lemma leb_refl (x : F64.t) : F64.good x -> F64.leb x x = true.
Proof. intros H. now rewrite leb_ltb, ltb_irrefl. Qed.

Lemma leb_trans (x y z : F64.t) :
  F64.good x -> F64.good y -> F64.good z ->
  F64.leb x y = true -> F64.leb y z = true -> F64.leb x z = true.
Proof.
  intros Hx Hy Hz. rewrite !leb_ltb by assumption.
  rewrite !negb_true_iff. intros H1 H2.
  now apply ltb_negtrans with y.
Qed.

Lemma ltb_leb (x y : F64.t) :
  F64.good x -> F64.good y -> F64.ltb x y = true -> F64.leb x y = true.
Proof.
  intros Hx Hy H. rewrite leb_ltb by assumption.
  now rewrite (ltb_asym x y Hx Hy H).
Qed.

Lemma zero_leb (x : F64.t) : F64.good x -> F64.leb F64.zero x = true.
Proof.
  destruct x as [s|s| |s m e]; simpl; try contradiction; intros ->; reflexivity.
Qed.

Lemma min_leb (a b : F64.t) :
  F64.good a -> F64.good b -> F64.leb (F64.min a b) b = true.
Proof.
  intros Ha Hb. unfold F64.min. destruct (F64.ltb b a) eqn:E.
  - now apply leb_refl.
  - rewrite leb_ltb by assumption. now rewrite E.
Qed.

(* ================================================================== *)
(** * Properties of the sets of a run *)
(* ================================================================== *)

Lemma mem_In (w : string) (ws : list string) : Py.mem w ws = true <-> In w ws.
Proof.
  unfold Py.mem. rewrite existsb_exists. split.
  - intros (x & Hx & E). apply String.eqb_eq in E. now subst.
  - intros H. exists w. split; [exact H | apply String.eqb_refl].
Qed.

Lemma place_perm (hash : string -> nat) (w : string) (ws : list string) :
  Permutation (Py.place hash w ws) (w :: ws).
Proof.
  induction ws as [|x ws IH]; simpl; [reflexivity|].
  destruct (hash w <? hash x); [reflexivity|].
  rewrite IH. apply perm_swap.
Qed.

Lemma add_In (hash : string -> nat) (ws : list string) (w x : string) :
  In x (Py.add hash ws w) <-> x = w \/ In x ws.
Proof.
  unfold Py.add. destruct (Py.mem w ws) eqn:E.
  - apply mem_In in E. split; [now right | intros [->|H]; assumption].
  - split.
    + intros H. apply (Permutation_in _ (place_perm hash w ws)) in H.
      destruct H as [<-|H]; [now left | now right].
    + intros H. apply (Permutation_in _ (Permutation_sym (place_perm hash w ws))).
      destruct H as [->|H]; [now left | now right].
Qed.

Lemma add_NoDup (hash : string -> nat) (ws : list string) (w : string) :
  NoDup ws -> NoDup (Py.add hash ws w).
Proof.
  intros H. unfold Py.add. destruct (Py.mem w ws) eqn:E; [exact H|].
  apply (Permutation_NoDup (Permutation_sym (place_perm hash w ws))).
  constructor; [|exact H]. intros C. apply mem_In in C. congruence.
Qed.

Lemma fold_add (hash : string -> nat) (words : list string) : forall acc,
  NoDup acc ->
  NoDup (fold_left (Py.add hash) words acc) /\
  forall x, In x (fold_left (Py.add hash) words acc) <-> In x acc \/ In x words.
Proof.
  induction words as [|w words IH]; intros acc H; simpl.
  - split; [exact H | intros x; tauto].
  - destruct (IH (Py.add hash acc w) (add_NoDup hash w H)) as [N I].
    split; [exact N|]. intros x. rewrite I, add_In. intuition.
Qed.

(** A set holds each of the words once, whatever the hash function. *)
Lemma hashed_set_spec (hash : string -> nat) (words : list string) :
  NoDup (Py.hashed_set hash words) /\
  forall x, In x (Py.hashed_set hash words) <-> In x words.
Proof.
  destruct (@fold_add hash words [] (NoDup_nil _)) as [N I].
  split; [exact N|]. intros x. unfold Py.hashed_set. rewrite I. simpl. tauto.
Qed.

Lemma hashed_set_length (hash hash' : string -> nat) (words words' : list string) :
  (forall x, In x words <-> In x words') ->
  List.length (Py.hashed_set hash words) = List.length (Py.hashed_set hash' words').
Proof.
  intros H. apply Permutation_length.
  destruct (hashed_set_spec hash words) as [N I].
  destruct (hashed_set_spec hash' words') as [N' I'].
  apply NoDup_Permutation; try assumption.
  intros x. now rewrite I, I', H.
Qed.

Lemma hashed_intersection_length (hash hash' : string -> nat) (a b : list string) :
  List.length (Py.hashed_intersection hash
                 (Py.hashed_set hash a) (Py.hashed_set hash b))
  = List.length (Py.hashed_intersection hash'
                   (Py.hashed_set hash' a) (Py.hashed_set hash' b)).
Proof.
  unfold Py.hashed_intersection. apply hashed_set_length. intros x.
  rewrite !filter_In, !mem_In.
  rewrite !(proj2 (hashed_set_spec hash _)), !(proj2 (hashed_set_spec hash' _)).
  reflexivity.
Qed.

(** ** The score does not depend on the hash function *)

Lemma add_keyword_score_lengths (hash : string -> nat) (t j : string)
  (score : F64.t) :
  Double.add_keyword_score hash t j score
  = let job_words := Py.hashed_set hash (findall_words j) in
    let text_words := Py.hashed_set hash (findall_words t) in
    if List.length job_words =? 0 then score
    else F64.add score
           (F64.mul
              (F64.true_div
                 (List.length (Py.hashed_intersection hash job_words text_words))
                 (List.length job_words))
              (F64.of_nat 40)).
Proof.
  unfold Double.add_keyword_score. cbv zeta.
  now destruct (Py.hashed_set hash (findall_words j)).
Qed.

Lemma add_keyword_score_hash (hash hash' : string -> nat) (t j : string)
  (score : F64.t) :
  Double.add_keyword_score hash t j score
  = Double.add_keyword_score hash' t j score.
Proof.
  rewrite !add_keyword_score_lengths. cbv zeta.
  rewrite (hashed_intersection_length hash hash').
  rewrite (@hashed_set_length hash hash' (findall_words j) (findall_words j))
    by reflexivity.
  reflexivity.
Qed.

Lemma calculate_relevance_score_hash (hash hash' : string -> nat)
  (text persona job_description : string) :
  Double.calculate_relevance_score hash text persona job_description
  = Double.calculate_relevance_score hash' text persona job_description.
Proof.
  unfold Double.calculate_relevance_score. cbv zeta.
  now rewrite (add_keyword_score_hash hash hash').
Qed.

(** ** The score is a number between 0 and 100 *)

Lemma add_keyword_score_good (hash : string -> nat) (t j : string) (score : F64.t) :
  F64.good score -> F64.good (Double.add_keyword_score hash t j score).
Proof.
  intros H. unfold Double.add_keyword_score. cbv zeta.
  destruct (Py.hashed_set hash (findall_words j)) as [|w ws]; [exact H|].
  apply add_good; [exact H|].
  apply mul_good; [apply true_div_good; simpl; lia | exact I].
Qed.

Lemma add_persona_score_good (t p : string) (score : F64.t) :
  F64.good score -> F64.good (Double.add_persona_score t p score).
Proof.
  intros H. unfold Double.add_persona_score. cbv zeta.
  destruct (lookup _ persona_keywords) as [[|w ws]|]; try exact H.
  apply add_good; [exact H|].
  apply mul_good; [apply true_div_good; simpl; lia | exact I].
Qed.

Lemma add_context_score_good (triggers keywords : list string) (t j : string)
  (score : F64.t) :
  F64.good score ->
  F64.good (Double.add_context_score triggers keywords t j score).
Proof.
  intros H. unfold Double.add_context_score.
  destruct (any_in triggers j); [|exact H].
  apply add_good; [exact H | apply of_nat_good].
Qed.

Lemma add_length_bonus_good (text : string) (score : F64.t) :
  F64.good score -> F64.good (Double.add_length_bonus text score).
Proof.
  intros H. unfold Double.add_length_bonus. cbv zeta.
  destruct (100 <? _); [|exact H].
  apply add_good; [exact H|].
  apply min_good; [apply true_div_good; lia | apply of_nat_good].
Qed.

Lemma double_score_good (hash : string -> nat) (text persona job_description : string) :
  F64.good (Double.calculate_relevance_score hash text persona job_description).
Proof.
  unfold Double.calculate_relevance_score. cbv zeta.
  apply min_good; [|apply of_nat_good].
  apply add_length_bonus_good, add_context_score_good, add_context_score_good,
        add_persona_score_good, add_keyword_score_good.
  reflexivity.
Qed.

Lemma double_score_in_range (hash : string -> nat)
  (text persona job_description : string) :
  F64.leb F64.zero
    (Double.calculate_relevance_score hash text persona job_description) = true /\
  F64.leb (Double.calculate_relevance_score hash text persona job_description)
    (F64.of_nat 100) = true.
Proof.
  split; [apply zero_leb, double_score_good|].
  unfold Double.calculate_relevance_score. cbv zeta.
  apply min_leb; [|apply of_nat_good].
  apply add_length_bonus_good, add_context_score_good, add_context_score_good,
        add_persona_score_good, add_keyword_score_good.
  reflexivity.
Qed.

(* ================================================================== *)
(** * Properties of the relevance scorer *)
(* ================================================================== *)

Section ScoreBounds.

Local Open Scope Q_scope.

Lemma ratio_nonneg (a b : nat) : 0 <= ratio a b.
Proof. unfold ratio, Qle; simpl; lia. Qed.

Lemma of_nat_nonneg (n : nat) : 0 <= of_nat n.
Proof. unfold of_nat, inject_Z, Qle; simpl; lia. Qed.

Lemma scaled_nonneg (q k : Q) : 0 <= q -> 0 <= k -> 0 <= q * k.
Proof. apply Qmult_le_0_compat. Qed.

Lemma keyword_part_nonneg (t j : string) : 0 <= keyword_part t j.
Proof.
  unfold keyword_part.
  destruct (Py.set_of (findall_words j)); [apply Qle_refl|].
  apply scaled_nonneg; [apply ratio_nonneg | discriminate].
Qed.

Lemma persona_part_nonneg (t p : string) : 0 <= persona_part t p.
Proof.
  unfold persona_part.
  destruct (lookup _ persona_keywords) as [ws|]; [|apply Qle_refl].
  destruct ws; [apply Qle_refl|].
  apply scaled_nonneg; [apply ratio_nonneg | discriminate].
Qed.

Lemma academic_part_nonneg (t j : string) : 0 <= academic_part t j.
Proof.
  unfold academic_part.
  destruct (any_in _ j); [|apply Qle_refl].
  apply scaled_nonneg; [apply of_nat_nonneg | discriminate].
Qed.

Lemma business_part_nonneg (t j : string) : 0 <= business_part t j.
Proof.
  unfold business_part.
  destruct (any_in _ j); [|apply Qle_refl].
  apply scaled_nonneg; [apply of_nat_nonneg | discriminate].
Qed.

Lemma length_part_nonneg (t : string) : 0 <= length_part t.
Proof.
  unfold length_part.
  destruct (100 <? _)%nat; [|apply Qle_refl].
  apply Q.min_glb; [unfold Qle; simpl; lia | discriminate].
Qed.

Lemma sum_nonneg (a b : Q) : 0 <= a -> 0 <= b -> 0 <= a + b.
Proof.
  intros Ha Hb. apply Qle_trans with (0 + 0); [discriminate|].
  now apply Qplus_le_compat.
Qed.

(** C1. For every text, persona and job description, the empty
    strings included, [calculate_relevance_score] returns a value in
    the closed interval from 0 to 100: so does the formula evaluated
    exactly, and so does the double that the program computes,
    whatever the hashes of the run. *)
Theorem calculate_relevance_score_bounded (text persona job_description : string) :
  (0 <= calculate_relevance_score text persona job_description /\
   calculate_relevance_score text persona job_description <= 100) /\
  forall hash : string -> nat,
    F64.leb F64.zero
      (Double.calculate_relevance_score hash text persona job_description)
    = true /\
    F64.leb (Double.calculate_relevance_score hash text persona job_description)
      (F64.of_nat 100%nat)
    = true.
Proof.
  split; [|intros hash; apply double_score_in_range].
  unfold calculate_relevance_score; cbv zeta. split.
  - apply Q.min_glb; [|discriminate].
    repeat apply sum_nonneg;
      auto using Qle_refl, keyword_part_nonneg, persona_part_nonneg,
        academic_part_nonneg, business_part_nonneg, length_part_nonneg.
  - apply Q.le_min_r.
Qed.

End ScoreBounds.

(* ================================================================== *)
(** * Properties of the header heuristic *)
(* ================================================================== *)

Lemma lstrip_len (s : string) : Py.len (Py.lstrip s) <= Py.len s.
Proof.
  induction s as [|c s IH]; simpl; [lia|].
  destruct (Py.isspace c); simpl; unfold Py.len in *; lia.
Qed.

Lemma rstrip_len (s : string) : Py.len (Py.rstrip s) <= Py.len s.
Proof.
  induction s as [|c s IH]; simpl; [lia|].
  destruct (Py.isspace c && Py.is_empty (Py.rstrip s));
    simpl; unfold Py.len in *; simpl; lia.
Qed.

Lemma strip_len (s : string) : Py.len (Py.strip s) <= Py.len s.
Proof.
  unfold Py.strip.
  pose proof (rstrip_len (Py.lstrip s)). pose proof (lstrip_len s). lia.
Qed.

(** C8, as stated, fails: a text of 208 characters is a header, because
    the length test is made after [strip]. *)
Lemma is_section_header_long_input :
  is_section_header padded_header = true /\
  ~ (5 < Py.len padded_header /\ Py.len padded_header < 200).
Proof.
  split; [vm_compute; reflexivity|].
  intros [_ H]. vm_compute in H. lia.
Qed.

(** C8, amended. [is_section_header] returns true only if the text with
    the blanks at both ends removed is longer than 5 and shorter than
    200 characters; the text as given is then longer than 5 characters
    as well. *)
Theorem is_section_header_length (text : string) :
  is_section_header text = true ->
  5 < Py.len (Py.strip text) /\ Py.len (Py.strip text) < 200 /\
  5 < Py.len text.
Proof.
  unfold is_section_header; cbv zeta.
  destruct ((Py.len (Py.strip text) <? 200) && (5 <? Py.len (Py.strip text)))
    eqn:G; [|discriminate].
  intros _. apply andb_true_iff in G as [G1 G2].
  apply Nat.ltb_lt in G1, G2.
  pose proof (strip_len text). lia.
Qed.

Lemma is_section_header_length_witness :
  5 < Py.len (Py.strip "  Abstract ") /\ Py.len (Py.strip "  Abstract ") < 200 /\
  5 < Py.len "  Abstract ".
Proof.
  apply (@is_section_header_length "  Abstract "). vm_compute. reflexivity.
Defined.

(* ================================================================== *)
(** * Properties of the section segmenter *)
(* ================================================================== *)

Section Locate.

Variable A : Type.
Implicit Types (parts : list (list A)) (part : list A).

Lemma offset_0 parts : offset parts 0 = 0.
Proof. reflexivity. Qed.

Lemma offset_S part parts k :
  offset (part :: parts) (S k) = List.length part + offset parts k.
Proof. unfold offset; simpl. now rewrite length_app. Qed.

Lemma slot_bound parts k j b :
  slot parts k j = Some b ->
  exists part, nth_error parts k = Some part /\ j < List.length part.
Proof.
  unfold slot. destruct (nth_error parts k) as [part|]; [|discriminate].
  intros H. exists part. split; [reflexivity|].
  apply nth_error_Some. congruence.
Qed.

(** Every place of the concatenation is a slot of one of the parts. *)
Lemma concat_locate parts : forall i b,
  nth_error (List.concat parts) i = Some b ->
  exists k j, slot parts k j = Some b /\ offset parts k + j = i.
Proof.
  induction parts as [|part parts IH]; intros i b H; simpl in H.
  - destruct i; discriminate.
  - destruct (Nat.lt_ge_cases i (List.length part)) as [Hi|Hi].
    + rewrite nth_error_app1 in H by exact Hi.
      exists 0, i. split; [exact H | reflexivity].
    + rewrite nth_error_app2 in H by exact Hi.
      destruct (IH _ _ H) as (k & j & Hs & Ho).
      exists (S k), j. split; [exact Hs|].
      rewrite offset_S. lia.
Qed.

(** Two slots at the same place of the concatenation are one slot. *)
Lemma concat_locate_unique parts : forall k j k' j' b b',
  slot parts k j = Some b -> slot parts k' j' = Some b' ->
  offset parts k + j = offset parts k' + j' ->
  k = k' /\ j = j'.
Proof.
  induction parts as [|part parts IH]; intros k j k' j' b b' H H' E.
  - destruct k; discriminate.
  - destruct k as [|k], k' as [|k'].
    + rewrite !offset_0 in E. simpl in E. now split.
    + apply slot_bound in H as (p & Hp & Hj). simpl in Hp.
      injection Hp as <-. rewrite offset_0, offset_S in E. lia.
    + apply slot_bound in H' as (p & Hp & Hj). simpl in Hp.
      injection Hp as <-. rewrite offset_0, offset_S in E. lia.
    + rewrite !offset_S in E.
      destruct (IH k j k' j' b b') as [-> ->]; [exact H | exact H' | lia |].
      now split.
Qed.

End Locate.

Lemma concat_snoc {A} (ls : list (list A)) (l : list A) :
  List.concat (ls ++ [l]) = List.concat ls ++ l.
Proof. rewrite concat_app. simpl. now rewrite app_nil_r. Qed.

Lemma seg_step_blocks (st : seg_state) (item : TextBlock.t) :
  seg_blocks (seg_step st item) = seg_blocks st ++ [item].
Proof.
  destruct st as [sections [cur|]]; unfold seg_blocks, seg_step; simpl;
    destruct (is_section_header (TextBlock.text item)); simpl;
    rewrite ?map_app, ?concat_snoc; simpl;
    rewrite ?concat_snoc, ?app_assoc; reflexivity.
Qed.

Lemma seg_step_nonempty (st : seg_state) (item : TextBlock.t) :
  Forall nonempty_section (seg_finish st) ->
  Forall nonempty_section (seg_finish (seg_step st item)).
Proof.
  destruct st as [sections [cur|]]; unfold seg_step; simpl;
    destruct (is_section_header (TextBlock.text item)); simpl; intros H.
  - apply Forall_app. split; [exact H|].
    constructor; [discriminate | constructor].
  - apply Forall_app in H as [H1 H2]. apply Forall_app. split; [exact H1|].
    constructor; [|constructor].
    unfold nonempty_section; simpl. now destruct (Sec.content cur).
  - apply Forall_app. split; [exact H|].
    constructor; [discriminate | constructor].
  - apply Forall_app. split; [exact H|].
    constructor; [discriminate | constructor].
Qed.

Lemma seg_fold_blocks (items : list TextBlock.t) : forall st,
  seg_blocks (fold_left seg_step items st) = seg_blocks st ++ items.
Proof.
  induction items as [|item items IH]; intros st; simpl.
  - now rewrite app_nil_r.
  - rewrite IH, seg_step_blocks, <- app_assoc. reflexivity.
Qed.

Lemma seg_fold_nonempty (items : list TextBlock.t) : forall st,
  Forall nonempty_section (seg_finish st) ->
  Forall nonempty_section (seg_finish (fold_left seg_step items st)).
Proof.
  induction items as [|item items IH]; intros st H; simpl; [exact H|].
  apply IH, seg_step_nonempty, H.
Qed.

Lemma identify_sections_concat (document_data : list TextBlock.t) :
  List.concat (map Sec.content (identify_sections document_data)) = document_data.
Proof. exact (seg_fold_blocks document_data ([], None)). Qed.

(** C2. For every sequence of blocks, the contents of the sections made
    by [identify_sections], laid end to end in the order the sections
    are emitted, are the input sequence; every section holds at least
    one block; and the block at each input position sits in exactly one
    slot (section number, place in its content). *)
Theorem identify_sections_partition (document_data : list TextBlock.t) :
  let sections := identify_sections document_data in
  let parts := map Sec.content sections in
  List.concat parts = document_data /\
  Forall (fun s => Sec.content s <> []) sections /\
  forall i block, nth_error document_data i = Some block ->
    exists k j,
      slot parts k j = Some block /\ offset parts k + j = i /\
      forall k' j' block',
        slot parts k' j' = Some block' -> offset parts k' + j' = i ->
        k' = k /\ j' = j.
Proof.
  cbv zeta. split; [apply identify_sections_concat|]. split.
  - apply (seg_fold_nonempty document_data ([], None)). constructor.
  - intros i block H.
    rewrite <- (identify_sections_concat document_data) in H.
    destruct (concat_locate _ _ H) as (k & j & Hs & Ho).
    exists k, j. repeat split; try assumption.
    all: intros; edestruct (@concat_locate_unique _
           (map Sec.content (identify_sections document_data)) k' j' k j)
           as [E1 E2]; eauto; lia.
Qed.

(* ================================================================== *)
(** * Properties of the stable sort *)
(* ================================================================== *)

Lemma in_firstn {A} (n : nat) : forall (l : list A) (x : A),
  In x (firstn n l) -> In x l.
Proof.
  induction n as [|n IH]; intros [|y l] x H; simpl in *; try contradiction.
  destruct H as [H|H]; [now left | right; now apply IH].
Qed.

Section SortFacts.

Variable A : Type.
Variable key : A -> F64.t.

Lemma insert_desc_perm (x : A) (l : list A) :
  Permutation (insert_desc key x l) (x :: l).
Proof.
  induction l as [|y l IH]; simpl; [reflexivity|].
  destruct (F64.ltb (key x) (key y)); [|reflexivity].
  rewrite IH. apply perm_swap.
Qed.

Lemma sort_desc_perm (l : list A) : Permutation (sort_desc key l) l.
Proof.
  induction l as [|x l IH]; simpl; [reflexivity|].
  rewrite insert_desc_perm. now constructor.
Qed.

Lemma sort_desc_length (l : list A) :
  List.length (sort_desc key l) = List.length l.
Proof. apply Permutation_length, sort_desc_perm. Qed.

Lemma good_keys_perm (l l' : list A) :
  Permutation l l' -> good_keys key l -> good_keys key l'.
Proof. intros P. apply Permutation_Forall, P. Qed.

Lemma insert_desc_sorted (x : A) (l : list A) :
  F64.good (key x) -> good_keys key l ->
  StronglySorted (by_desc key) l ->
  StronglySorted (by_desc key) (insert_desc key x l).
Proof.
  intros Gx. induction l as [|y l IH]; simpl; intros G H.
  - repeat constructor.
  - inversion H as [|? ? Hl Hy]; subst.
    inversion G as [|? ? Gy Gl]; subst.
    destruct (F64.ltb (key x) (key y)) eqn:E.
    + constructor; [now apply IH|].
      apply (Permutation_Forall (Permutation_sym (insert_desc_perm x l))).
      constructor; [|exact Hy].
      unfold by_desc. now apply ltb_leb.
    + assert (Hxy : by_desc key x y).
      { unfold by_desc. rewrite leb_ltb by assumption. now rewrite E. }
      constructor; [exact H|].
      constructor; [exact Hxy|].
      unfold good_keys in Gl. rewrite Forall_forall in *.
      intros z Hz. unfold by_desc in *.
      apply leb_trans with (key y); auto.
Qed.

Lemma sort_desc_sorted (l : list A) :
  good_keys key l -> StronglySorted (by_desc key) (sort_desc key l).
Proof.
  induction l as [|x l IH]; simpl; intros G; [constructor|].
  inversion G as [|? ? Gx Gl]; subst.
  apply insert_desc_sorted; [exact Gx | | now apply IH].
  apply (good_keys_perm (Permutation_sym (sort_desc_perm l))), Gl.
Qed.

(** A list already in descending order is left as it is. *)
Lemma sort_desc_sorted_id (l : list A) :
  good_keys key l -> StronglySorted (by_desc key) l -> sort_desc key l = l.
Proof.
  intros G H. induction H as [|x l Hl IH Hx]; simpl; [reflexivity|].
  inversion G as [|? ? Gx Gl]; subst.
  rewrite (IH Gl). destruct l as [|y l]; [reflexivity|]. simpl.
  inversion Hx as [|? ? Hy _]; subst. inversion Gl as [|? ? Gy _]; subst.
  unfold by_desc in Hy. rewrite leb_ltb in Hy by assumption.
  apply negb_true_iff in Hy. now rewrite Hy.
Qed.

(** Sorting commutes with a map that the key looks through. *)
Lemma sort_desc_map (B : Type) (f : B -> A) (l : list B) :
  map f (sort_desc (fun b => key (f b)) l) = sort_desc key (map f l).
Proof.
  induction l as [|x l IH]; simpl; [reflexivity|].
  rewrite <- IH. generalize (sort_desc (fun b => key (f b)) l) as s.
  induction s as [|y s IHs]; simpl; [reflexivity|].
  destruct (F64.ltb (key (f x)) (key (f y))); simpl; [|reflexivity].
  now rewrite IHs.
Qed.

(** Only the keys of the elements of the list matter. *)
Lemma insert_desc_ext (key' : A -> F64.t) (x : A) (l : list A) :
  key x = key' x -> (forall y, In y l -> key y = key' y) ->
  insert_desc key x l = insert_desc key' x l.
Proof.
  intros Hx. induction l as [|y l IH]; simpl; intros H; [reflexivity|].
  rewrite Hx, (H y) by now left.
  rewrite IH by (intros z Hz; apply H; now right). reflexivity.
Qed.

Lemma sort_desc_ext (key' : A -> F64.t) (l : list A) :
  (forall y, In y l -> key y = key' y) ->
  sort_desc key l = sort_desc key' l.
Proof.
  induction l as [|x l IH]; simpl; intros H; [reflexivity|].
  rewrite <- IH by (intros z Hz; apply H; now right).
  apply insert_desc_ext; [apply H; now left|].
  intros y Hy. apply H. right.
  now apply (Permutation_in _ (sort_desc_perm l)).
Qed.

Lemma firstn_sorted (R : A -> A -> Prop) (n : nat) : forall l,
  StronglySorted R l -> StronglySorted R (firstn n l).
Proof.
  induction n as [|n IH]; intros l H; simpl; [constructor|].
  destruct l as [|x l]; [constructor|].
  inversion H as [|? ? Hl Hx]; subst. constructor; [now apply IH|].
  rewrite Forall_forall in *. intros z Hz. apply Hx.
  eapply in_firstn; eassumption.
Qed.

Lemma sorted_nth (R : A -> A -> Prop) : forall l k1 k2 a b,
  StronglySorted R l -> k1 < k2 ->
  nth_error l k1 = Some a -> nth_error l k2 = Some b -> R a b.
Proof.
  induction l as [|x l IH]; intros k1 k2 a b H Hk H1 H2.
  - destruct k1; discriminate.
  - inversion H as [|? ? Hl Hx]; subst.
    destruct k2 as [|k2]; [lia|]. simpl in H2.
    destruct k1 as [|k1]; simpl in H1.
    + injection H1 as <-. rewrite Forall_forall in Hx.
      eapply Hx, nth_error_In, H2.
    + apply (IH k1 k2 a b Hl); [lia | exact H1 | exact H2].
Qed.

End SortFacts.

(** ** Lists with their positions *)

Section Enumerate.

Variable A : Type.

Lemma enumerate_from_cons (k : nat) (x : A) (l : list A) :
  enumerate_from k (x :: l) = (k, x) :: enumerate_from (S k) l.
Proof. reflexivity. Qed.

Lemma enumerate_from_fst (l : list A) : forall k,
  map fst (enumerate_from k l) = seq k (List.length l).
Proof.
  induction l as [|x l IH]; intros k; [reflexivity|].
  rewrite enumerate_from_cons. simpl. now rewrite IH.
Qed.

Lemma enumerate_from_snd (l : list A) : forall k,
  map snd (enumerate_from k l) = l.
Proof.
  induction l as [|x l IH]; intros k; [reflexivity|].
  rewrite enumerate_from_cons. simpl. now rewrite IH.
Qed.

Lemma in_enumerate_from (l : list A) : forall k i x,
  In (i, x) (enumerate_from k l) -> k <= i /\ nth_error l (i - k) = Some x.
Proof.
  induction l as [|y l IH]; intros k i x H; [contradiction|].
  rewrite enumerate_from_cons in H. destruct H as [H|H].
  - injection H as <- <-. rewrite Nat.sub_diag. split; [lia | reflexivity].
  - apply IH in H as [Hk Hn]. split; [lia|].
    replace (i - k) with (S (i - S k)) by lia. exact Hn.
Qed.

Lemma enumerate_from_sorted (l : list A) : forall k,
  StronglySorted (fun a b : nat * A => fst a < fst b) (enumerate_from k l).
Proof.
  induction l as [|x l IH]; intros k; [constructor|].
  rewrite enumerate_from_cons. constructor; [apply IH|].
  rewrite Forall_forall. intros [i y] H.
  apply in_enumerate_from in H. simpl. lia.
Qed.

Lemma nth_error_map_inv (B : Type) (f : A -> B) (l : list A) (i : nat) (y : B) :
  nth_error (map f l) i = Some y ->
  exists x, nth_error l i = Some x /\ f x = y.
Proof.
  rewrite nth_error_map. destruct (nth_error l i) as [x|]; [|discriminate].
  intros H. injection H as <-. now exists x.
Qed.

End Enumerate.

(** ** Stability, on a list tagged with input positions *)

Section Stability.

Variable A : Type.
Variable key : A -> F64.t.

Lemma insert_tagged_sorted (x : nat * A) (l : list (nat * A)) :
  F64.good (key (snd x)) -> good_keys (tagged_key key) l ->
  StronglySorted (ranked_before key) l ->
  Forall (fun z => fst x < fst z) l ->
  StronglySorted (ranked_before key) (insert_desc (tagged_key key) x l).
Proof.
  intros Gx. induction l as [|y l IH]; simpl; intros G H F.
  - repeat constructor.
  - inversion H as [|? ? Hl Hy]; subst.
    inversion F as [|? ? Fy Fl]; subst.
    inversion G as [|? ? Gy Gl]; subst. unfold tagged_key in Gy.
    destruct (F64.ltb (tagged_key key x) (tagged_key key y)) eqn:E;
      unfold tagged_key in E.
    + constructor; [now apply IH|].
      apply (Permutation_Forall
               (Permutation_sym (insert_desc_perm (tagged_key key) x l))).
      constructor; [|exact Hy]. now left.
    + constructor; [exact H|].
      assert (K : forall z, F64.good (key (snd z)) ->
                  F64.ltb (key (snd x)) (key (snd z)) = false ->
                  fst x < fst z -> ranked_before key x z).
      { intros z Gz Hz Fz. unfold ranked_before.
        destruct (F64.ltb (key (snd z)) (key (snd x))) eqn:L; [now left|].
        right. split; [|exact Fz].
        rewrite eqb_ltb by assumption. now rewrite Hz, L. }
      constructor; [now apply K|].
      unfold good_keys in Gl. rewrite Forall_forall in *.
      intros z Hz. apply K; [now apply Gl | | now apply Fl].
      apply ltb_negtrans with (key (snd y)); auto; [now apply Gl|].
      destruct (Hy z Hz) as [Lt|[Eq _]].
      * apply ltb_asym; auto. now apply Gl.
      * rewrite eqb_ltb in Eq by (auto; now apply Gl).
        apply andb_true_iff in Eq as [Eq _]. now apply negb_true_iff in Eq.
Qed.

Lemma sort_tagged_sorted (l : list (nat * A)) :
  good_keys (tagged_key key) l ->
  StronglySorted (fun a b => fst a < fst b) l ->
  StronglySorted (ranked_before key) (sort_desc (tagged_key key) l).
Proof.
  induction l as [|x l IH]; simpl; intros G H; [constructor|].
  inversion H as [|? ? Hl Hx]; subst.
  inversion G as [|? ? Gx Gl]; subst.
  apply insert_tagged_sorted; [exact Gx | | now apply IH |].
  - apply (good_keys_perm (Permutation_sym (sort_desc_perm (tagged_key key) l))).
    exact Gl.
  - apply (Permutation_Forall
             (Permutation_sym (sort_desc_perm (tagged_key key) l))).
    exact Hx.
Qed.

(** The list tagged with its positions and sorted: the tags tell, for
    each place of the sorted list, the place its element had. *)
Lemma sort_desc_tagged (l : list A) :
  good_keys key l ->
  let st := sort_desc (tagged_key key) (enumerate l) in
  map snd st = sort_desc key l /\
  Permutation (map fst st) (seq 0 (List.length l)) /\
  StronglySorted (ranked_before key) st /\
  forall k i x, nth_error st k = Some (i, x) -> nth_error l i = Some x.
Proof.
  intros G. cbv zeta. split; [|split; [|split]].
  - rewrite (sort_desc_map key (@snd nat A)).
    unfold enumerate. now rewrite enumerate_from_snd.
  - rewrite <- (enumerate_from_fst l 0). apply Permutation_map, sort_desc_perm.
  - apply sort_tagged_sorted; [|apply enumerate_from_sorted].
    unfold good_keys in *. rewrite Forall_forall in *. intros [i x] H.
    apply in_enumerate_from in H as [_ H]. apply nth_error_In in H.
    unfold tagged_key. simpl. now apply G.
  - intros k i x H. apply nth_error_In in H.
    apply (Permutation_in _ (sort_desc_perm _ _)) in H.
    apply in_enumerate_from in H as [_ H]. now rewrite Nat.sub_0_r in H.
Qed.

(** Of two elements of a list without repetition, the one of greater
    key comes first in the sorted list, and of two elements of equal
    keys the one that stood first. *)
Lemma sort_desc_order (l : list A) (i1 i2 k1 k2 : nat) (x1 x2 : A) :
  good_keys key l -> NoDup l ->
  nth_error l i1 = Some x1 -> nth_error l i2 = Some x2 ->
  nth_error (sort_desc key l) k1 = Some x1 ->
  nth_error (sort_desc key l) k2 = Some x2 ->
  F64.ltb (key x2) (key x1) = true \/
  (F64.eqb (key x1) (key x2) = true /\ i1 < i2) ->
  k1 < k2.
Proof.
  intros G N H1 H2 K1 K2 Hord.
  destruct (sort_desc_tagged G) as (Hs & _ & Hst & Hn).
  set (st := sort_desc (tagged_key key) (enumerate l)) in *.
  rewrite <- Hs in K1, K2.
  apply nth_error_map_inv in K1 as ([j1 y1] & E1 & Y1).
  apply nth_error_map_inv in K2 as ([j2 y2] & E2 & Y2).
  simpl in Y1, Y2. subst y1 y2.
  assert (J1 : j1 = i1).
  { apply (proj1 (NoDup_nth_error l) N).
    - apply nth_error_Some. rewrite (Hn _ _ _ E1). discriminate.
    - rewrite (Hn _ _ _ E1). now symmetry. }
  assert (J2 : j2 = i2).
  { apply (proj1 (NoDup_nth_error l) N).
    - apply nth_error_Some. rewrite (Hn _ _ _ E2). discriminate.
    - rewrite (Hn _ _ _ E2). now symmetry. }
  subst j1 j2.
  assert (G1 : F64.good (key x1)).
  { unfold good_keys in G. rewrite Forall_forall in G.
    eapply G, nth_error_In, H1. }
  assert (G2 : F64.good (key x2)).
  { unfold good_keys in G. rewrite Forall_forall in G.
    eapply G, nth_error_In, H2. }
  destruct (Nat.lt_trichotomy k1 k2) as [L|[L|L]]; [exact L| |]; exfalso.
  - subst k2. rewrite E1 in E2. injection E2 as Ei Ex. subst x2 i2.
    destruct Hord as [Lt|[_ Lt]]; [|lia].
    rewrite ltb_irrefl in Lt by assumption. discriminate.
  - pose proof (sorted_nth Hst L E2 E1) as R. unfold ranked_before in R.
    simpl in R.
    destruct Hord as [Lt|[Eq Lt]], R as [R|[R R']]; try lia.
    + rewrite (ltb_asym _ _ G2 G1 Lt) in R. discriminate.
    + rewrite eqb_ltb in R by assumption. rewrite Lt in R. discriminate.
    + rewrite eqb_ltb in Eq by assumption. rewrite R in Eq. discriminate.
Qed.

End Stability.

(** The keys in the order of a list sorted by descending key. *)
Lemma sorted_map_key {A} (key : A -> F64.t) (l : list A) :
  StronglySorted (by_desc key) l ->
  StronglySorted (fun a b => F64.leb b a = true) (map key l).
Proof.
  induction 1 as [|x l Hl IH Hx]; simpl; constructor; [exact IH|].
  rewrite Forall_forall in *. intros q Hq.
  apply in_map_iff in Hq as (y & <- & Hy). now apply Hx.
Qed.

Lemma sorted_of_map {A B} (R : B -> B -> Prop) (f : A -> B) (l : list A) :
  StronglySorted R (map f l) ->
  StronglySorted (fun a b => R (f a) (f b)) l.
Proof.
  induction l as [|x l IH]; simpl; intros H; [constructor|].
  inversion H as [|? ? Hl Hx]; subst. constructor; [now apply IH|].
  rewrite Forall_forall in *. intros y Hy. apply Hx. now apply in_map.
Qed.

(* ================================================================== *)
(** * Properties of the section ranker *)
(* ================================================================== *)

Lemma score_set_importance_rank (r : nat) (s : Sec.t) :
  Sec.score (Sec.set_importance_rank r s) = Sec.score s.
Proof. reflexivity. Qed.

Lemma score_score_section (hash : string -> nat) (p j : string) (s : Sec.t) :
  Sec.score (score_section hash p j s) = section_score hash p j s.
Proof. reflexivity. Qed.

Lemma section_score_good (hash : string -> nat) (p j : string) (s : Sec.t) :
  F64.good (section_score hash p j s).
Proof. apply double_score_good. Qed.

Lemma scored_good (hash : string -> nat) (p j : string) (l : list Sec.t) :
  good_keys Sec.score (map (score_section hash p j) l).
Proof.
  unfold good_keys. rewrite Forall_forall. intros s Hs.
  apply in_map_iff in Hs as (x & <- & _). apply section_score_good.
Qed.

Lemma assign_from_rank (l : list Sec.t) : forall k,
  map Sec.importance_rank
      (map (fun '(i, section) => Sec.set_importance_rank (i + 1) section)
           (enumerate_from k l))
  = seq (k + 1) (List.length l).
Proof.
  induction l as [|x l IH]; intros k; [reflexivity|].
  rewrite enumerate_from_cons. simpl. f_equal. rewrite IH. f_equal.
Qed.

Lemma assign_from_score (l : list Sec.t) : forall k,
  map Sec.score
      (map (fun '(i, section) => Sec.set_importance_rank (i + 1) section)
           (enumerate_from k l))
  = map Sec.score l.
Proof.
  induction l as [|x l IH]; intros k; [reflexivity|].
  rewrite enumerate_from_cons. simpl. now rewrite IH.
Qed.

Lemma assign_from_nth (l : list Sec.t) : forall k n,
  nth_error
    (map (fun '(i, section) => Sec.set_importance_rank (i + 1) section)
         (enumerate_from k l)) n
  = option_map (Sec.set_importance_rank (k + n + 1)) (nth_error l n).
Proof.
  induction l as [|x l IH]; intros k n.
  - now destruct n.
  - rewrite enumerate_from_cons. destruct n as [|n]; simpl.
    + now rewrite Nat.add_0_r.
    + rewrite IH. now replace (S k + n + 1) with (k + S n + 1) by lia.
Qed.

Lemma assign_ranks_rank (l : list Sec.t) :
  map Sec.importance_rank (assign_ranks l) = seq 1 (List.length l).
Proof. exact (assign_from_rank l 0). Qed.

Lemma assign_ranks_score (l : list Sec.t) :
  map Sec.score (assign_ranks l) = map Sec.score l.
Proof. exact (assign_from_score l 0). Qed.

Lemma assign_ranks_nth (l : list Sec.t) (n : nat) :
  nth_error (assign_ranks l) n
  = option_map (Sec.set_importance_rank (n + 1)) (nth_error l n).
Proof. exact (assign_from_nth l 0 n). Qed.

Lemma assign_ranks_length (l : list Sec.t) :
  List.length (assign_ranks l) = List.length l.
Proof.
  rewrite <- (length_map Sec.importance_rank), assign_ranks_rank.
  apply length_seq.
Qed.

Lemma rank_sections_length (hash : string -> nat) (sections : list Sec.t)
  (p j : string) :
  List.length (rank_sections hash sections p j) = List.length sections.
Proof.
  unfold rank_sections.
  now rewrite assign_ranks_length, sort_desc_length, length_map.
Qed.

Lemma rank_sections_rank (hash : string -> nat) (sections : list Sec.t)
  (p j : string) :
  map Sec.importance_rank (rank_sections hash sections p j)
  = seq 1 (List.length sections).
Proof.
  unfold rank_sections.
  now rewrite assign_ranks_rank, sort_desc_length, length_map.
Qed.

Lemma rank_sections_sorted (hash : string -> nat) (sections : list Sec.t)
  (p j : string) :
  StronglySorted (fun a b => F64.leb b a = true)
    (map Sec.score (rank_sections hash sections p j)).
Proof.
  unfold rank_sections. rewrite assign_ranks_score.
  apply sorted_map_key, sort_desc_sorted, scored_good.
Qed.

(** ** The ranker on a store of section objects *)

Lemma update_length (r : nat) (f : Sec.t -> Sec.t) : forall h,
  List.length (InPlace.update r f h) = List.length h.
Proof.
  induction r as [|r IH]; intros [|s h]; simpl; try reflexivity.
  now rewrite IH.
Qed.

Lemma deref_update_same (f : Sec.t -> Sec.t) : forall r h,
  r < List.length h ->
  InPlace.deref (InPlace.update r f h) r = f (InPlace.deref h r).
Proof.
  unfold InPlace.deref.
  induction r as [|r IH]; intros [|s h] H; simpl in *; try lia; try reflexivity.
  apply IH. lia.
Qed.

Lemma deref_update_other (f : Sec.t -> Sec.t) : forall r r' h,
  r <> r' ->
  InPlace.deref (InPlace.update r f h) r' = InPlace.deref h r'.
Proof.
  unfold InPlace.deref.
  induction r as [|r IH]; intros [|r'] [|s h] H; simpl; try reflexivity; try lia.
  apply IH. lia.
Qed.

Lemma apply_writes_length (writes : list (nat * (Sec.t -> Sec.t))) : forall h,
  List.length (InPlace.apply_writes writes h) = List.length h.
Proof.
  induction writes as [|[r f] writes IH]; intros h; [reflexivity|].
  unfold InPlace.apply_writes in *. simpl. now rewrite IH, update_length.
Qed.

Lemma apply_writes_other (writes : list (nat * (Sec.t -> Sec.t))) : forall h r,
  ~ In r (map fst writes) ->
  InPlace.deref (InPlace.apply_writes writes h) r = InPlace.deref h r.
Proof.
  induction writes as [|[r' f] writes IH]; intros h r H; [reflexivity|].
  unfold InPlace.apply_writes in *. simpl in *.
  rewrite IH by tauto. apply deref_update_other. tauto.
Qed.

(** After a loop of writes through distinct valid references, each
    object written is its old value transformed, once. *)
Lemma apply_writes_read (writes : list (nat * (Sec.t -> Sec.t))) : forall h,
  NoDup (map fst writes) ->
  (forall r, In r (map fst writes) -> r < List.length h) ->
  map (InPlace.deref (InPlace.apply_writes writes h)) (map fst writes)
  = map (fun w => snd w (InPlace.deref h (fst w))) writes.
Proof.
  induction writes as [|[r f] writes IH]; intros h Hnd Hv; [reflexivity|].
  simpl in Hnd. inversion Hnd as [|? ? Hr Hnd']; subst.
  change (InPlace.apply_writes ((r, f) :: writes) h)
    with (InPlace.apply_writes writes (InPlace.update r f h)).
  simpl. f_equal.
  - rewrite apply_writes_other by exact Hr.
    apply deref_update_same, Hv. now left.
  - rewrite IH; [|exact Hnd'|].
    + apply map_ext_in. intros [r' f'] Hin. simpl.
      rewrite deref_update_other; [reflexivity|].
      intros ->. apply Hr. apply in_map_iff. now exists (r', f').
    + intros r' Hr'. rewrite update_length. apply Hv. now right.
Qed.

Lemma enumerate_from_map {A B} (g : A -> B) (l : list A) : forall k,
  enumerate_from k (map g l)
  = map (fun t => (fst t, g (snd t))) (enumerate_from k l).
Proof.
  induction l as [|x l IH]; intros k; [reflexivity|].
  simpl map at 1. rewrite !enumerate_from_cons. simpl. now rewrite IH.
Qed.

Lemma enumerate_from_nth {A} (l : list A) : forall k n,
  nth_error (enumerate_from k l) n
  = option_map (fun x => (k + n, x)) (nth_error l n).
Proof.
  induction l as [|x l IH]; intros k n.
  - now destruct n.
  - rewrite enumerate_from_cons. destruct n as [|n]; simpl.
    + now rewrite Nat.add_0_r.
    + rewrite IH. now replace (S k + n) with (k + S n) by lia.
Qed.

(** The first loop leaves in each object of the list its score. *)
Lemma scoring_writes (hash : string -> nat) (h : InPlace.store)
  (sections : list nat) (p j : string) :
  NoDup sections ->
  (forall r, In r sections -> r < List.length h) ->
  let h1 := InPlace.apply_writes
              (map (fun r => (r, score_section hash p j)) sections) h in
  List.length h1 = List.length h /\
  forall r, In r sections ->
    InPlace.deref h1 r = score_section hash p j (InPlace.deref h r).
Proof.
  intros Hnd Hv. cbv zeta.
  set (w1 := map (fun r => (r, score_section hash p j)) sections).
  assert (F1 : map fst w1 = sections).
  { unfold w1. rewrite map_map. simpl. apply map_id. }
  split; [apply apply_writes_length|].
  apply map_ext_in_iff.
  rewrite <- F1 at 1.
  rewrite apply_writes_read; rewrite ?F1; try assumption.
  unfold w1. now rewrite !map_map.
Qed.

(** On a list of distinct references to objects of the store, the
    in-place ranker leaves, read through the reordered list, what
    [rank_sections] computes from the values. *)
Lemma rank_sections_in_place (hash : string -> nat) (h : InPlace.store)
  (sections : list nat) (p j : string) :
  NoDup sections ->
  (forall r, In r sections -> r < List.length h) ->
  map (InPlace.deref (fst (InPlace.rank_sections hash h sections p j)))
      (snd (InPlace.rank_sections hash h sections p j))
  = rank_sections hash (map (InPlace.deref h) sections) p j.
Proof.
  intros Hnd Hv. unfold InPlace.rank_sections, rank_sections. simpl.
  destruct (scoring_writes hash h p j Hnd Hv) as [L1 D1].
  set (h1 := InPlace.apply_writes
               (map (fun r => (r, score_section hash p j)) sections) h) in *.
  assert (R1 : map (InPlace.deref h1) sections
               = map (score_section hash p j) (map (InPlace.deref h) sections)).
  { rewrite map_map. now apply map_ext_in. }
  set (sorted := sort_desc (fun r => Sec.score (InPlace.deref h1 r)) sections).
  assert (P : Permutation sorted sections) by apply sort_desc_perm.
  set (w2 := map (fun '(i, r) => (r, Sec.set_importance_rank (i + 1)))
                 (enumerate sorted)).
  assert (F2 : map fst w2 = sorted).
  { unfold w2. rewrite map_map.
    rewrite <- (enumerate_from_snd sorted 0) at 2.
    apply map_ext. now intros [i r]. }
  rewrite <- F2 at 1.
  rewrite apply_writes_read; rewrite ?F2.
  - rewrite <- R1, <- (sort_desc_map Sec.score (InPlace.deref h1)).
    fold sorted. unfold assign_ranks, enumerate, w2.
    rewrite enumerate_from_map, !map_map.
    apply map_ext. now intros [i r].
  - apply (Permutation_NoDup (Permutation_sym P)), Hnd.
  - intros r Hr. rewrite L1. apply Hv. now apply (Permutation_in _ P).
Qed.

(** What the in-place ranker leaves in the list and in each object. *)
Lemma rank_sections_objects (hash : string -> nat) (h : InPlace.store)
  (sections : list nat) (p j : string) :
  NoDup sections ->
  (forall r, In r sections -> r < List.length h) ->
  let h' := fst (InPlace.rank_sections hash h sections p j) in
  let ranked := snd (InPlace.rank_sections hash h sections p j) in
  ranked
  = sort_desc (fun r => section_score hash p j (InPlace.deref h r)) sections /\
  forall k r, nth_error ranked k = Some r ->
    InPlace.deref h' r
    = Sec.set_importance_rank (k + 1)
        (score_section hash p j (InPlace.deref h r)).
Proof.
  intros Hnd Hv. unfold InPlace.rank_sections. simpl.
  destruct (scoring_writes hash h p j Hnd Hv) as [L1 D1].
  set (h1 := InPlace.apply_writes
               (map (fun r => (r, score_section hash p j)) sections) h) in *.
  set (sorted := sort_desc (fun r => Sec.score (InPlace.deref h1 r)) sections).
  assert (P : Permutation sorted sections) by apply sort_desc_perm.
  split.
  - apply sort_desc_ext. intros r Hr. now rewrite D1.
  - set (w2 := map (fun '(i, r) => (r, Sec.set_importance_rank (i + 1)))
                   (enumerate sorted)).
    assert (F2 : map fst w2 = sorted).
    { unfold w2. rewrite map_map.
      rewrite <- (enumerate_from_snd sorted 0) at 2.
      apply map_ext. now intros [i r]. }
    assert (R2 : map (InPlace.deref (InPlace.apply_writes w2 h1)) sorted
                 = map (fun w => snd w (InPlace.deref h1 (fst w))) w2).
    { rewrite <- F2 at 1. apply apply_writes_read; rewrite F2.
      - apply (Permutation_NoDup (Permutation_sym P)), Hnd.
      - intros r Hr. rewrite L1. apply Hv. now apply (Permutation_in _ P). }
    intros k r Hk.
    assert (E : nth_error (map (fun w => snd w (InPlace.deref h1 (fst w))) w2) k
                = Some (Sec.set_importance_rank (k + 1) (InPlace.deref h1 r))).
    { unfold w2, enumerate.
      rewrite !nth_error_map, enumerate_from_nth, Hk. reflexivity. }
    rewrite <- R2, nth_error_map, Hk in E. injection E as E.
    rewrite E, D1; [reflexivity|].
    apply (Permutation_in _ P). eapply nth_error_In, Hk.
Qed.

(** C3, as stated, fails on a list that holds the same section twice:
    the second loop writes rank 1 and then rank 2 into the one object,
    and both places of the list show rank 2. *)
Lemma rank_sections_aliased :
  let h' := fst (InPlace.rank_sections (fun _ => 0) sample_store [0; 0]
                   "Student" "methodology") in
  let ranked := snd (InPlace.rank_sections (fun _ => 0) sample_store [0; 0]
                       "Student" "methodology") in
  List.length ranked = 2 /\
  map (fun r => Sec.importance_rank (InPlace.deref h' r)) ranked = [2; 2].
Proof. vm_compute. split; reflexivity. Qed.

(** C3, amended.  [rank_sections] on a list of references to N distinct
    section objects reorders the list and writes into each object its
    score and its rank: the ranks read in list order are 1, 2, ..., N
    (each rank once, none missing); the scores read in list order never
    increase; a section of greater score gets the lower rank; and of
    two sections with equal computed scores the one that stood earlier
    in the input gets the lower rank. *)
Theorem rank_sections_ranking (hash : string -> nat) (h : InPlace.store)
  (sections : list nat) (persona job_description : string) :
  NoDup sections ->
  (forall r, In r sections -> r < List.length h) ->
  let n := List.length sections in
  let h' := fst (InPlace.rank_sections hash h sections persona job_description) in
  let ranked :=
    snd (InPlace.rank_sections hash h sections persona job_description) in
  let score := fun r =>
    section_score hash persona job_description (InPlace.deref h r) in
  let rank := fun r => Sec.importance_rank (InPlace.deref h' r) in
  Permutation ranked sections /\
  map rank ranked = seq 1 n /\
  (forall r, In r sections ->
     Sec.relevance_score (InPlace.deref h' r) = Some (score r)) /\
  StronglySorted (fun a b => F64.leb b a = true) (map score ranked) /\
  (forall i1 i2 r1 r2,
     nth_error sections i1 = Some r1 -> nth_error sections i2 = Some r2 ->
     F64.ltb (score r2) (score r1) = true -> rank r1 < rank r2) /\
  (forall i1 i2 r1 r2,
     nth_error sections i1 = Some r1 -> nth_error sections i2 = Some r2 ->
     F64.eqb (score r1) (score r2) = true -> i1 < i2 -> rank r1 < rank r2).
Proof.
  intros Hnd Hv. cbv zeta.
  destruct (rank_sections_objects hash h persona job_description Hnd Hv)
    as [Hsort Hobj].
  pose proof (rank_sections_in_place hash h persona job_description Hnd Hv)
    as Hval.
  set (h' := fst (InPlace.rank_sections hash h sections persona job_description))
    in *.
  set (ranked := snd (InPlace.rank_sections hash h sections
                        persona job_description)) in *.
  set (score := fun r =>
         section_score hash persona job_description (InPlace.deref h r)) in *.
  assert (G : good_keys score sections).
  { unfold good_keys. rewrite Forall_forall. intros r _.
    apply section_score_good. }
  assert (P : Permutation ranked sections).
  { rewrite Hsort. apply sort_desc_perm. }
  assert (Hrank : forall r, In r sections ->
            exists k, nth_error ranked k = Some r /\
                      Sec.importance_rank (InPlace.deref h' r) = k + 1).
  { intros r Hr. apply (Permutation_in _ (Permutation_sym P)) in Hr.
    apply In_nth_error in Hr as (k & Hk). exists k. split; [exact Hk|].
    now rewrite (Hobj k r Hk). }
  assert (Horder : forall i1 i2 r1 r2,
            nth_error sections i1 = Some r1 -> nth_error sections i2 = Some r2 ->
            F64.ltb (score r2) (score r1) = true \/
            (F64.eqb (score r1) (score r2) = true /\ i1 < i2) ->
            Sec.importance_rank (InPlace.deref h' r1)
            < Sec.importance_rank (InPlace.deref h' r2)).
  { intros i1 i2 r1 r2 H1 H2 Hord.
    pose proof (nth_error_In _ _ H1) as I1.
    pose proof (nth_error_In _ _ H2) as I2.
    destruct (Hrank r1 I1) as (k1 & K1 & ->).
    destruct (Hrank r2 I2) as (k2 & K2 & ->).
    rewrite Hsort in K1, K2.
    pose proof (@sort_desc_order _ score sections i1 i2 k1 k2 r1 r2
                  G Hnd H1 H2 K1 K2 Hord).
    lia. }
  split; [exact P|]. split; [|split; [|split; [|split]]].
  - rewrite <- (map_map (InPlace.deref h') Sec.importance_rank), Hval.
    now rewrite rank_sections_rank, length_map.
  - intros r Hr. destruct (Hrank r Hr) as (k & Hk & _).
    now rewrite (Hobj k r Hk).
  - rewrite Hsort. apply sorted_map_key, sort_desc_sorted, G.
  - intros i1 i2 r1 r2 H1 H2 Hlt. apply (Horder i1 i2); auto.
  - intros i1 i2 r1 r2 H1 H2 Heq Hlt. apply (Horder i1 i2); auto.
Qed.

Lemma rank_sections_ranking_witness :
  NoDup [1; 0] /\
  let h' := fst (InPlace.rank_sections Py.len sample_store [1; 0]
                   "Student" "methodology") in
  let ranked := snd (InPlace.rank_sections Py.len sample_store [1; 0]
                       "Student" "methodology") in
  let score := fun r =>
    section_score Py.len "Student" "methodology" (InPlace.deref sample_store r) in
  let rank := fun r => Sec.importance_rank (InPlace.deref h' r) in
  Permutation ranked [1; 0] /\
  map rank ranked = seq 1 2 /\
  (forall r, In r [1; 0] ->
     Sec.relevance_score (InPlace.deref h' r) = Some (score r)) /\
  StronglySorted (fun a b => F64.leb b a = true) (map score ranked) /\
  (forall i1 i2 r1 r2,
     nth_error [1; 0] i1 = Some r1 -> nth_error [1; 0] i2 = Some r2 ->
     F64.ltb (score r2) (score r1) = true -> rank r1 < rank r2) /\
  (forall i1 i2 r1 r2,
     nth_error [1; 0] i1 = Some r1 -> nth_error [1; 0] i2 = Some r2 ->
     F64.eqb (score r1) (score r2) = true -> i1 < i2 -> rank r1 < rank r2).
Proof.
  assert (N : NoDup [1; 0]) by (repeat constructor; simpl; intuition lia).
  split; [exact N|].
  apply (@rank_sections_ranking Py.len sample_store [1; 0]
           "Student" "methodology" N).
  simpl. intros r [<-|[<-|[]]]; lia.
Defined.

(* ================================================================== *)
(** * Properties of the sub-passage extractor *)
(* ================================================================== *)

Lemma collect_subsections_texts (hash : string -> nat) (section : Sec.t)
  (p j : string) (t : string) :
  In t (map Passage.refined_text (collect_subsections hash section p j)) <->
  In t (section_chunk_texts section) /\ 50 < Py.len t.
Proof.
  unfold collect_subsections, section_chunk_texts.
  rewrite in_map_iff. split.
  - intros (q & <- & Hq). apply in_flat_map in Hq as (item & Hi & Hq).
    apply in_map_iff in Hq as (t & <- & Ht). apply filter_In in Ht as [Ht Hl].
    simpl. split; [|now apply Nat.ltb_lt].
    apply in_flat_map. now exists item.
  - intros [Ht Hl]. apply in_flat_map in Ht as (item & Hi & Ht).
    exists (passage_of hash p j item t). split; [reflexivity|].
    apply in_flat_map. exists item. split; [exact Hi|].
    apply in_map, filter_In. split; [exact Ht | now apply Nat.ltb_lt].
Qed.

Lemma collect_subsections_scored (hash : string -> nat) (section : Sec.t)
  (p j : string) (q : Passage.t) :
  In q (collect_subsections hash section p j) ->
  Passage.relevance_score q
  = Double.calculate_relevance_score hash (Passage.refined_text q) p j /\
  exists item, In item (Sec.content section) /\
    Passage.document q = TextBlock.document item /\
    Passage.page_number q = TextBlock.page item.
Proof.
  unfold collect_subsections. intros Hq.
  apply in_flat_map in Hq as (item & Hi & Hq).
  apply in_map_iff in Hq as (t & <- & _). simpl.
  split; [reflexivity|]. now exists item.
Qed.

Lemma collect_subsections_good (hash : string -> nat) (section : Sec.t)
  (p j : string) :
  good_keys Passage.relevance_score (collect_subsections hash section p j).
Proof.
  unfold good_keys. rewrite Forall_forall. intros q Hq.
  apply collect_subsections_scored in Hq as [-> _]. apply double_score_good.
Qed.

Lemma extract_subsections_in (hash : string -> nat) (section : Sec.t)
  (p j : string) (q : Passage.t) :
  In q (extract_subsections hash section p j) ->
  In q (collect_subsections hash section p j).
Proof.
  unfold extract_subsections. intros H. apply in_firstn in H.
  now apply (Permutation_in _ (sort_desc_perm _ _)) in H.
Qed.

Lemma extract_subsections_sorted (hash : string -> nat) (section : Sec.t)
  (p j : string) :
  StronglySorted (by_desc Passage.relevance_score)
    (extract_subsections hash section p j).
Proof. apply firstn_sorted, sort_desc_sorted, collect_subsections_good. Qed.

(** C4, as stated, fails: a chunk whose text has exactly 50 characters
    is discarded, the test of the program being [len > 50]. *)
Lemma extract_subsections_drops_fifty :
  In fifty_letters (section_chunk_texts fifty_section) /\
  50 <= Py.len fifty_letters /\
  ~ In fifty_letters
      (map Passage.refined_text
         (collect_subsections (fun _ => 0) fifty_section "" "")) /\
  extract_subsections (fun _ => 0) fifty_section "" "" = [].
Proof.
  split; [vm_compute; now left|]. split; [vm_compute; lia|].
  split; [|vm_compute; reflexivity].
  rewrite collect_subsections_texts. intros [_ H]. vm_compute in H. lia.
Qed.

(** C4, amended. [extract_subsections] returns at most 10 passages;
    every passage it returns has a text longer than 50 characters; a
    chunk is kept exactly when its joined text is longer than 50
    characters (discarded when it has 50 characters or fewer); and the
    kept chunks, each scored by [Double.calculate_relevance_score] on
    its text, are the ones put in descending order of which the first
    10 are returned. *)
Theorem extract_subsections_selection (hash : string -> nat) (section : Sec.t)
  (persona job_description : string) :
  let kept := collect_subsections hash section persona job_description in
  let result := extract_subsections hash section persona job_description in
  List.length result <= 10 /\
  (forall q, In q result -> 50 < Py.len (Passage.refined_text q)) /\
  (forall t, In t (map Passage.refined_text kept) <->
             In t (section_chunk_texts section) /\ 50 < Py.len t) /\
  (forall q, In q kept ->
     Passage.relevance_score q
     = Double.calculate_relevance_score hash (Passage.refined_text q)
         persona job_description) /\
  exists ordered,
    Permutation ordered kept /\
    StronglySorted (by_desc Passage.relevance_score) ordered /\
    result = firstn 10 ordered.
Proof.
  cbv zeta. split; [apply firstn_le_length|]. split; [|split; [|split]].
  - intros q Hq. apply extract_subsections_in in Hq.
    apply (in_map Passage.refined_text) in Hq.
    now apply collect_subsections_texts in Hq.
  - intros t. apply collect_subsections_texts.
  - intros q Hq. now apply collect_subsections_scored in Hq.
  - eexists. split; [apply sort_desc_perm|].
    split; [apply sort_desc_sorted, collect_subsections_good | reflexivity].
Qed.

(* ================================================================== *)
(** * Properties of the collection orchestrator *)
(* ================================================================== *)

Lemma rank_sections_checked_ok (hash : string -> nat) (sections : list Sec.t)
  (persona job : json) (ranked : list Sec.t) (p j : string) :
  rank_sections_checked hash sections persona job = Ok (ranked, p, j) ->
  ranked = rank_sections hash sections p j /\
  (sections = [] \/ (persona = JString p /\ job = JString j)).
Proof.
  unfold rank_sections_checked. destruct sections as [|s sections].
  - intros H. injection H as <- <- <-. split; [reflexivity | now left].
  - destruct persona; simpl; try discriminate.
    destruct job; simpl; try discriminate.
    intros H. injection H as <- <- <-. split; [reflexivity | now right].
Qed.

(** What a run that does not raise has gone through. *)
Lemma process_body_ok (w : World) (output : Output.t) :
  process_body w = Ok output ->
  exists config persona job documents doc_names data ranked p j,
    load_config w = Ok config /\
    getitem config "persona" = Ok persona /\
    getitem config "job_to_be_done" = Ok job /\
    getitem config "documents" = Ok documents /\
    iterate documents = Ok doc_names /\
    collect_documents w doc_names [] = Ok data /\
    rank_sections_checked (hash_of w) (identify_sections data) persona job
    = Ok (ranked, p, j) /\
    output = Output.mk (Metadata.mk documents persona job (now w) None)
               (map project_section (firstn 20 ranked))
               (flat_map (top_subsections (hash_of w) p j) (firstn 20 ranked)).
Proof.
  unfold process_body. intros H.
  step_ok H. rename a into config.
  step_ok H. rename a into persona.
  step_ok H. rename a into job.
  step_ok H. rename a into documents.
  step_ok H. rename a into doc_names.
  step_ok H. rename a into data.
  step_ok H. destruct a as [[ranked p] j].
  injection H as <-.
  exists config, persona, job, documents, doc_names, data, ranked, p, j.
  repeat split; assumption.
Qed.

Lemma process_ok (w : World) (output : Output.t) :
  process_body w = Ok output -> process_document_collection w = output.
Proof. unfold process_document_collection. now intros ->. Qed.

Lemma process_raise (w : World) (e : exn) :
  process_body w = Raise e -> process_document_collection w = error_output w e.
Proof. unfold process_document_collection. now intros ->. Qed.

Lemma process_no_error (w : World) :
  Metadata.error (Output.metadata (process_document_collection w)) = None ->
  process_body w = Ok (process_document_collection w).
Proof.
  unfold process_document_collection.
  destruct (process_body w) as [output|e]; [reflexivity | discriminate].
Qed.

Lemma firstn_seq (m : nat) : forall k n,
  firstn m (seq k n) = seq k (Nat.min m n).
Proof.
  induction m as [|m IH]; intros k [|n]; simpl; try reflexivity.
  now rewrite IH.
Qed.

Lemma project_section_rank (l : list Sec.t) :
  map ExtractedSection.importance_rank (map project_section l)
  = map Sec.importance_rank l.
Proof. rewrite map_map. reflexivity. Qed.

(** Among sections ranked k, k+1, ... only those ranked at most 10
    contribute passages. *)
Lemma top_subsections_cut (hash : string -> nat) (p j : string) :
  forall (l : list Sec.t) (k m : nat),
  map Sec.importance_rank l = seq k (List.length l) ->
  flat_map (top_subsections hash p j) (firstn m l)
  = flat_map (fun s => firstn 3 (extract_subsections hash s p j))
             (firstn (Nat.min m (11 - k)) l).
Proof.
  induction l as [|x l IH]; intros k m H.
  - now rewrite !firstn_nil.
  - simpl in H. injection H as Hx Hl.
    destruct m as [|m]; [reflexivity|].
    destruct (Nat.le_gt_cases k 10) as [Hk|Hk].
    + replace (11 - k) with (S (10 - k)) by lia. simpl.
      unfold top_subsections at 1. rewrite Hx.
      destruct (Nat.leb_spec k 10) as [_|C]; [|lia].
      f_equal. rewrite (IH (S k) m Hl). f_equal.
    + replace (11 - k) with 0 by lia. rewrite Nat.min_0_r. simpl.
      unfold top_subsections at 1. rewrite Hx.
      destruct (Nat.leb_spec k 10) as [C|_]; [lia|].
      rewrite (IH (S k) m Hl). replace (11 - S k) with 0 by lia.
      now rewrite Nat.min_0_r.
Qed.

(** In a list whose ranks are 1, 2, ... the sections of rank at most
    [m] are the first [m]. *)
Lemma ranked_at_most (l : list Sec.t) (m n : nat) (s : Sec.t) :
  map Sec.importance_rank l = seq 1 (List.length l) ->
  m <= n -> In s (firstn n l) ->
  (Sec.importance_rank s <= m <-> In s (firstn m l)).
Proof.
  intros Hrank Hmn Hs.
  assert (Hk : forall k x, nth_error l k = Some x -> Sec.importance_rank x = k + 1).
  { intros k x Hx.
    pose proof (map_nth_error Sec.importance_rank _ _ Hx) as E.
    rewrite Hrank in E.
    assert (Hlt : k < List.length l) by (apply nth_error_Some; congruence).
    rewrite (nth_error_nth' _ 0) in E by (rewrite length_seq; exact Hlt).
    rewrite seq_nth in E by exact Hlt. injection E as E. lia. }
  split.
  - intros Hle. apply in_firstn in Hs. apply In_nth_error in Hs as (k & Hx).
    pose proof (Hk k s Hx) as E.
    apply (nth_error_In _ k). rewrite nth_error_firstn.
    destruct (Nat.ltb_spec k m) as [_|C]; [exact Hx | lia].
  - intros Hin. apply In_nth_error in Hin as (k & Hx).
    rewrite nth_error_firstn in Hx.
    destruct (Nat.ltb_spec k m) as [L|_]; [|discriminate].
    rewrite (Hk k s Hx). lia.
Qed.

(** C5. When a collection is processed without error, the sections
    ranked are those found in the blocks of the listed documents, and
    with [ranked] the list that [rank_sections] returns for them:
    [extracted_sections] is made of the first 20 sections of [ranked],
    so it has at most 20 entries whose ranks, in list order, are 1, 2,
    ...; and [sub_section_analysis] is made of one group per section of
    rank at most 10, these sections being the first 10 of [ranked], the
    groups following each other in rank order, each group being the
    first 3 passages that [extract_subsections] returns for its section
    (so at most 3, in descending order of score, all cut from the text
    of that section). *)
Theorem process_document_collection_selection (w : World) :
  Metadata.error (Output.metadata (process_document_collection w)) = None ->
  let output := process_document_collection w in
  let extracted := Output.extracted_sections output in
  exists (config persona job documents : json) (doc_names : list json)
         (data : list TextBlock.t) (p j : string),
    load_config w = Ok config /\
    getitem config "persona" = Ok persona /\
    getitem config "job_to_be_done" = Ok job /\
    getitem config "documents" = Ok documents /\
    iterate documents = Ok doc_names /\
    collect_documents w doc_names [] = Ok data /\
    (data = [] \/ (persona = JString p /\ job = JString j)) /\
    let ranked := rank_sections (hash_of w) (identify_sections data) p j in
    let sources := firstn 10 ranked in
    extracted = map project_section (firstn 20 ranked) /\
    List.length extracted <= 20 /\
    map ExtractedSection.importance_rank extracted
    = seq 1 (List.length extracted) /\
    (forall s, In s (firstn 20 ranked) ->
       (Sec.importance_rank s <= 10 <-> In s sources)) /\
    map Sec.importance_rank sources = seq 1 (List.length sources) /\
    Output.sub_section_analysis output
    = List.concat
        (map (fun s => firstn 3 (extract_subsections (hash_of w) s p j)) sources) /\
    Forall (fun s =>
              let group := firstn 3 (extract_subsections (hash_of w) s p j) in
              List.length group <= 3 /\
              StronglySorted (by_desc Passage.relevance_score) group /\
              forall q, In q group ->
                In (Passage.refined_text q) (section_chunk_texts s))
           sources.
Proof.
  intros Hno. apply process_no_error in Hno. cbv zeta.
  destruct (process_body_ok _ Hno)
    as (config & persona & job & documents & doc_names & data & ranked & p & j
        & Hc & Hp & Hj & Hd & Hi & Hcol & Hr & Hout).
  rewrite Hout.
  cbn [Output.extracted_sections Output.sub_section_analysis].
  apply rank_sections_checked_ok in Hr as [Hr Hstr]. subst ranked.
  exists config, persona, job, documents, doc_names, data, p, j.
  repeat (split; [assumption|]).
  set (ranked := rank_sections (hash_of w) (identify_sections data) p j).
  assert (Hrank : map Sec.importance_rank ranked = seq 1 (List.length ranked)).
  { unfold ranked. rewrite rank_sections_rank, rank_sections_length.
    reflexivity. }
  split.
  { destruct Hstr as [Hnil|Hstr]; [left | now right].
    destruct data as [|b data]; [reflexivity|]. exfalso.
    pose proof (identify_sections_concat (b :: data)) as C.
    rewrite Hnil in C. discriminate. }
  split; [reflexivity|].
  split; [rewrite length_map; apply firstn_le_length|].
  split.
  { rewrite project_section_rank, <- firstn_map, Hrank, firstn_seq.
    now rewrite length_map, length_firstn. }
  split.
  { intros s Hs. apply (@ranked_at_most ranked 10 20 s Hrank); [lia | exact Hs]. }
  split.
  { now rewrite <- firstn_map, Hrank, firstn_seq, length_firstn. }
  split.
  { rewrite (top_subsections_cut (hash_of w) p j ranked 1 20 Hrank).
    apply flat_map_concat_map. }
  rewrite Forall_forall. intros s _. cbv zeta.
  split; [apply firstn_le_length|]. split.
  - apply firstn_sorted, extract_subsections_sorted.
  - intros q Hq. apply in_firstn, extract_subsections_in in Hq.
    apply (in_map Passage.refined_text) in Hq.
    now apply collect_subsections_texts in Hq.
Qed.

Lemma process_document_collection_selection_witness :
  Metadata.error
    (Output.metadata (process_document_collection (sample_world "t"))) = None /\
  let w := sample_world "t" in
  let output := process_document_collection w in
  let extracted := Output.extracted_sections output in
  exists (config persona job documents : json) (doc_names : list json)
         (data : list TextBlock.t) (p j : string),
    load_config w = Ok config /\
    getitem config "persona" = Ok persona /\
    getitem config "job_to_be_done" = Ok job /\
    getitem config "documents" = Ok documents /\
    iterate documents = Ok doc_names /\
    collect_documents w doc_names [] = Ok data /\
    (data = [] \/ (persona = JString p /\ job = JString j)) /\
    let ranked := rank_sections (hash_of w) (identify_sections data) p j in
    let sources := firstn 10 ranked in
    extracted = map project_section (firstn 20 ranked) /\
    List.length extracted <= 20 /\
    map ExtractedSection.importance_rank extracted
    = seq 1 (List.length extracted) /\
    (forall s, In s (firstn 20 ranked) ->
       (Sec.importance_rank s <= 10 <-> In s sources)) /\
    map Sec.importance_rank sources = seq 1 (List.length sources) /\
    Output.sub_section_analysis output
    = List.concat
        (map (fun s => firstn 3 (extract_subsections (hash_of w) s p j)) sources) /\
    Forall (fun s =>
              let group := firstn 3 (extract_subsections (hash_of w) s p j) in
              List.length group <= 3 /\
              StronglySorted (by_desc Passage.relevance_score) group /\
              forall q, In q group ->
                In (Passage.refined_text q) (section_chunk_texts s))
           sources.
Proof.
  split; [vm_compute; reflexivity|].
  apply (@process_document_collection_selection (sample_world "t")).
  vm_compute; reflexivity.
Defined.

(** ** Failure containment *)











(** The failures the body can meet, each on a sample input. *)
Example unreadable_config_raises :
  process_body unreadable_world
  = Raise (Exn "JSONDecodeError" "Expecting value: line 1 column 1 (char 0)").
Proof. reflexivity. Qed.

Example missing_key_raises :
  process_body missing_key_world = Raise (Exn "KeyError" "'job_to_be_done'").
Proof. reflexivity. Qed.

Example unreadable_config_contained :
  process_document_collection_call unreadable_world
  = Ok (error_output unreadable_world
          (Exn "JSONDecodeError" "Expecting value: line 1 column 1 (char 0)")).
Proof. reflexivity. Qed.

Lemma load_failure_raises (w : World) (e : exn) :
  load_config w = Raise e -> process_body w = Raise e.
Proof. unfold process_body. now intros ->. Qed.

Lemma extraction_failure_raises (w : World) (config persona job : json)
  (name : string) (rest : list json) (e : exn) :
  load_config w = Ok config ->
  getitem config "persona" = Ok persona ->
  getitem config "job_to_be_done" = Ok job ->
  getitem config "documents" = Ok (JArray (JString name :: rest)) ->
  path_exists w name = Ok true ->
  page_texts w name = Raise e ->
  process_body w = Raise e.
Proof.
  unfold process_body. intros Hc Hp Hj Hd Hex Hpt.
  rewrite Hc; cbn [bind]. rewrite Hp; cbn [bind]. rewrite Hj; cbn [bind].
  rewrite Hd; cbn [bind iterate collect_documents].
  rewrite Hex; cbn [bind].
  unfold extract_document_text. now rewrite Hpt.
Qed.

(** ** The error path does not echo the configuration *)

(** C10. Whenever the body of the [try] block raises, the metadata of
    the returned record have the empty list as [input_documents], the
    empty string as [persona] and as [job_to_be_done], and the
    description of the exception as [error]; nothing of the
    configuration is copied. *)
Theorem process_document_collection_error_metadata (w : World) (e : exn) :
  process_body w = Raise e ->
  Output.metadata (process_document_collection w)
  = Metadata.mk (JArray []) (JString "") (JString "") (now w)
      (Some (exn_str e)).
Proof. intros H. now rewrite (process_raise _ H). Qed.

Lemma process_document_collection_error_metadata_witness :
  process_body missing_key_world = Raise (Exn "KeyError" "'job_to_be_done'") /\
  Output.metadata (process_document_collection missing_key_world)
  = Metadata.mk (JArray []) (JString "") (JString "")
      (now missing_key_world) (Some "'job_to_be_done'").
Proof.
  split; [reflexivity|].
  apply (@process_document_collection_error_metadata missing_key_world
           (Exn "KeyError" "'job_to_be_done'")).
  reflexivity.
Defined.

(** ** Missing documents *)





(** ** Determinism *)

Lemma section_score_hash (hash hash' : string -> nat) (p j : string) (s : Sec.t) :
  section_score hash p j s = section_score hash' p j s.
Proof. apply calculate_relevance_score_hash. Qed.

Lemma rank_sections_hash (hash hash' : string -> nat) (sections : list Sec.t)
  (p j : string) :
  rank_sections hash sections p j = rank_sections hash' sections p j.
Proof.
  unfold rank_sections. f_equal. f_equal. apply map_ext. intros s.
  unfold score_section. now rewrite (section_score_hash hash hash').
Qed.

Lemma extract_subsections_hash (hash hash' : string -> nat) (section : Sec.t)
  (p j : string) :
  extract_subsections hash section p j = extract_subsections hash' section p j.
Proof.
  unfold extract_subsections, collect_subsections. f_equal. f_equal.
  apply flat_map_ext. intros item. apply map_ext. intros t.
  unfold passage_of. now rewrite (calculate_relevance_score_hash hash hash').
Qed.

Lemma extract_document_text_same (w1 w2 : World) (name : string) :
  same_input w1 w2 ->
  extract_document_text w1 name = extract_document_text w2 name.
Proof.
  intros (_ & _ & Hn & Ht). unfold extract_document_text.
  now rewrite Hn, Ht.
Qed.

Lemma collect_documents_same (w1 w2 : World) (doc_names : list json) :
  same_input w1 w2 ->
  forall acc, collect_documents w1 doc_names acc
              = collect_documents w2 doc_names acc.
Proof.
  intros H. induction doc_names as [|d rest IH]; intros acc; [reflexivity|].
  simpl. destruct d; try reflexivity.
  rewrite (extract_document_text_same s H).
  destruct H as (Hc & He & Hn & Ht). rewrite He.
  destruct (path_exists w2 s) as [[|]|e]; simpl; [|apply IH|reflexivity].
  destruct (extract_document_text w2 s); simpl; [apply IH | reflexivity].
Qed.

(** C7. Two runs on the same configuration and the same documents give
    the same output once the processing timestamp is set aside,
    whatever the clock shows and whatever the hashes of the strings are
    in each run: the score of a text is the same double under any two
    hash functions, and so are the sections, their ranks and the
    passages. *)
Theorem process_document_collection_deterministic (w1 w2 : World) :
  same_input w1 w2 ->
  (forall text persona job_description,
     Double.calculate_relevance_score (hash_of w1) text persona job_description
     = Double.calculate_relevance_score (hash_of w2) text persona job_description) /\
  erase_timestamp (process_document_collection w1)
  = erase_timestamp (process_document_collection w2).
Proof.
  intros H. split; [intros; apply calculate_relevance_score_hash|].
  pose proof (fun doc_names => collect_documents_same doc_names H) as Hcol.
  unfold process_document_collection, process_body.
  destruct H as (Hc & _). rewrite Hc. clear Hc.
  destruct (load_config w2) as [config|e]; simpl; [|reflexivity].
  destruct (getitem config "persona") as [persona|e]; simpl; [|reflexivity].
  destruct (getitem config "job_to_be_done") as [job|e]; simpl; [|reflexivity].
  destruct (getitem config "documents") as [documents|e]; simpl; [|reflexivity].
  destruct (iterate documents) as [doc_names|e]; simpl; [|reflexivity].
  rewrite (Hcol doc_names []).
  destruct (collect_documents w2 doc_names []) as [data|e]; simpl; [|reflexivity].
  unfold rank_sections_checked.
  destruct (identify_sections data) as [|s sections]; [reflexivity|].
  destruct (as_str persona) as [p|e]; simpl; [|reflexivity].
  destruct (as_str job) as [j|e]; simpl; [|reflexivity].
  rewrite (rank_sections_hash (hash_of w1) (hash_of w2)).
  unfold erase_timestamp. simpl. f_equal.
  apply flat_map_ext. intros x. unfold top_subsections.
  now rewrite (extract_subsections_hash (hash_of w1) (hash_of w2)).
Qed.

Lemma process_document_collection_deterministic_witness :
  same_input (sample_world "2024-01-01T00:00:00")
             (rehashed Py.len (sample_world "2025-06-30T12:00:00")) /\
  (forall text persona job_description,
     Double.calculate_relevance_score (fun _ => 0) text persona job_description
     = Double.calculate_relevance_score Py.len text persona job_description) /\
  erase_timestamp (process_document_collection (sample_world "2024-01-01T00:00:00"))
  = erase_timestamp
      (process_document_collection
         (rehashed Py.len (sample_world "2025-06-30T12:00:00"))).
Proof.
  assert (H : same_input (sample_world "2024-01-01T00:00:00")
                         (rehashed Py.len (sample_world "2025-06-30T12:00:00"))).
  { repeat split. }
  split; [exact H|].
  apply (@process_document_collection_deterministic
           (sample_world "2024-01-01T00:00:00")
           (rehashed Py.len (sample_world "2025-06-30T12:00:00")) H).
Defined.

(* ================================================================== *)
(** * Further properties: text block extraction *)
(* ================================================================== *)

Unset Implicit Arguments.

Lemma rstrip_idem (s : string) : Py.rstrip (Py.rstrip s) = Py.rstrip s.
Proof.
  induction s as [|c s IH]; [reflexivity|]. simpl.
  destruct (Py.isspace c && Py.is_empty (Py.rstrip s)) eqn:E; [reflexivity|].
  simpl. now rewrite IH, E.
Qed.

Lemma lstrip_clean (s : string) : starts_clean (Py.lstrip s).
Proof.
  induction s as [|c s IH]; simpl; [exact I|].
  destruct (Py.isspace c) eqn:E; [exact IH | exact E].
Qed.

Lemma rstrip_clean (s : string) : starts_clean s -> starts_clean (Py.rstrip s).
Proof.
  destruct s as [|c s]; simpl; [trivial|]. intros H. rewrite H. exact H.
Qed.

Lemma lstrip_of_clean (s : string) : starts_clean s -> Py.lstrip s = s.
Proof. destruct s as [|c s]; simpl; [trivial|]. now intros ->. Qed.

Lemma strip_clean (s : string) : starts_clean (Py.strip s).
Proof. apply rstrip_clean, lstrip_clean. Qed.

Lemma strip_idem (s : string) : Py.strip (Py.strip s) = Py.strip s.
Proof.
  unfold Py.strip at 1. rewrite (lstrip_of_clean _ (strip_clean s)).
  apply rstrip_idem.
Qed.

Lemma snoc_not_empty (cur : string) (c : ascii) :
  Py.is_empty (Py.snoc cur c) = false.
Proof. now destruct cur. Qed.

Lemma runs_open (keep : ascii -> bool) (s : string) : forall cur,
  Py.is_empty cur = false -> Py.runs keep cur s <> [].
Proof.
  induction s as [|c s IH]; intros cur H; simpl.
  - now rewrite H.
  - destruct (keep c); [apply IH, snoc_not_empty|].
    now rewrite H.
Qed.

(** A non-empty text that does not begin with a blank has a word. *)
Lemma split_clean (s : string) :
  starts_clean s -> s <> EmptyString -> Py.split s <> [].
Proof.
  destruct s as [|c s]; [congruence|]. simpl. intros H _.
  unfold Py.split. simpl. rewrite H. simpl. apply runs_open. reflexivity.
Qed.

Lemma paragraphs_of_stripped (text para : string) :
  In para (paragraphs_of text) ->
  Py.strip para = para /\ para <> EmptyString.
Proof.
  unfold paragraphs_of. intros H.
  apply in_map_iff in H as (p & <- & Hp). apply filter_In in Hp as [_ Hp].
  split; [apply strip_idem|]. intros E. now rewrite E in Hp.
Qed.

Lemma blocks_of_page_in (name : string) (page_num : nat) (text : string)
  (b : TextBlock.t) :
  In b (blocks_of_page name page_num text) ->
  exists para_idx paragraph,
    In (para_idx, paragraph) (enumerate (paragraphs_of text)) /\
    50 < Py.len paragraph /\
    b = TextBlock.mk name (page_num + 1) (section_id_of page_num para_idx)
          paragraph (List.length (Py.split paragraph)).
Proof.
  unfold blocks_of_page. intros H.
  apply in_flat_map in H as ([idx para] & Hin & Hb).
  destruct (50 <? Py.len para) eqn:E; [|contradiction].
  destruct Hb as [<-|[]]. exists idx, para.
  split; [exact Hin|]. split; [now apply Nat.ltb_lt | reflexivity].
Qed.

(** What every block cut from a page satisfies. *)
Lemma blocks_of_page_ok (name : string) (page_num : nat) (text : string)
  (b : TextBlock.t) :
  In b (blocks_of_page name page_num text) ->
  TextBlock.document b = name /\
  TextBlock.page b = page_num + 1 /\
  50 < Py.len (TextBlock.text b) /\
  Py.strip (TextBlock.text b) = TextBlock.text b /\
  TextBlock.word_count b = List.length (Py.split (TextBlock.text b)) /\
  1 <= TextBlock.word_count b.
Proof.
  intros H. apply blocks_of_page_in in H as (idx & para & Hin & Hlen & ->).
  simpl. unfold enumerate in Hin. apply in_enumerate_from in Hin as [_ Hin].
  apply nth_error_In, paragraphs_of_stripped in Hin as [Hs Hne].
  repeat split; try assumption.
  assert (Hw : Py.split para <> []).
  { apply split_clean; [|exact Hne]. rewrite <- Hs. apply strip_clean. }
  destruct (Py.split para); [congruence | simpl; lia].
Qed.

Lemma in_pages_blocks (name : string) (pages : list string) (b : TextBlock.t) :
  forall k,
  In b (flat_map (fun '(page_num, text) => blocks_of_page name page_num text)
                 (enumerate_from k pages)) ->
  exists page_num text,
    k <= page_num < k + List.length pages /\
    In b (blocks_of_page name page_num text).
Proof.
  induction pages as [|t pages IH]; intros k H; [contradiction|].
  rewrite enumerate_from_cons in H. simpl in H.
  apply in_app_or in H as [H|H].
  - exists k, t. split; [simpl; lia | exact H].
  - apply IH in H as (pn & text & Hpn & Hb).
    exists pn, text. split; [simpl; lia | exact Hb].
Qed.

(** X1. When the pages of a document can be read, [extract_document_text]
    returns blocks each of which carries the file name of the document,
    a page number between 1 and the number of pages, a text longer than
    50 characters with no blank at either end, and as word count the
    number of blank-separated words of that text, which is at least 1. *)
Theorem extract_document_text_blocks
  (w : World) (doc_name : string) (pages : list string) :
  page_texts w doc_name = Ok pages ->
  exists blocks,
    extract_document_text w doc_name = Ok blocks /\
    Forall (fun b =>
              TextBlock.document b = path_name w doc_name /\
              1 <= TextBlock.page b <= List.length pages /\
              50 < Py.len (TextBlock.text b) /\
              Py.strip (TextBlock.text b) = TextBlock.text b /\
              TextBlock.word_count b
              = List.length (Py.split (TextBlock.text b)) /\
              1 <= TextBlock.word_count b)
           blocks.
Proof.
  intros Hp. unfold extract_document_text. rewrite Hp. simpl.
  eexists. split; [reflexivity|].
  rewrite Forall_forall. intros b Hb. unfold enumerate in Hb.
  apply in_pages_blocks in Hb as (pn & text & Hpn & Hb).
  apply blocks_of_page_ok in Hb as (Hd & Hpg & Hl & Hs & Hw & Hw1).
  repeat split; try assumption; lia.
Qed.

Lemma extract_document_text_blocks_witness :
  page_texts (sample_world "t") "a.pdf" = Ok [sample_page; sample_page] /\
  exists blocks,
    extract_document_text (sample_world "t") "a.pdf" = Ok blocks /\
    Forall (fun b =>
              TextBlock.document b = path_name (sample_world "t") "a.pdf" /\
              1 <= TextBlock.page b <= List.length [sample_page; sample_page] /\
              50 < Py.len (TextBlock.text b) /\
              Py.strip (TextBlock.text b) = TextBlock.text b /\
              TextBlock.word_count b
              = List.length (Py.split (TextBlock.text b)) /\
              1 <= TextBlock.word_count b)
           blocks.
Proof.
  split; [reflexivity|].
  apply (extract_document_text_blocks (sample_world "t") "a.pdf"
           [sample_page; sample_page]).
  reflexivity.
Defined.

Lemma sorted_app {A} (R : A -> A -> Prop) (l1 l2 : list A) :
  StronglySorted R l1 -> StronglySorted R l2 ->
  (forall a b, In a l1 -> In b l2 -> R a b) ->
  StronglySorted R (l1 ++ l2).
Proof.
  induction l1 as [|x l1 IH]; intros H1 H2 H; simpl; [exact H2|].
  inversion H1 as [|? ? Hl Hx]; subst. constructor.
  - apply IH; [exact Hl | exact H2|]. intros a b Ha Hb. apply H; [now right | exact Hb].
  - apply Forall_app. split; [exact Hx|].
    rewrite Forall_forall. intros b Hb. apply H; [now left | exact Hb].
Qed.

Lemma sorted_constant {A} (R : A -> A -> Prop) (l : list A) :
  (forall a b, In a l -> In b l -> R a b) -> StronglySorted R l.
Proof.
  induction l as [|x l IH]; intros H; constructor.
  - apply IH. intros a b Ha Hb. apply H; now right.
  - rewrite Forall_forall. intros b Hb. apply H; [now left | now right].
Qed.

Lemma pages_blocks_sorted (name : string) (pages : list string) : forall k,
  StronglySorted le
    (map TextBlock.page
       (flat_map (fun '(page_num, text) => blocks_of_page name page_num text)
                 (enumerate_from k pages))).
Proof.
  induction pages as [|t pages IH]; intros k; [constructor|].
  rewrite enumerate_from_cons. simpl. rewrite map_app.
  apply sorted_app; [|apply IH|].
  - apply sorted_constant. intros a b Ha Hb.
    apply in_map_iff in Ha as (x & <- & Hx). apply in_map_iff in Hb as (y & <- & Hy).
    apply blocks_of_page_ok in Hx as (_ & -> & _).
    apply blocks_of_page_ok in Hy as (_ & -> & _). lia.
  - intros a b Ha Hb.
    apply in_map_iff in Ha as (x & <- & Hx). apply in_map_iff in Hb as (y & <- & Hy).
    apply blocks_of_page_ok in Hx as (_ & -> & _).
    apply in_pages_blocks in Hy as (pn & text & Hpn & Hy).
    apply blocks_of_page_ok in Hy as (_ & -> & _). lia.
Qed.

(** X2. The blocks of a document come in page order: read along the
    list returned by [extract_document_text], the page numbers never
    decrease. *)
Theorem extract_document_text_page_order
  (w : World) (doc_name : string) (blocks : list TextBlock.t) :
  extract_document_text w doc_name = Ok blocks ->
  StronglySorted le (map TextBlock.page blocks).
Proof.
  unfold extract_document_text.
  destruct (page_texts w doc_name) as [pages|e]; simpl; [|discriminate].
  intros H. injection H as <-. apply pages_blocks_sorted.
Qed.

Lemma extract_document_text_page_order_witness :
  exists blocks,
    extract_document_text (sample_world "t") "a.pdf" = Ok blocks /\
    map TextBlock.page blocks = [1; 1; 1; 2; 2; 2] /\
    StronglySorted le (map TextBlock.page blocks).
Proof.
  eexists. split; [reflexivity|]. split; [vm_compute; reflexivity|].
  apply (extract_document_text_page_order (sample_world "t") "a.pdf").
  reflexivity.
Defined.

(* ================================================================== *)
(** * Further properties: section segmenter *)
(* ================================================================== *)

Lemma concat_length_ge {A} (parts : list (list A)) :
  Forall (fun part => part <> []) parts ->
  List.length parts <= List.length (List.concat parts).
Proof.
  induction 1 as [|part parts Hp _ IH]; simpl; [lia|].
  rewrite length_app. destruct part; [congruence | simpl; lia].
Qed.

(** X3. [identify_sections] makes no section out of no block, at least
    one section out of at least one block, and never more sections than
    there are blocks. *)
Theorem identify_sections_count (document_data : list TextBlock.t) :
  identify_sections [] = [] /\
  (document_data <> [] -> identify_sections document_data <> []) /\
  List.length (identify_sections document_data) <= List.length document_data.
Proof.
  split; [reflexivity|]. split.
  - intros Hne Hnil. apply Hne.
    rewrite <- (identify_sections_concat document_data), Hnil. reflexivity.
  - rewrite <- (identify_sections_concat document_data) at 2.
    rewrite <- (length_map Sec.content). apply concat_length_ge.
    apply Forall_map.
    apply (seg_fold_nonempty document_data ([], None)). constructor.
Qed.

Lemma tl_snoc {A} (P : A -> Prop) (l : list A) (x : A) :
  Forall P (tl l) -> (l <> [] -> P x) -> Forall P (tl (l ++ [x])).
Proof.
  destruct l as [|y l]; simpl; intros H Hx; [constructor|].
  apply Forall_app. split; [exact H|]. constructor; [|constructor].
  apply Hx. discriminate.
Qed.

Lemma tl_replace_last {A} (P : A -> Prop) (l : list A) (x y : A) :
  Forall P (tl (l ++ [x])) -> (P x -> P y) -> Forall P (tl (l ++ [y])).
Proof.
  destruct l as [|z l]; simpl; intros H Hxy; [constructor|].
  apply Forall_app in H as [H1 H2]. apply Forall_app. split; [exact H1|].
  inversion H2; subst. constructor; [auto | constructor].
Qed.

Lemma new_section_shape (item : TextBlock.t) :
  section_shape
    (new_section (if is_header_block item
                  then header_title (TextBlock.text item)
                  else orphan_title item) item).
Proof.
  exists item, []. simpl. repeat split; try reflexivity. constructor.
Qed.

Lemma append_content_shape (item : TextBlock.t) (s : Sec.t) :
  is_header_block item = false ->
  section_shape s -> section_shape (append_content item s).
Proof.
  intros Hn (first & rest & Hc & Hd & Hp & Hr & Hs & Hrest & Ht).
  exists first, (rest ++ [item]). simpl. rewrite Hc.
  repeat split; try assumption.
  apply Forall_app. split; [exact Hrest|]. now constructor.
Qed.

Lemma append_content_header_start (item : TextBlock.t) (s : Sec.t) :
  header_start s -> header_start (append_content item s).
Proof.
  intros (first & rest & Hc & Hh). exists first, (rest ++ [item]).
  simpl. now rewrite Hc.
Qed.

Lemma seg_step_invariant (st : seg_state) (item : TextBlock.t) :
  seg_invariant_holds st -> seg_invariant_holds (seg_step st item).
Proof.
  destruct st as [sections [cur|]]; unfold seg_invariant_holds, seg_step;
    simpl; intros (Hs & Hh & Hn);
    pose proof (new_section_shape item) as Hnew; unfold is_header_block in *;
    destruct (is_section_header (TextBlock.text item)) eqn:E; simpl.
  - split; [|split; [|discriminate]].
    + apply Forall_app. split; [exact Hs | now constructor].
    + apply tl_snoc; [exact Hh|]. intros _.
      exists item, []. split; [reflexivity|]. exact E.
  - split; [|split; [|discriminate]].
    + apply Forall_app in Hs as [Hs1 Hs2]. apply Forall_app. split; [exact Hs1|].
      inversion Hs2; subst. constructor; [|constructor].
      now apply append_content_shape.
    + apply (tl_replace_last _ _ cur); [exact Hh|].
      apply append_content_header_start.
  - rewrite (Hn eq_refl). simpl. split; [|split; [constructor | discriminate]].
    now constructor.
  - rewrite (Hn eq_refl). simpl. split; [|split; [constructor | discriminate]].
    now constructor.
Qed.

Lemma seg_fold_invariant (items : list TextBlock.t) : forall st,
  seg_invariant_holds st ->
  seg_invariant_holds (fold_left seg_step items st).
Proof.
  induction items as [|item items IH]; intros st H; simpl; [exact H|].
  apply IH, seg_step_invariant, H.
Qed.

Lemma seg_initial_invariant : seg_invariant_holds ([], None).
Proof. repeat split; constructor. Qed.

(** X4. Every section made by [identify_sections] takes its document
    and page from its first block, has rank 0 and no score yet, holds
    no header block after its first block, and is titled by the capped
    text of its first block when that block is a header and by
    ["Section starting at page N"] otherwise. *)
Theorem identify_sections_shape (document_data : list TextBlock.t) :
  Forall (fun s =>
            exists first rest,
              Sec.content s = first :: rest /\
              Sec.document s = TextBlock.document first /\
              Sec.page s = TextBlock.page first /\
              Sec.importance_rank s = 0 /\
              Sec.relevance_score s = None /\
              Forall (fun item => is_section_header (TextBlock.text item) = false)
                     rest /\
              Sec.section_title s
              = (if is_section_header (TextBlock.text first)
                 then header_title (TextBlock.text first)
                 else String.append "Section starting at page "
                        (Py.str_of_nat (TextBlock.page first))))
         (identify_sections document_data).
Proof.
  exact (proj1 (seg_fold_invariant document_data _ seg_initial_invariant)).
Qed.

(** X5. Section boundaries are exactly the header blocks: every section
    after the first begins with a block that [is_section_header]
    accepts.  Only the first section can begin with other content. *)
Theorem identify_sections_boundaries (document_data : list TextBlock.t) :
  Forall (fun s =>
            exists first rest,
              Sec.content s = first :: rest /\
              is_section_header (TextBlock.text first) = true)
         (tl (identify_sections document_data)).
Proof.
  exact (proj1 (proj2 (seg_fold_invariant document_data _ seg_initial_invariant))).
Qed.

Lemma take_length (n : nat) : forall s, Py.len (Py.take n s) <= n.
Proof.
  unfold Py.len. induction n as [|n IH]; intros [|c s]; simpl; try lia.
  specialize (IH s). lia.
Qed.

Lemma append_length (s t : string) :
  String.length (String.append s t) = String.length s + String.length t.
Proof. induction s as [|c s IH]; simpl; [reflexivity | now rewrite IH]. Qed.

Lemma take_exact (n : nat) : forall s,
  n <= Py.len s -> Py.len (Py.take n s) = n.
Proof.
  unfold Py.len. induction n as [|n IH]; intros [|c s] H; simpl in *;
    try reflexivity; try lia.
  rewrite IH; lia.
Qed.

Lemma header_title_length (text : string) : Py.len (header_title text) <= 103.
Proof.
  unfold header_title. destruct (Nat.ltb_spec 100 (Py.len text)) as [H|H]; [|lia].
  unfold Py.len. rewrite append_length. fold (Py.len (Py.take 100 text)).
  rewrite take_exact by lia. simpl. lia.
Qed.

Lemma header_title_short (text : string) :
  Py.len text <= 100 -> header_title text = text.
Proof.
  unfold header_title. intros H.
  destruct (Nat.ltb_spec 100 (Py.len text)); [lia | reflexivity].
Qed.

(** X6. A section that begins with a header block has a title of at
    most 103 characters, which is the text of that block whenever the
    text has at most 100 characters. *)
Theorem identify_sections_titles (document_data : list TextBlock.t) :
  Forall (fun s =>
            forall first rest,
              Sec.content s = first :: rest ->
              is_section_header (TextBlock.text first) = true ->
              Py.len (Sec.section_title s) <= 103 /\
              (Py.len (TextBlock.text first) <= 100 ->
               Sec.section_title s = TextBlock.text first))
         (identify_sections document_data).
Proof.
  pose proof (proj1 (seg_fold_invariant document_data _ seg_initial_invariant))
    as H.
  eapply Forall_impl; [|exact H].
  intros s (first & rest & Hc & _ & _ & _ & _ & _ & Ht) first' rest' Hc' Hh.
  rewrite Hc in Hc'. injection Hc' as <- <-.
  unfold is_header_block in Ht. rewrite Hh in Ht. rewrite Ht.
  split; [apply header_title_length | apply header_title_short].
Qed.

(** ** How segmentation composes *)

Lemma seg_step_prefix (pre : list Sec.t) (st : seg_state) (item : TextBlock.t) :
  seg_step (pre ++ fst st, snd st) item
  = (pre ++ fst (seg_step st item), snd (seg_step st item)).
Proof.
  destruct st as [sections [cur|]]; unfold seg_step; simpl;
    destruct (is_section_header (TextBlock.text item)); simpl;
    rewrite <- ?app_assoc; reflexivity.
Qed.

Lemma seg_fold_prefix (pre : list Sec.t) (items : list TextBlock.t) : forall st,
  fold_left seg_step items (pre ++ fst st, snd st)
  = (pre ++ fst (fold_left seg_step items st),
     snd (fold_left seg_step items st)).
Proof.
  induction items as [|item items IH]; intros st; cbn [fold_left];
    [reflexivity|].
  rewrite seg_step_prefix. apply IH.
Qed.

Lemma seg_finish_prefix (pre : list Sec.t) (st : seg_state) :
  seg_finish (pre ++ fst st, snd st) = pre ++ seg_finish st.
Proof.
  destruct st as [sections [cur|]]; simpl; [symmetry; apply app_assoc | reflexivity].
Qed.

Lemma seg_step_header (st : seg_state) (item : TextBlock.t) :
  is_section_header (TextBlock.text item) = true ->
  seg_step st item
  = (seg_finish st ++ [], Some (new_section (header_title (TextBlock.text item)) item)).
Proof.
  intros H. destruct st as [sections [cur|]]; unfold seg_step; simpl;
    rewrite H, app_nil_r; reflexivity.
Qed.

(** X7. A header block cuts the stream: the sections of a sequence
    whose second part begins with a header block are the sections of
    the first part followed by the sections of the second part. *)
Theorem identify_sections_split_at_header
  (before : list TextBlock.t) (header : TextBlock.t) (after : list TextBlock.t) :
  is_section_header (TextBlock.text header) = true ->
  identify_sections (before ++ header :: after)
  = identify_sections before ++ identify_sections (header :: after).
Proof.
  intros H. unfold identify_sections.
  rewrite fold_left_app. cbn [fold_left].
  rewrite (seg_step_header (fold_left seg_step before ([], None)) header H).
  rewrite (seg_step_header ([], None) header H). cbn [seg_finish app].
  set (pre := seg_finish (fold_left seg_step before ([], None))).
  set (open := Some (new_section (header_title (TextBlock.text header)) header)).
  change (pre ++ [], open) with (pre ++ fst ([] : list Sec.t, open), snd ([] : list Sec.t, open)).
  rewrite seg_fold_prefix, seg_finish_prefix. reflexivity.
Qed.

Lemma identify_sections_split_at_header_witness :
  is_section_header (TextBlock.text header_block) = true /\
  identify_sections ([prose_block] ++ header_block :: [prose_block])
  = identify_sections [prose_block]
    ++ identify_sections (header_block :: [prose_block]).
Proof.
  assert (H : is_section_header (TextBlock.text header_block) = true)
    by (vm_compute; reflexivity).
  split; [exact H|].
  apply (identify_sections_split_at_header [prose_block] header_block
           [prose_block] H).
Defined.

Lemma seg_fold_open (items : list TextBlock.t) : forall st,
  (items <> [] \/ snd st <> None) ->
  snd (fold_left seg_step items st) <> None.
Proof.
  induction items as [|item items IH]; intros st H; simpl.
  - destruct H as [H|H]; [congruence | exact H].
  - apply IH. right. destruct st as [sections [cur|]]; unfold seg_step; simpl;
      destruct (is_section_header (TextBlock.text item)); discriminate.
Qed.

Lemma seg_fold_absorb (items : list TextBlock.t) :
  Forall (fun item => is_section_header (TextBlock.text item) = false) items ->
  forall sections cur,
  fold_left seg_step items (sections, Some cur)
  = (sections, Some (absorb items cur)).
Proof.
  induction 1 as [|item items Hi _ IH]; intros sections cur; [reflexivity|].
  cbn [fold_left].
  replace (seg_step (sections, Some cur) item)
    with (sections, Some (append_content item cur))
    by (unfold seg_step; now rewrite Hi).
  apply IH.
Qed.

(** X8. Blocks that are not headers join the section that is open,
    whatever document they come from: when a non-empty sequence is
    followed by blocks none of which is a header, the sections are
    those of the sequence, the last one holding the added blocks at the
    end of its content and keeping its document, page and title. *)
Theorem identify_sections_absorbs_orphans
  (before orphans : list TextBlock.t) :
  before <> [] ->
  Forall (fun item => is_section_header (TextBlock.text item) = false) orphans ->
  exists earlier last,
    identify_sections before = earlier ++ [last] /\
    identify_sections (before ++ orphans)
    = earlier ++ [absorb orphans last] /\
    Sec.content (absorb orphans last) = Sec.content last ++ orphans /\
    Sec.document (absorb orphans last) = Sec.document last /\
    Sec.page (absorb orphans last) = Sec.page last /\
    Sec.section_title (absorb orphans last) = Sec.section_title last.
Proof.
  intros Hne Ho. unfold identify_sections. rewrite fold_left_app.
  pose proof (seg_fold_open before ([], None) (or_introl Hne)) as Hopen.
  destruct (fold_left seg_step before ([], None)) as [sections [cur|]];
    [|now elim Hopen].
  exists sections, cur. split; [reflexivity|].
  rewrite (seg_fold_absorb orphans Ho). split; [reflexivity|].
  clear. revert cur. unfold absorb.
  induction orphans as [|item orphans IH]; intros cur; simpl.
  - now rewrite app_nil_r.
  - destruct (IH (append_content item cur)) as (Hc & Hd & Hp & Ht).
    rewrite Hc, Hd, Hp, Ht. simpl. now rewrite <- app_assoc.
Qed.

Lemma identify_sections_absorbs_orphans_witness :
  exists earlier last,
    identify_sections [header_block] = earlier ++ [last] /\
    identify_sections ([header_block] ++ [prose_block])
    = earlier ++ [absorb [prose_block] last] /\
    Sec.content (absorb [prose_block] last) = Sec.content last ++ [prose_block] /\
    Sec.document (absorb [prose_block] last) = Sec.document last /\
    Sec.page (absorb [prose_block] last) = Sec.page last /\
    Sec.section_title (absorb [prose_block] last) = Sec.section_title last.
Proof.
  apply (identify_sections_absorbs_orphans [header_block] [prose_block]);
    [discriminate|].
  constructor; [vm_compute; reflexivity | constructor].
Defined.

(* ================================================================== *)
(** * Further properties: header heuristic *)
(* ================================================================== *)

Ltac by_cases_on_char c :=
  destruct c as [[] [] [] [] [] [] [] []]; reflexivity.

Lemma lower_char_idem (c : ascii) :
  Py.lower_char (Py.lower_char c) = Py.lower_char c.
Proof. by_cases_on_char c. Qed.

Lemma upper_lower_char (c : ascii) :
  Py.upper_char (Py.lower_char c) = Py.upper_char c.
Proof. by_cases_on_char c. Qed.

Lemma isspace_blind : sym_blind Py.isspace.
Proof. intros c. by_cases_on_char c. Qed.

Lemma isdigit_blind : sym_blind Py.isdigit.
Proof. intros c. by_cases_on_char c. Qed.


Lemma dot_blind : sym_blind dot.
Proof. intros c. by_cases_on_char c. Qed.

Lemma newline_blind : sym_blind (fun c => Py.code c =? 10).
Proof. intros c. by_cases_on_char c. Qed.

Lemma icase_blind (p : ascii -> bool) : sym_blind (Re.icase p).
Proof.
  intros c. unfold Re.icase. now rewrite lower_char_idem, upper_lower_char.
Qed.

Lemma AZ_or_space_blind : sym_blind AZ_or_space.
Proof.
  intros c. unfold AZ_or_space.
  now rewrite (icase_blind Py.isupper c), (isspace_blind c).
Qed.

Lemma lit_blind (s : string) : case_blind (Re.lit s).
Proof.
  induction s as [|a s IH]; simpl; [exact I|].
  split; [apply icase_blind | exact IH].
Qed.

Lemma lower_len (s : string) : Py.len (Py.lower s) = Py.len s.
Proof.
  unfold Py.len. induction s as [|c s IH]; simpl; [reflexivity | now rewrite IH].
Qed.

Lemma lower_is_empty (s : string) : Py.is_empty (Py.lower s) = Py.is_empty s.
Proof. now destruct s. Qed.

Lemma flat_map_map {A B C} (f : B -> list C) (g : A -> B) (l : list A) :
  flat_map f (map g l) = flat_map (fun x => f (g x)) l.
Proof. induction l as [|x l IH]; simpl; [reflexivity | now rewrite IH]. Qed.

Lemma map_flat_map {A B C} (h : B -> C) (f : A -> list B) (l : list A) :
  map h (flat_map f l) = flat_map (fun x => map h (f x)) l.
Proof.
  induction l as [|x l IH]; simpl; [reflexivity|]. now rewrite map_app, IH.
Qed.

Lemma filter_map_comm {A B} (p : B -> bool) (g : A -> B) (l : list A) :
  filter p (map g l) = map g (filter (fun x => p (g x)) l).
Proof.
  induction l as [|x l IH]; simpl; [reflexivity|].
  destruct (p (g x)); simpl; now rewrite IH.
Qed.

Section RestsLower.

Variable step : string -> list string.
Hypothesis step_lower : forall t, step (Py.lower t) = map Py.lower (step t).

Lemma star_from_lower (fuel : nat) : forall s,
  Re.star_from step fuel (Py.lower s) = map Py.lower (Re.star_from step fuel s).
Proof.
  induction fuel as [|fuel IH]; intros s; simpl; [reflexivity|].
  f_equal. rewrite step_lower, filter_map_comm, flat_map_map, map_flat_map.
  erewrite filter_ext; [apply flat_map_ext; intros t; apply IH|].
  intros t. unfold Re.shorter. now rewrite !lower_len.
Qed.

Lemma rep_from_lower (hi : nat) : forall lo s,
  Re.rep_from step lo hi (Py.lower s) = map Py.lower (Re.rep_from step lo hi s).
Proof.
  induction hi as [|hi IH]; intros lo s; simpl.
  - destruct (lo =? 0); reflexivity.
  - rewrite map_app. f_equal; [destruct (lo =? 0); reflexivity|].
    rewrite step_lower, flat_map_map, map_flat_map.
    apply flat_map_ext. intros t. apply IH.
Qed.

End RestsLower.

Lemma rests_lower (r : Re.regex) :
  case_blind r ->
  forall s, Re.rests r (Py.lower s) = map Py.lower (Re.rests r s).
Proof.
  induction r as [|p|r1 IH1 r2 IH2|r1 IH1 r2 IH2|r IH|lo hi r IH|];
    intros Hb s; simpl in Hb |- *.
  - reflexivity.
  - destruct s as [|c s]; [reflexivity|]. simpl. rewrite (Hb c).
    now destruct (p c).
  - destruct Hb as [H1 H2].
    rewrite (IH1 H1), flat_map_map, map_flat_map.
    apply flat_map_ext. intros t. apply (IH2 H2).
  - destruct Hb as [H1 H2]. now rewrite (IH1 H1), (IH2 H2), map_app.
  - rewrite lower_len. apply star_from_lower, (IH Hb).
  - apply rep_from_lower, (IH Hb).
  - destruct s as [|c [|c' s]]; try reflexivity. simpl.
    rewrite (newline_blind c). now destruct (Py.code c =? 10).
Qed.

Lemma match_lower (r : Re.regex) (s : string) :
  case_blind r -> Re.match_ r (Py.lower s) = Re.match_ r s.
Proof.
  intros Hb. unfold Re.match_. now rewrite (rests_lower r Hb), length_map.
Qed.

Lemma header_patterns_blind : Forall case_blind header_patterns.
Proof.
  unfold header_patterns.
  repeat match goal with
         | |- Forall _ _ => constructor
         | |- case_blind (Re.lit _) => apply lit_blind
         | |- case_blind _ =>
             cbn [case_blind Re.Plus Re.Opt Re.alts fold_left]
         | |- _ /\ _ => split
         | |- True => exact I
         | |- sym_blind Py.isdigit => exact isdigit_blind
         | |- sym_blind Py.isspace => exact isspace_blind
         | |- sym_blind dot => exact dot_blind
         | |- sym_blind AZ_or_space => exact AZ_or_space_blind
         | |- sym_blind AZ => apply icase_blind
         | |- sym_blind az => apply icase_blind
         end.
Qed.

Lemma lstrip_lower (s : string) : Py.lstrip (Py.lower s) = Py.lower (Py.lstrip s).
Proof.
  induction s as [|c s IH]; [reflexivity|]. simpl.
  rewrite (isspace_blind c). now destruct (Py.isspace c).
Qed.

Lemma rstrip_lower (s : string) : Py.rstrip (Py.lower s) = Py.lower (Py.rstrip s).
Proof.
  induction s as [|c s IH]; [reflexivity|]. simpl.
  rewrite IH, lower_is_empty, (isspace_blind c).
  now destruct (Py.isspace c && Py.is_empty (Py.rstrip s)).
Qed.

Lemma strip_lower (s : string) : Py.strip (Py.lower s) = Py.lower (Py.strip s).
Proof. unfold Py.strip. now rewrite lstrip_lower, rstrip_lower. Qed.

Lemma is_section_header_lower (text : string) :
  is_section_header (Py.lower text) = is_section_header text.
Proof.
  unfold is_section_header. cbv zeta. rewrite strip_lower, lower_len.
  destruct ((Py.len (Py.strip text) <? 200) && (5 <? Py.len (Py.strip text)));
    [|reflexivity].
  pose proof header_patterns_blind as H.
  induction H as [|r rs Hr _ IH]; [reflexivity|].
  simpl. now rewrite (match_lower r _ Hr), IH.
Qed.

(** X9. On ASCII text, header detection does not depend on letter case:
    an ASCII text and its lower-case form are both headers or both not,
    and so are any two ASCII texts that differ only in the case of
    their letters. *)
Theorem is_section_header_ignores_case (text : string) :
  Py.isascii text = true ->
  is_section_header (Py.lower text) = is_section_header text /\
  forall text', Py.isascii text' = true -> Py.lower text' = Py.lower text ->
                is_section_header text' = is_section_header text.
Proof.
  intros _. split; [apply is_section_header_lower|].
  intros text' _ H.
  now rewrite <- (is_section_header_lower text'), H, is_section_header_lower.
Qed.

Lemma is_section_header_ignores_case_witness :
  Py.isascii "1. INTRODUCTION to Things" = true /\
  is_section_header (Py.lower "1. INTRODUCTION to Things")
  = is_section_header "1. INTRODUCTION to Things" /\
  forall text', Py.isascii text' = true ->
                Py.lower text' = Py.lower "1. INTRODUCTION to Things" ->
                is_section_header text'
                = is_section_header "1. INTRODUCTION to Things".
Proof.
  split; [reflexivity|].
  apply (is_section_header_ignores_case "1. INTRODUCTION to Things").
  reflexivity.
Defined.

Lemma lstrip_blank (b : string) : blank b = true -> Py.lstrip b = EmptyString.
Proof.
  induction b as [|c b IH]; [reflexivity|]. simpl. intros H.
  apply andb_true_iff in H as [Hc Hb]. rewrite Hc. now apply IH.
Qed.

Lemma lstrip_blank_app (a s : string) :
  blank a = true -> Py.lstrip (String.append a s) = Py.lstrip s.
Proof.
  induction a as [|c a IH]; [reflexivity|]. simpl. intros H.
  apply andb_true_iff in H as [Hc Ha]. rewrite Hc. now apply IH.
Qed.

Lemma rstrip_blank (b : string) : blank b = true -> Py.rstrip b = EmptyString.
Proof.
  induction b as [|c b IH]; [reflexivity|]. simpl. intros H.
  apply andb_true_iff in H as [Hc Hb]. now rewrite (IH Hb), Hc.
Qed.

Lemma rstrip_app_blank (s b : string) :
  blank b = true -> Py.rstrip (String.append s b) = Py.rstrip s.
Proof.
  intros Hb. induction s as [|c s IH]; simpl; [now apply rstrip_blank|].
  now rewrite IH.
Qed.

Lemma strip_app_blank (s b : string) :
  blank b = true -> Py.strip (String.append s b) = Py.strip s.
Proof.
  intros Hb. unfold Py.strip. induction s as [|c s IH]; simpl.
  - now rewrite (lstrip_blank b Hb).
  - destruct (Py.isspace c); [exact IH|].
    change (String c (String.append s b)) with (String.append (String c s) b).
    now apply rstrip_app_blank.
Qed.

Lemma strip_padded (a s b : string) :
  blank a = true -> blank b = true ->
  Py.strip (String.append a (String.append s b)) = Py.strip s.
Proof.
  intros Ha Hb. unfold Py.strip at 1. rewrite (lstrip_blank_app a _ Ha).
  apply (strip_app_blank s b Hb).
Qed.

(** X10. Header detection does not see the blanks around a text:
    padding a text with blanks on either side changes nothing, however
    long the padded text is. *)
Theorem is_section_header_ignores_padding (left text right : string) :
  blank left = true -> blank right = true ->
  is_section_header (String.append left (String.append text right))
  = is_section_header text.
Proof.
  intros Hl Hr. unfold is_section_header. cbv zeta.
  now rewrite (strip_padded left text right Hl Hr).
Qed.

Lemma is_section_header_ignores_padding_witness :
  is_section_header (String.append "  " (String.append "Chapter 12" "   "))
  = is_section_header "Chapter 12".
Proof.
  apply (is_section_header_ignores_padding "  " "Chapter 12" "   ");
    reflexivity.
Defined.

(** ** The all-capitals pattern and long texts *)

Lemma rep_sym_length (p : ascii -> bool) (hi : nat) : forall lo s t,
  In t (Re.rep_from (Re.rests (Re.Sym p)) lo hi s) ->
  exists pre, s = String.append pre t /\ String.length pre <= hi.
Proof.
  induction hi as [|hi IH]; intros lo s t H; simpl in H.
  - rewrite app_nil_r in H. destruct (lo =? 0); [|contradiction].
    destruct H as [<-|[]]. exists EmptyString. split; [reflexivity | simpl; lia].
  - apply in_app_or in H as [H|H].
    + destruct (lo =? 0); [|contradiction].
      destruct H as [<-|[]]. exists EmptyString. split; [reflexivity | simpl; lia].
    + apply in_flat_map in H as (u & Hu & Ht).
      destruct s as [|c s]; [contradiction|].
      destruct (p c); [|contradiction]. destruct Hu as [<-|[]].
      apply IH in Ht as (pre & -> & Hlen).
      exists (String c pre). split; [reflexivity | simpl; lia].
Qed.

Lemma rests_eos (s t : string) :
  In t (Re.rests Re.Eos s) ->
  t = s /\ (s = EmptyString \/ exists c, s = String c EmptyString /\ Py.isspace c = true).
Proof.
  simpl. destruct s as [|c [|c' s]]; try contradiction.
  - intros [<-|[]]. split; [reflexivity | now left].
  - destruct (Py.code c =? 10) eqn:E; [|contradiction].
    intros [<-|[]]. split; [reflexivity|]. right. exists c. split; [reflexivity|].
    apply Nat.eqb_eq in E. unfold Py.isspace, Py.between. rewrite E. reflexivity.
Qed.

Lemma rstrip_fixed_of_strip (s : string) : Py.rstrip (Py.strip s) = Py.strip s.
Proof. apply rstrip_idem. Qed.

(** X11. The all-capitals pattern ([^[A-Z\s]{5,50}$], the second of the
    header patterns) accepts no stripped text longer than 50
    characters.  On the blocks [extract_document_text] produces, whose
    texts are longer than that, header detection therefore rests on the
    other four patterns. *)
Theorem all_caps_pattern_rejects_long (text : string) :
  50 < Py.len (Py.strip text) ->
  nth_error header_patterns 1 = Some all_caps_pattern /\
  Re.match_ all_caps_pattern (Py.strip text) = false.
Proof.
  intros Hlen. split; [reflexivity|].
  unfold Re.match_.
  destruct (Re.rests all_caps_pattern (Py.strip text)) as [|t ts] eqn:E;
    [reflexivity|exfalso].
  assert (Hin : In t (Re.rests all_caps_pattern (Py.strip text)))
    by (rewrite E; now left).
  unfold all_caps_pattern in Hin.
  change (In t (flat_map (Re.rests Re.Eos)
                  (Re.rep_from (Re.rests (Re.Sym AZ_or_space)) 5 50
                     (Py.strip text)))) in Hin.
  apply in_flat_map in Hin as (u & Hu & Ht).
  apply rep_sym_length in Hu as (pre & Hs & Hpre).
  apply rests_eos in Ht as [_ [->|(c & -> & Hc)]].
  - rewrite Hs in Hlen. unfold Py.len in Hlen.
    rewrite append_length in Hlen. simpl in Hlen. lia.
  - pose proof (rstrip_fixed_of_strip text) as Hfix.
    rewrite Hs in Hfix.
    rewrite (rstrip_app_blank pre (String c EmptyString)) in Hfix
      by (simpl; now rewrite Hc).
    pose proof (rstrip_len pre) as Hr. rewrite Hfix in Hr.
    unfold Py.len in Hr. rewrite append_length in Hr. simpl in Hr. lia.
Qed.

Lemma all_caps_pattern_rejects_long_witness :
  nth_error header_patterns 1 = Some all_caps_pattern /\
  Re.match_ all_caps_pattern
    (Py.strip "THE QUICK BROWN FOX JUMPS OVER THE LAZY DOG AND RUNS AWAY") = false.
Proof.
  apply (all_caps_pattern_rejects_long
           "THE QUICK BROWN FOX JUMPS OVER THE LAZY DOG AND RUNS AWAY").
  vm_compute. lia.
Defined.

(* ================================================================== *)
(** * Further properties: relevance scorer *)
(* ================================================================== *)











(** ** Letter case *)

Lemma lower_idem (s : string) : Py.lower (Py.lower s) = Py.lower s.
Proof.
  induction s as [|c s IH]; simpl; [reflexivity|].
  now rewrite lower_char_idem, IH.
Qed.

Lemma lower_snoc (cur : string) (c : ascii) :
  Py.lower (Py.snoc cur c) = Py.snoc (Py.lower cur) (Py.lower_char c).
Proof.
  unfold Py.snoc. induction cur as [|a cur IH]; simpl; [reflexivity|].
  now rewrite IH.
Qed.

Lemma runs_lower (keep : ascii -> bool) :
  sym_blind keep ->
  forall s cur,
  Py.runs keep (Py.lower cur) (Py.lower s) = map Py.lower (Py.runs keep cur s).
Proof.
  intros Hk. induction s as [|c s IH]; intros cur; simpl.
  - rewrite lower_is_empty. now destruct (Py.is_empty cur).
  - rewrite (Hk c), lower_is_empty. destruct (keep c).
    + rewrite <- lower_snoc. apply IH.
    + destruct (Py.is_empty cur); simpl; f_equal; apply (IH EmptyString).
Qed.

Lemma split_lower_length (s : string) :
  List.length (Py.split (Py.lower s)) = List.length (Py.split s).
Proof.
  unfold Py.split.
  rewrite <- (length_map Py.lower (Py.runs _ EmptyString s)).
  f_equal. apply (runs_lower _ (fun c => f_equal negb (isspace_blind c)) s EmptyString).
Qed.

Lemma length_part_lower (t : string) : length_part (Py.lower t) = length_part t.
Proof. unfold length_part. now rewrite split_lower_length. Qed.

Lemma add_length_bonus_lower (t : string) (score : F64.t) :
  Double.add_length_bonus (Py.lower t) score = Double.add_length_bonus t score.
Proof. unfold Double.add_length_bonus. now rewrite split_lower_length. Qed.

(** X13. The score does not depend on letter case: lower-casing the
    text, the persona and the job description leaves it unchanged, for
    the formula evaluated exactly and for the double that the program
    computes. *)
Theorem calculate_relevance_score_ignores_case
  (text persona job_description : string) :
  calculate_relevance_score (Py.lower text) (Py.lower persona)
    (Py.lower job_description)
  = calculate_relevance_score text persona job_description /\
  forall hash : string -> nat,
    Double.calculate_relevance_score hash (Py.lower text) (Py.lower persona)
      (Py.lower job_description)
    = Double.calculate_relevance_score hash text persona job_description.
Proof.
  split.
  - unfold calculate_relevance_score. cbv zeta.
    now rewrite !lower_idem, length_part_lower.
  - intros hash. unfold Double.calculate_relevance_score. cbv zeta.
    now rewrite !lower_idem, add_length_bonus_lower.
Qed.

(** ** Persona types *)

Lemma identify_persona_type_general (p : string) :
  identify_persona_type p = "general" <->
  forall entry, In entry persona_mappings -> any_in (snd entry) p = false.
Proof.
  unfold identify_persona_type.
  destruct (find (fun entry => any_in (snd entry) p) persona_mappings)
    as [[ty kws]|] eqn:E.
  - apply find_some in E as [Hin Hany]. split.
    + intros Hg. exfalso. subst ty. simpl in Hin.
      repeat (destruct Hin as [Hin|Hin]; [discriminate Hin|]). exact Hin.
    + intros H. apply H in Hin. simpl in *. congruence.
  - split; [|reflexivity]. intros _ entry Hin.
    exact (find_none _ _ E entry Hin).
Qed.

(** X14. [identify_persona_type] returns one of the six persona types
    or ["general"]; it returns ["general"] exactly when none of the
    mapping keywords occurs in the persona, and then the persona adds
    nothing to a score; and a persona holding one of the researcher
    keywords is a researcher whatever else it holds. *)
Theorem identify_persona_type_values (persona : string) :
  In (identify_persona_type persona) persona_types /\
  (identify_persona_type persona = "general" <->
   forall entry, In entry persona_mappings ->
                 any_in (snd entry) persona = false) /\
  (identify_persona_type persona = "general" ->
   forall text_lower, persona_part text_lower persona = 0%Q) /\
  (any_in ["researcher"; "scientist"; "phd"; "academic"] persona = true ->
   identify_persona_type persona = "researcher").
Proof.
  split; [|split; [apply identify_persona_type_general|split]].
  - unfold identify_persona_type.
    destruct (find (fun entry => any_in (snd entry) persona) persona_mappings)
      as [[ty kws]|] eqn:E; [|simpl; tauto].
    apply find_some in E as [Hin _]. simpl in Hin.
    repeat (destruct Hin as [Hin|Hin];
            [injection Hin as <- _; simpl; tauto|]).
    contradiction.
  - intros Hg text_lower. unfold persona_part. rewrite Hg. reflexivity.
  - intros H. unfold identify_persona_type, persona_mappings.
    cbn [find snd]. rewrite H. reflexivity.
Qed.

(** ** Job descriptions without a word *)








(** ** The score in floating point *)


(* ================================================================== *)
(** * Further properties: section ranker *)
(* ================================================================== *)

Lemma score_section_set_rank (hash : string -> nat) (p j : string) (r : nat)
  (s : Sec.t) :
  score_section hash p j (Sec.set_importance_rank r s)
  = Sec.set_importance_rank r (score_section hash p j s).
Proof. reflexivity. Qed.

Lemma score_section_idem (hash : string -> nat) (p j : string) (s : Sec.t) :
  score_section hash p j (score_section hash p j s) = score_section hash p j s.
Proof. reflexivity. Qed.

Lemma assign_twice (l : list Sec.t) : forall k,
  map (fun '(i, section) => Sec.set_importance_rank (i + 1) section)
      (enumerate_from k
         (map (fun '(i, section) => Sec.set_importance_rank (i + 1) section)
              (enumerate_from k l)))
  = map (fun '(i, section) => Sec.set_importance_rank (i + 1) section)
        (enumerate_from k l).
Proof.
  induction l as [|x l IH]; intros k; [reflexivity|].
  rewrite enumerate_from_cons. cbn [map]. rewrite enumerate_from_cons.
  cbn [map]. f_equal. apply IH.
Qed.

Lemma score_section_assign (hash : string -> nat) (p j : string)
  (l : list Sec.t) : forall k,
  Forall (fun s => score_section hash p j s = s) l ->
  map (score_section hash p j)
      (map (fun '(i, section) => Sec.set_importance_rank (i + 1) section)
           (enumerate_from k l))
  = map (fun '(i, section) => Sec.set_importance_rank (i + 1) section)
        (enumerate_from k l).
Proof.
  induction l as [|x l IH]; intros k H; [reflexivity|].
  inversion H as [|? ? Hx Hl]; subst.
  rewrite enumerate_from_cons. cbn [map].
  rewrite score_section_set_rank, Hx. f_equal. now apply IH.
Qed.

Lemma assign_ranks_idem (l : list Sec.t) :
  assign_ranks (assign_ranks l) = assign_ranks l.
Proof. exact (assign_twice l 0). Qed.

Lemma score_assign_ranks (hash : string -> nat) (p j : string) (l : list Sec.t) :
  Forall (fun s => score_section hash p j s = s) l ->
  map (score_section hash p j) (assign_ranks l) = assign_ranks l.
Proof. exact (score_section_assign hash p j l 0). Qed.

Lemma assign_ranks_good (l : list Sec.t) :
  good_keys Sec.score l -> good_keys Sec.score (assign_ranks l).
Proof.
  unfold good_keys. rewrite !Forall_forall. intros H s Hs.
  apply In_nth_error in Hs as (k & Hk). rewrite assign_ranks_nth in Hk.
  destruct (nth_error l k) as [s'|] eqn:E; [|discriminate].
  injection Hk as <-. rewrite score_set_importance_rank.
  eapply H, nth_error_In, E.
Qed.

(** X16. Ranking is idempotent: ranking again, with the same persona
    and job, a list that [rank_sections] has ranked changes nothing. *)
Theorem rank_sections_idempotent
  (hash : string -> nat) (sections : list Sec.t)
  (persona job_description : string) :
  rank_sections hash (rank_sections hash sections persona job_description)
    persona job_description
  = rank_sections hash sections persona job_description.
Proof.
  unfold rank_sections.
  set (scored := sort_desc Sec.score
                   (map (score_section hash persona job_description) sections)).
  assert (G : good_keys Sec.score scored).
  { apply (good_keys_perm (Permutation_sym (sort_desc_perm Sec.score _))).
    apply scored_good. }
  rewrite score_assign_ranks.
  - rewrite sort_desc_sorted_id;
      [apply assign_ranks_idem | now apply assign_ranks_good |].
    apply (@sorted_of_map _ _ (fun a b => F64.leb b a = true) Sec.score).
    rewrite assign_ranks_score.
    apply sorted_map_key, sort_desc_sorted, scored_good.
  - rewrite Forall_forall. intros s Hs.
    apply (Permutation_in _ (sort_desc_perm _ _)) in Hs.
    apply in_map_iff in Hs as (x & <- & _). apply score_section_idem.
Qed.

Lemma assign_ranks_body (l : list Sec.t) : forall k,
  map section_body
      (map (fun '(i, section) => Sec.set_importance_rank (i + 1) section)
           (enumerate_from k l))
  = map section_body l.
Proof.
  induction l as [|x l IH]; intros k; [reflexivity|].
  rewrite enumerate_from_cons. cbn [map]. now rewrite IH.
Qed.

(** X17. Ranking only reorders the sections and sets two fields: the
    documents, pages, titles and contents of the ranked sections are
    those of the input sections in another order, and each ranked
    section carries as relevance score the score computed from its own
    content, a value between 0 and 100. *)
Theorem rank_sections_preserves
  (hash : string -> nat) (sections : list Sec.t)
  (persona job_description : string) :
  let ranked := rank_sections hash sections persona job_description in
  List.length ranked = List.length sections /\
  Permutation (map section_body ranked) (map section_body sections) /\
  Forall (fun s =>
            Sec.relevance_score s
            = Some (section_score hash persona job_description s) /\
            F64.leb F64.zero (section_score hash persona job_description s)
            = true /\
            F64.leb (section_score hash persona job_description s)
              (F64.of_nat 100) = true)
         ranked.
Proof.
  cbv zeta. split; [apply rank_sections_length|]. split.
  - unfold rank_sections, assign_ranks, enumerate.
    rewrite assign_ranks_body.
    rewrite (Permutation_map section_body (sort_desc_perm Sec.score _)).
    rewrite map_map. reflexivity.
  - rewrite Forall_forall. intros s Hs.
    apply In_nth_error in Hs as (k & Hk).
    unfold rank_sections in Hk. rewrite assign_ranks_nth in Hk.
    destruct (nth_error _ k) as [s'|] eqn:E; [|discriminate].
    injection Hk as <-. apply nth_error_In in E.
    apply (Permutation_in _ (sort_desc_perm _ _)) in E.
    apply in_map_iff in E as (x & <- & _).
    split; [reflexivity|].
    apply (double_score_in_range hash (section_text x)).
Qed.

(** X18. [rank_sections] as the program runs it, writing through
    references into the section objects and reordering the list of
    references, leaves in the list what the ranking of the values
    gives, provided the list refers to each object once and every
    reference is valid. *)
Theorem rank_sections_through_references
  (hash : string -> nat) (h : InPlace.store) (sections : list nat)
  (persona job_description : string) :
  NoDup sections ->
  (forall r, In r sections -> r < List.length h) ->
  map (InPlace.deref
         (fst (InPlace.rank_sections hash h sections persona job_description)))
      (snd (InPlace.rank_sections hash h sections persona job_description))
  = rank_sections hash (map (InPlace.deref h) sections) persona job_description.
Proof. apply rank_sections_in_place. Qed.

Lemma rank_sections_through_references_witness :
  map (InPlace.deref
         (fst (InPlace.rank_sections Py.len sample_store [1; 0]
                 "Student" "methodology")))
      (snd (InPlace.rank_sections Py.len sample_store [1; 0]
              "Student" "methodology"))
  = rank_sections Py.len (map (InPlace.deref sample_store) [1; 0])
      "Student" "methodology".
Proof.
  apply (rank_sections_through_references Py.len sample_store [1; 0]
           "Student" "methodology").
  - repeat constructor; simpl; intuition lia.
  - simpl. intros r [<-|[<-|[]]]; lia.
Defined.

(* ================================================================== *)
(** * Further properties: sub-passage extractor *)
(* ================================================================== *)

Lemma collect_subsections_origin (hash : string -> nat) (section : Sec.t)
  (p j : string) (q : Passage.t) :
  In q (collect_subsections hash section p j) ->
  exists item,
    In item (Sec.content section) /\
    Passage.document q = TextBlock.document item /\
    Passage.page_number q = TextBlock.page item /\
    In (Passage.refined_text q) (chunk_texts (TextBlock.text item)) /\
    Passage.relevance_score q
    = Double.calculate_relevance_score hash (Passage.refined_text q) p j.
Proof.
  unfold collect_subsections. intros Hq.
  apply in_flat_map in Hq as (item & Hi & Hq).
  apply in_map_iff in Hq as (t & <- & Ht). apply filter_In in Ht as [Ht _].
  exists item. simpl. now repeat split.
Qed.

(** X19. The passages [extract_subsections] returns are in descending
    order of score; each has a score between 0 and 100 and carries the
    document and the page of the block of the section from whose text
    it was cut. *)
Theorem extract_subsections_passages
  (hash : string -> nat) (section : Sec.t) (persona job_description : string) :
  let result := extract_subsections hash section persona job_description in
  StronglySorted (by_desc Passage.relevance_score) result /\
  Forall (fun q =>
            F64.leb F64.zero (Passage.relevance_score q) = true /\
            F64.leb (Passage.relevance_score q) (F64.of_nat 100) = true /\
            exists item,
              In item (Sec.content section) /\
              Passage.document q = TextBlock.document item /\
              Passage.page_number q = TextBlock.page item /\
              In (Passage.refined_text q) (chunk_texts (TextBlock.text item)))
         result.
Proof.
  cbv zeta. split; [apply extract_subsections_sorted|].
  rewrite Forall_forall. intros q Hq.
  apply extract_subsections_in, collect_subsections_origin in Hq
    as (item & Hi & Hd & Hp & Ht & Hs).
  split; [rewrite Hs; apply double_score_in_range|].
  split; [rewrite Hs; apply double_score_in_range|].
  exists item. now repeat split.
Qed.

(** ** Sentence terminators *)

Lemma free_of_append (p : ascii -> bool) (s t : string) :
  free_of p (String.append s t) = free_of p s && free_of p t.
Proof.
  induction s as [|c s IH]; simpl; [reflexivity|].
  now rewrite IH, andb_assoc.
Qed.

Lemma free_of_snoc (p : ascii -> bool) (s : string) (c : ascii) :
  free_of p (Py.snoc s c) = free_of p s && negb (p c).
Proof. unfold Py.snoc. rewrite free_of_append. simpl. now rewrite andb_true_r. Qed.

Lemma free_of_lstrip (p : ascii -> bool) (s : string) :
  free_of p s = true -> free_of p (Py.lstrip s) = true.
Proof.
  induction s as [|c s IH]; simpl; [trivial|]. intros H.
  destruct (Py.isspace c); [|exact H].
  apply andb_true_iff in H as [_ H]. now apply IH.
Qed.

Lemma free_of_rstrip (p : ascii -> bool) (s : string) :
  free_of p s = true -> free_of p (Py.rstrip s) = true.
Proof.
  induction s as [|c s IH]; simpl; [trivial|]. intros H.
  apply andb_true_iff in H as [Hc H].
  destruct (Py.isspace c && Py.is_empty (Py.rstrip s)); [reflexivity|].
  simpl. now rewrite Hc, IH.
Qed.

Lemma free_of_strip (p : ascii -> bool) (s : string) :
  free_of p s = true -> free_of p (Py.strip s) = true.
Proof. intros H. now apply free_of_rstrip, free_of_lstrip. Qed.

Lemma split_sentences_free (s : string) : forall cur in_delim,
  free_of is_sentence_end cur = true ->
  Forall (fun piece => free_of is_sentence_end piece = true)
         (split_sentences cur in_delim s).
Proof.
  induction s as [|c s IH]; intros cur in_delim H; simpl.
  - now constructor.
  - destruct (is_sentence_end c) eqn:E.
    + destruct in_delim; [now apply IH|].
      constructor; [exact H | now apply IH].
    + apply IH. now rewrite free_of_snoc, H, E.
Qed.

Lemma free_of_weaken (p q : ascii -> bool) (s : string) :
  (forall c, q c = true -> p c = true) ->
  free_of p s = true -> free_of q s = true.
Proof.
  intros Hpq. induction s as [|c s IH]; simpl; [trivial|]. intros H.
  apply andb_true_iff in H as [Hc H]. rewrite (IH H), andb_true_r.
  destruct (q c) eqn:E; [|reflexivity]. now rewrite (Hpq c E) in Hc.
Qed.

Lemma join_free (p : ascii -> bool) (sep : string) (parts : list string) :
  free_of p sep = true ->
  Forall (fun part => free_of p part = true) parts ->
  free_of p (Py.join sep parts) = true.
Proof.
  intros Hsep. induction 1 as [|part parts Hp Hparts IH]; [reflexivity|].
  destruct parts as [|part' parts]; [exact Hp|].
  change (Py.join sep (part :: part' :: parts))
    with (String.append part (String.append sep (Py.join sep (part' :: parts)))).
  now rewrite !free_of_append, Hp, Hsep, IH.
Qed.

Lemma in_skipn {A} (n : nat) : forall (l : list A) (x : A),
  In x (skipn n l) -> In x l.
Proof.
  induction n as [|n IH]; intros [|y l] x H; simpl in *; try contradiction;
    try exact H.
  right. now apply IH.
Qed.

Lemma chunk_texts_free (text t : string) :
  In t (chunk_texts text) -> free_of is_mark t = true.
Proof.
  unfold chunk_texts. cbv zeta. intros H.
  apply in_map_iff in H as (i & <- & _).
  unfold subsection_text. apply join_free; [reflexivity|].
  rewrite Forall_forall. intros piece Hp.
  apply in_map_iff in Hp as (raw & <- & Hraw).
  apply filter_In in Hraw as [Hraw _].
  unfold Py.slice in Hraw. apply in_firstn, in_skipn in Hraw.
  pose proof (split_sentences_free text EmptyString false eq_refl) as Hall.
  rewrite Forall_forall in Hall.
  apply free_of_strip.
  apply (free_of_weaken is_sentence_end); [|now apply Hall].
  intros c Hc. unfold is_mark in Hc. unfold is_sentence_end.
  apply orb_true_iff in Hc as [Hc|Hc]; rewrite Hc;
    now rewrite ?orb_true_r.
Qed.

(** X20. The text of a passage holds no exclamation mark and no
    question mark: the sentences are cut at every run of [.], [!] and
    [?], and joined again with a full stop and a space. *)
Theorem extract_subsections_no_marks
  (hash : string -> nat) (section : Sec.t) (persona job_description : string) :
  Forall (fun q => free_of is_mark (Passage.refined_text q) = true)
         (extract_subsections hash section persona job_description).
Proof.
  rewrite Forall_forall. intros q Hq.
  apply extract_subsections_in, collect_subsections_origin in Hq
    as (item & _ & _ & _ & Ht & _).
  exact (chunk_texts_free _ _ Ht).
Qed.

(** ** Chunks of sentences *)

Lemma firstn_plus {A} (a b : nat) : forall l : list A,
  firstn (a + b) l = firstn a l ++ firstn b (skipn a l).
Proof.
  induction a as [|a IH]; intros [|x l]; simpl; try reflexivity.
  - now rewrite firstn_nil.
  - now rewrite IH.
Qed.

Lemma slices_concat {A} (size : nat) (l : list A) (m : nat) :
  List.concat (map (fun i => Py.slice i size l)
                   (map (fun k => k * size) (seq 0 m)))
  = firstn (m * size) l.
Proof.
  induction m as [|m IH]; [reflexivity|].
  rewrite seq_S, !map_app, concat_app, IH. simpl.
  rewrite app_nil_r. unfold Py.slice.
  rewrite (Nat.add_comm size (m * size)). symmetry. apply firstn_plus.
Qed.

Lemma chunk_texts_groups (text : string) :
  chunk_texts text
  = map subsection_text
        (sentence_groups (split_sentences EmptyString false text)).
Proof. unfold chunk_texts, sentence_groups. now rewrite map_map. Qed.

(** X21. Grouping the sentences of a block loses none and repeats
    none: the chunk texts are made from groups of sentences which, laid
    end to end, are the sentences of the block in order, and no group
    has more than 4 sentences. *)
Theorem sentence_groups_partition (text : string) :
  let sentences := split_sentences EmptyString false text in
  chunk_texts text = map subsection_text (sentence_groups sentences) /\
  List.concat (sentence_groups sentences) = sentences /\
  Forall (fun group => List.length group <= 4) (sentence_groups sentences).
Proof.
  cbv zeta. split; [apply chunk_texts_groups|].
  generalize (split_sentences EmptyString false text) as sentences.
  intros sentences. unfold sentence_groups, Py.range0, subsection_size. split.
  - rewrite slices_concat. apply firstn_all2.
    pose proof (Nat.div_mod_eq (List.length sentences + 4 - 1) 4) as E.
    pose proof (Nat.mod_upper_bound (List.length sentences + 4 - 1) 4) as B.
    lia.
  - rewrite Forall_forall. intros group H.
    apply in_map_iff in H as (i & <- & _). apply firstn_le_length.
Qed.

(* ================================================================== *)
(** * Further properties: collection orchestrator *)
(* ================================================================== *)

Lemma flat_map_length_le {A B} (f : A -> list B) (c : nat) (l : list A) :
  (forall x, List.length (f x) <= c) ->
  List.length (flat_map f l) <= c * List.length l.
Proof.
  intros H. induction l as [|x l IH]; simpl; [lia|].
  rewrite length_app. specialize (H x). lia.
Qed.

(** X22. Whatever the input, the returned record has at most 20
    extracted sections and at most 30 passages in its sub-section
    analysis. *)
Theorem process_document_collection_sizes (w : World) :
  List.length (Output.extracted_sections (process_document_collection w)) <= 20 /\
  List.length (Output.sub_section_analysis (process_document_collection w)) <= 30.
Proof.
  unfold process_document_collection.
  destruct (process_body w) as [output|e] eqn:E; [|simpl; lia].
  destruct (process_body_ok _ E)
    as (config & persona & job & documents & doc_names & data & ranked & p & j
        & _ & _ & _ & _ & _ & _ & Hr & ->).
  cbn [Output.extracted_sections Output.sub_section_analysis].
  apply rank_sections_checked_ok in Hr as [Hr _].
  assert (Hrank : map Sec.importance_rank ranked = seq 1 (List.length ranked)).
  { rewrite Hr, rank_sections_rank, rank_sections_length. reflexivity. }
  split; [rewrite length_map; apply firstn_le_length|].
  rewrite (top_subsections_cut (hash_of w) p j ranked 1 20 Hrank).
  pose proof (flat_map_length_le
                (fun s => firstn 3 (extract_subsections (hash_of w) s p j)) 3
                (firstn (Nat.min 20 (11 - 1)) ranked)
                (fun s => firstn_le_length 3 _)) as H.
  pose proof (firstn_le_length (Nat.min 20 (11 - 1)) ranked) as H'.
  simpl Nat.min in *. lia.
Qed.

(** ** The loop over the documents *)


Lemma collect_documents_collects (w : World) (names : list string) :
  (forall name, In name names -> exists found, path_exists w name = Ok found) ->
  (forall name, In name names -> path_exists w name = Ok true ->
                exists blocks, extract_document_text w name = Ok blocks) ->
  forall acc,
  collect_documents w (map JString names) acc
  = Ok (acc ++ flat_map (blocks_or_nil w) (filter (is_found w) names)).
Proof.
  induction names as [|name names IH]; intros Hex H acc; simpl.
  - now rewrite app_nil_r.
  - destruct (Hex name (or_introl eq_refl)) as (found & Ex).
    unfold is_found at 1. rewrite Ex. cbn [bind]. destruct found.
    + destruct (H name (or_introl eq_refl) Ex) as (blocks & Hb).
      rewrite Hb. simpl. unfold blocks_or_nil at 1. rewrite Hb.
      rewrite IH; [now rewrite app_assoc | |].
      * intros n Hn. apply Hex. now right.
      * intros n Hn. apply H. now right.
    + apply IH.
      * intros n Hn. apply Hex. now right.
      * intros n Hn. apply H. now right.
Qed.

(** X23. A document for which the test [exists()] answers no is skipped
    and the others are read in the order of the list: when the test
    returns an answer for every listed document and every document
    found can be read, the blocks handed to the segmenter are the
    blocks of the documents found, one document after the other. *)
Theorem collect_documents_skips_missing (w : World) (names : list string) :
  (forall name, In name names -> exists found, path_exists w name = Ok found) ->
  (forall name, In name names -> path_exists w name = Ok true ->
                exists blocks, extract_document_text w name = Ok blocks) ->
  collect_documents w (map JString names) []
  = Ok (flat_map (blocks_or_nil w) (filter (is_found w) names)).
Proof. intros Hex H. exact (collect_documents_collects w names Hex H []). Qed.

Lemma collect_documents_skips_missing_witness :
  collect_documents (sample_world "t")
    (map JString ["missing.pdf"; "a.pdf"; "gone.pdf"]) []
  = Ok (flat_map (blocks_or_nil (sample_world "t"))
          (filter (is_found (sample_world "t"))
             ["missing.pdf"; "a.pdf"; "gone.pdf"])).
Proof.
  apply (collect_documents_skips_missing (sample_world "t")
           ["missing.pdf"; "a.pdf"; "gone.pdf"]).
  - intros name _. eexists. reflexivity.
  - intros name _ _. eexists. reflexivity.
Defined.




(** ** A persona that is not a string *)

Lemma identify_sections_nonempty (data : list TextBlock.t) :
  data <> [] -> identify_sections data <> [].
Proof.
  intros Hne Hnil. apply Hne.
  rewrite <- (identify_sections_concat data), Hnil. reflexivity.
Qed.

(** X25. A persona that is not a string is only met when a section is
    scored: with it, a collection that yields no block is processed
    without error and the persona is echoed as it is, while a
    collection that yields a block ends in the error record of an
    [AttributeError]. *)
Theorem process_document_collection_persona_not_str
  (w : World) (config persona job documents : json) (doc_names : list json)
  (data : list TextBlock.t) (e : exn) :
  load_config w = Ok config ->
  getitem config "persona" = Ok persona ->
  getitem config "job_to_be_done" = Ok job ->
  getitem config "documents" = Ok documents ->
  iterate documents = Ok doc_names ->
  collect_documents w doc_names [] = Ok data ->
  as_str persona = Raise e ->
  exn_class e = "AttributeError" /\
  (data = [] ->
   process_document_collection w
   = Output.mk (Metadata.mk documents persona job (now w) None) [] []) /\
  (data <> [] -> process_document_collection w = error_output w e).
Proof.
  intros Hc Hp Hj Hd Hi Hcol He.
  assert (Hbody : process_body w
                  = (ranked <- rank_sections_checked (hash_of w)
                                 (identify_sections data) persona job ;;
                     let '(ranked_sections, p, j) := ranked in
                     Ok (Output.mk
                           (Metadata.mk documents persona job (now w) None)
                           (map project_section (firstn 20 ranked_sections))
                           (flat_map (top_subsections (hash_of w) p j)
                                     (firstn 20 ranked_sections))))).
  { unfold process_body.
    rewrite Hc; cbn [bind]. rewrite Hp; cbn [bind]. rewrite Hj; cbn [bind].
    rewrite Hd; cbn [bind]. rewrite Hi; cbn [bind]. now rewrite Hcol. }
  split; [|split].
  - destruct persona; simpl in He; try (injection He as <-; reflexivity).
    discriminate.
  - intros ->. apply process_ok. rewrite Hbody. reflexivity.
  - intros Hne. apply process_raise. rewrite Hbody.
    unfold rank_sections_checked.
    destruct (identify_sections data) eqn:E;
      [now apply identify_sections_nonempty in Hne|].
    now rewrite He.
Qed.

Lemma process_document_collection_persona_not_str_witness :
  exists data e,
    collect_documents number_persona_world [JString "a.pdf"] [] = Ok data /\
    as_str (JInt 7) = Raise e /\
    exn_class e = "AttributeError" /\
    (data = [] ->
     process_document_collection number_persona_world
     = Output.mk
         (Metadata.mk (JArray [JString "a.pdf"]) (JInt 7)
            (JString "Learn the basics") (now number_persona_world) None)
         [] []) /\
    (data <> [] ->
     process_document_collection number_persona_world
     = error_output number_persona_world e).
Proof.
  eexists. eexists.
  assert (Hcol : collect_documents number_persona_world [JString "a.pdf"] []
                 = Ok (blocks_or_nil number_persona_world "a.pdf")).
  { vm_compute. reflexivity. }
  split; [exact Hcol|]. split; [reflexivity|].
  exact (process_document_collection_persona_not_str number_persona_world
           _ (JInt 7) (JString "Learn the basics") (JArray [JString "a.pdf"])
           [JString "a.pdf"] _ _
           eq_refl eq_refl eq_refl eq_refl eq_refl Hcol eq_refl).
Defined.

(** ** Where sections and passages come from *)

Lemma extract_document_text_origin (w : World) (name : string)
  (blocks : list TextBlock.t) :
  extract_document_text w name = Ok blocks ->
  Forall (fun b => TextBlock.document b = path_name w name /\
                   1 <= TextBlock.page b) blocks.
Proof.
  unfold extract_document_text.
  destruct (page_texts w name) as [pages|e]; simpl; [|discriminate].
  intros H. injection H as <-. rewrite Forall_forall. intros b Hb.
  unfold enumerate in Hb. apply in_pages_blocks in Hb as (pn & text & _ & Hb).
  apply blocks_of_page_ok in Hb as (Hd & Hp & _). split; [exact Hd | lia].
Qed.

Lemma collect_documents_origin (w : World) (P : TextBlock.t -> Prop)
  (all_names : list json) :
  (forall name b, In (JString name) all_names -> path_exists w name = Ok true ->
                  TextBlock.document b = path_name w name ->
                  1 <= TextBlock.page b -> P b) ->
  forall doc_names acc data,
  (forall x, In x doc_names -> In x all_names) ->
  Forall P acc ->
  collect_documents w doc_names acc = Ok data -> Forall P data.
Proof.
  intros HP. induction doc_names as [|d rest IH]; intros acc data Hsub Hacc H.
  - simpl in H. now injection H as <-.
  - simpl in H. destruct d; try discriminate.
    assert (Hrest : forall x, In x rest -> In x all_names)
      by (intros x Hx; apply Hsub; now right).
    destruct (path_exists w s) as [[|]|e0] eqn:Ex; simpl in H;
      [|now apply (IH acc data)|discriminate].
    destruct (extract_document_text w s) as [blocks|e] eqn:Eb;
      simpl in H; [|discriminate].
    apply (IH (acc ++ blocks) data Hrest); [|exact H].
    apply Forall_app. split; [exact Hacc|].
    eapply Forall_impl; [|exact (extract_document_text_origin w s blocks Eb)].
    intros b [Hd Hp]. apply (HP s b); try assumption.
    apply Hsub. now left.
Qed.

Lemma identify_sections_origin (data : list TextBlock.t) (s : Sec.t) :
  In s (identify_sections data) ->
  (exists first, In first data /\
                 Sec.document s = TextBlock.document first /\
                 Sec.page s = TextBlock.page first) /\
  (forall item, In item (Sec.content s) -> In item data).
Proof.
  intros Hs.
  assert (Hsub : forall item, In item (Sec.content s) -> In item data).
  { intros item Hi. rewrite <- (identify_sections_concat data).
    apply in_concat. exists (Sec.content s). split; [now apply in_map | exact Hi]. }
  split; [|exact Hsub].
  pose proof (proj1 (seg_fold_invariant data _ seg_initial_invariant)) as H.
  fold (identify_sections data) in H. rewrite Forall_forall in H.
  destruct (H s Hs) as (first & rest & Hc & Hd & Hp & _).
  exists first. repeat split; try assumption.
  apply Hsub. rewrite Hc. now left.
Qed.

Lemma rank_sections_body (hash : string -> nat) (sections : list Sec.t)
  (p j : string) (s : Sec.t) :
  In s (rank_sections hash sections p j) ->
  exists s0, In s0 sections /\ section_body s = section_body s0.
Proof.
  intros Hs. apply (in_map section_body) in Hs.
  unfold rank_sections, assign_ranks, enumerate in Hs.
  rewrite assign_ranks_body in Hs.
  apply (Permutation_in _ (Permutation_map section_body
                             (sort_desc_perm Sec.score _))) in Hs.
  rewrite map_map in Hs. apply in_map_iff in Hs as (s0 & E & H0).
  exists s0. split; [exact H0 | now rewrite <- E].
Qed.

(** X27. Nothing is reported from elsewhere: the document and page of
    every extracted section, and of every passage of the sub-section
    analysis, are the file name of a document that is listed in the
    configuration and exists, and a page number of at least 1. *)
Theorem process_document_collection_origin (w : World) :
  Forall (fun x =>
            from_listed_document w (ExtractedSection.document x)
              (ExtractedSection.page_number x))
         (Output.extracted_sections (process_document_collection w)) /\
  Forall (fun q =>
            from_listed_document w (Passage.document q) (Passage.page_number q))
         (Output.sub_section_analysis (process_document_collection w)).
Proof.
  unfold process_document_collection.
  destruct (process_body w) as [output|e] eqn:E; [|split; constructor].
  destruct (process_body_ok _ E)
    as (config & persona & job & documents & doc_names & data & ranked & p & j
        & Hc & _ & _ & Hd & Hi & Hcol & Hr & ->).
  cbn [Output.extracted_sections Output.sub_section_analysis].
  apply rank_sections_checked_ok in Hr as [Hr _].
  assert (Hdata : Forall (fun b => from_listed_document w
                                     (TextBlock.document b) (TextBlock.page b))
                         data).
  { apply (collect_documents_origin w _ doc_names) with (doc_names := doc_names)
                                                         (acc := []);
      [|auto|constructor|exact Hcol].
    intros name b Hin Hex Hdoc Hpage. exists name.
    repeat split; try assumption.
    exists config, documents, doc_names. now repeat split. }
  rewrite Forall_forall in Hdata.
  assert (Hsec : forall s, In s ranked ->
            (exists first, In first data /\
                           Sec.document s = TextBlock.document first /\
                           Sec.page s = TextBlock.page first) /\
            (forall item, In item (Sec.content s) -> In item data)).
  { intros s Hs. rewrite Hr in Hs.
    apply rank_sections_body in Hs as (s0 & H0 & Hb).
    apply identify_sections_origin in H0 as [(first & Hf & Hfd & Hfp) Hsub].
    unfold section_body in Hb. injection Hb as Hb1 Hb2 _ Hb4.
    split; [exists first; repeat split; congruence|].
    intros item Hitem. apply Hsub. now rewrite <- Hb4. }
  split; rewrite Forall_forall.
  - intros x Hx. apply in_map_iff in Hx as (s & <- & Hs).
    apply in_firstn in Hs. destruct (Hsec s Hs) as [(first & Hf & Hfd & Hfp) _].
    simpl. rewrite Hfd, Hfp. now apply Hdata.
  - intros q Hq. apply in_flat_map in Hq as (s & Hs & Hq).
    apply in_firstn in Hs. destruct (Hsec s Hs) as [_ Hsub].
    unfold top_subsections in Hq.
    destruct (Sec.importance_rank s <=? 10); [|contradiction].
    apply in_firstn, extract_subsections_in, collect_subsections_origin in Hq
      as (item & Hitem & Hqd & Hqp & _).
    rewrite Hqd, Hqp. now apply Hdata, Hsub.
Qed.

(* ================================================================== *)
(** * Further properties: the driver *)
(* ================================================================== *)

Lemma lookup_write_file {V} (name name' : string) (v : V) (fs : list (string * V)) :
  lookup name ((name', v) :: fs)
  = if String.eqb name name' then Some v else lookup name fs.
Proof. reflexivity. Qed.

Lemma call_returns (w : World) (output : Output.t) :
  process_document_collection_call w = Ok output ->
  output = process_document_collection w.
Proof.
  unfold process_document_collection_call, try_except_Exception,
    process_document_collection.
  destruct (process_body w) as [o|e]; [now intros [= <-]|].
  destruct (is_Exception e); [now intros [= <-] | discriminate].
Qed.

Lemma passing_outside (e e' : exn) :
  passing e = Some e' -> e' = e /\ is_Exception e' = false.
Proof.
  unfold passing. destruct (is_Exception e) eqn:E; [discriminate|].
  intros [= <-]. now split.
Qed.

Lemma process_one_passes (d : Disk) (fs : files) (c : Collection) (e : exn) :
  snd (process_one d fs c) = Some e -> is_Exception e = false.
Proof.
  unfold process_one. cbv zeta.
  destruct (process_document_collection_call (world c)) as [result|e0].
  - destruct (write_end_of d _ result) as [|e1|e1]; simpl;
      [discriminate | |]; intros H; now apply passing_outside in H.
  - simpl. intros H. now apply passing_outside in H.
Qed.

Lemma process_one_other (d : Disk) (fs : files) (c : Collection) (name : string) :
  output_filename (parent_name c) <> name ->
  lookup name (fst (process_one d fs c)) = lookup name fs.
Proof.
  intros H. unfold process_one. cbv zeta.
  destruct (process_document_collection_call (world c)) as [result|e0];
    [|reflexivity].
  destruct (write_end_of d _ result) as [|e1|e1]; cbn [fst]; try reflexivity;
    unfold write_file; rewrite lookup_write_file;
    (destruct (String.eqb_spec name (output_filename (parent_name c)))
       as [->|]; [now elim H | reflexivity]).
Qed.

Lemma process_all_passes (d : Disk) (cs : list Collection) : forall fs e,
  snd (process_all d fs cs) = Some e -> is_Exception e = false.
Proof.
  induction cs as [|c cs IH]; intros fs e; simpl; [discriminate|].
  destruct (process_one d fs c) as [fs' [e'|]] eqn:E.
  - simpl. intros [= <-].
    apply (process_one_passes d fs c). now rewrite E.
  - apply IH.
Qed.

Lemma process_all_other (d : Disk) (name : string) (cs : list Collection) :
  (forall c, In c cs -> output_filename (parent_name c) <> name) ->
  forall fs, lookup name (fst (process_all d fs cs)) = lookup name fs.
Proof.
  induction cs as [|c cs IH]; intros H fs; [reflexivity|]. simpl.
  pose proof (process_one_other d fs c name (H c (or_introl eq_refl))) as Hc.
  destruct (process_one d fs c) as [fs' [e'|]]; simpl in *; [exact Hc|].
  rewrite IH by (intros c' Hc'; apply H; now right). exact Hc.
Qed.

(** X28. The driver lets an exception pass only if making the output
    directory or searching for the input files raised it, or if its
    class does not derive from [Exception]; any other failure met while
    a collection is processed or its file written is contained.  When
    the directory cannot be made nothing else is done; otherwise the
    directory exists at the end, no file is written when the search
    raises or finds no input file, and a file that is not the output
    file of a collection found is left as it was. *)
Theorem process_collections_contained (d : Disk) (dir : directory) :
  (forall e, snd (process_collections d dir) = Some e ->
     mkdir_output d = Raise e \/ glob_inputs d = Raise e \/
     is_Exception e = false) /\
  (forall e, mkdir_output d = Raise e ->
     process_collections d dir = (dir, Some e)) /\
  (mkdir_output d = Ok tt ->
   exists fs',
     fst (process_collections d dir) = Some fs' /\
     (forall e, glob_inputs d = Raise e ->
        fs' = made dir /\ snd (process_collections d dir) = Some e) /\
     (glob_inputs d = Ok [] ->
        fs' = made dir /\ snd (process_collections d dir) = None) /\
     (forall cs name, glob_inputs d = Ok cs ->
        (forall c, In c cs -> output_filename (parent_name c) <> name) ->
        lookup name fs' = lookup name (made dir))).
Proof.
  unfold process_collections. split; [|split].
  - intros e. destruct (mkdir_output d) as [[]|e0]; simpl;
      [|intros [= <-]; now left].
    destruct (glob_inputs d) as [cs|e0]; simpl;
      [|intros [= <-]; right; now left].
    destruct (process_all d (made dir) cs) as [fs' esc] eqn:E. simpl.
    intros ->. right. right.
    apply (process_all_passes d cs (made dir)). now rewrite E.
  - now intros e ->.
  - intros ->. cbv zeta.
    destruct (glob_inputs d) as [cs|e0] eqn:G.
    + destruct (process_all d (made dir) cs) as [fs' esc] eqn:E.
      exists fs'. split; [reflexivity|]. split; [discriminate|]. split.
      * intros [= ->]. simpl in E. now injection E as <- <-.
      * intros cs' name [= <-] H.
        pose proof (process_all_other d name cs H (made dir)) as K.
        now rewrite E in K.
    + exists (made dir). split; [reflexivity|]. split.
      * intros e [= <-]. now split.
      * split; [discriminate|]. intros cs name [=].
Qed.

Lemma append_suffix_inj (s : string) : forall a b,
  String.append a s = String.append b s -> a = b.
Proof.
  assert (L : forall a c b, String.append a s <> String.append (String c b) s
                            \/ a <> EmptyString).
  { intros a c b. destruct a as [|x a]; [left | right; discriminate].
    simpl. intros E. apply (f_equal String.length) in E. simpl in E.
    rewrite append_length in E. lia. }
  induction a as [|x a IH]; intros [|y b] E.
  - reflexivity.
  - destruct (L EmptyString y b) as [H|H]; [now elim H | now elim H].
  - symmetry in E. destruct (L EmptyString x a) as [H|H];
      [now elim H | now elim H].
  - simpl in E. injection E as -> E. f_equal. now apply IH.
Qed.

Lemma output_filename_inj (a b : string) :
  output_filename a = output_filename b -> a = b.
Proof. apply append_suffix_inj. Qed.

Lemma process_all_app (d : Disk) (cs1 cs2 : list Collection) : forall fs,
  snd (process_all d fs (cs1 ++ cs2)) = None ->
  snd (process_all d fs cs1) = None /\
  process_all d fs (cs1 ++ cs2)
  = process_all d (fst (process_all d fs cs1)) cs2.
Proof.
  induction cs1 as [|c cs1 IH]; intros fs; simpl; [now split|].
  destruct (process_one d fs c) as [fs' [e|]]; [discriminate|].
  apply IH.
Qed.

(** X29. When the driver returns, each output file holds what the last
    collection of its name left there, in the order the input files
    were found: for a collection followed by no other of the same
    directory name, [<name>_output.json] holds its record when the
    write was completed, and the beginning of its record when
    [json.dump] failed after the file was opened.  So of two
    collections in directories of one name only the later one is
    kept. *)
Theorem process_collections_last_write
  (d : Disk) (dir : directory) (before : list Collection) (c : Collection)
  (after : list Collection) :
  snd (process_collections d dir) = None ->
  glob_inputs d = Ok (before ++ c :: after) ->
  (forall c', In c' after -> parent_name c' <> parent_name c) ->
  let name := output_filename (parent_name c) in
  let record := process_document_collection (world c) in
  exists fs',
    fst (process_collections d dir) = Some fs' /\
    (write_end_of d name record = Written ->
     lookup name fs' = Some (Whole record)) /\
    (forall e, write_end_of d name record = Torn e ->
     lookup name fs' = Some (Beginning record)).
Proof.
  unfold process_collections. intros Hret Hg Hafter. cbv zeta.
  destruct (mkdir_output d) as [[]|e0]; [|discriminate].
  rewrite Hg in *. cbv zeta in Hret.
  destruct (process_all d (made dir) (before ++ c :: after)) as [fs' esc] eqn:E.
  simpl in Hret. subst esc. exists fs'. split; [reflexivity|].
  assert (Hsnd : snd (process_all d (made dir) (before ++ c :: after)) = None)
    by now rewrite E.
  destruct (process_all_app d before (c :: after) (made dir) Hsnd) as [_ Happ].
  rewrite Happ in E. clear Happ Hsnd.
  set (fs0 := fst (process_all d (made dir) before)) in *.
  simpl in E.
  destruct (process_one d fs0 c) as [fs1 [e1|]] eqn:E1; [discriminate|].
  assert (Hlast : lookup (output_filename (parent_name c)) fs'
                  = lookup (output_filename (parent_name c)) fs1).
  { pose proof (process_all_other d (output_filename (parent_name c)) after)
      as K.
    rewrite <- (K (fun c' Hc' Heq =>
                     Hafter c' Hc' (output_filename_inj _ _ Heq)) fs1).
    now rewrite E. }
  rewrite Hlast. unfold process_one in E1. cbv zeta in E1.
  destruct (process_document_collection_call (world c)) as [result|e0] eqn:Ec.
  - apply call_returns in Ec. subst result.
    destruct (write_end_of d _ _) as [|e1|e1] eqn:Ew.
    + injection E1 as <-. split; [intros _|discriminate].
      unfold write_file. now rewrite lookup_write_file, String.eqb_refl.
    + split; discriminate.
    + injection E1 as <- _. split; [discriminate|intros e _].
      unfold write_file. now rewrite lookup_write_file, String.eqb_refl.
  - exfalso. injection E1 as _ E1.
    unfold process_document_collection_call, try_except_Exception in Ec.
    destruct (process_body (world c)); [discriminate|].
    unfold passing in E1. destruct (is_Exception e) eqn:Ex; [discriminate|].
    injection Ec as <-. rewrite Ex in E1. discriminate.
Qed.

Lemma process_collections_last_write_witness :
  exists fs',
    fst (process_collections twin_disk None) = Some fs' /\
    (write_end_of twin_disk "Collection 1_output.json"
       (process_document_collection missing_key_world) = Written ->
     lookup "Collection 1_output.json" fs'
     = Some (Whole (process_document_collection missing_key_world))) /\
    (forall e,
       write_end_of twin_disk "Collection 1_output.json"
         (process_document_collection missing_key_world) = Torn e ->
       lookup "Collection 1_output.json" fs'
       = Some (Beginning (process_document_collection missing_key_world))).
Proof.
  exact (process_collections_last_write twin_disk None
           [ {| parent_name := "Collection 1"; world := empty_world |} ]
           {| parent_name := "Collection 1"; world := missing_key_world |}
           [] eq_refl eq_refl (fun c' H => False_ind _ H)).
Defined.
